(** * crews-live: the multi-agent code-generation pipeline

    A shallow embedding of the server side of the repository:

    - [server/src/utils/index.ts]: request validation, input sanitising,
      the language -> extension table and the artifact assembly
      ([compileCodeFiles]);
    - [server/services/agents.ts]: the four agents and their canned
      role-specific responses (both the mock variant and the variant
      that calls the model when a credential is configured);
    - [server/services/crew.ts]: [CrewService], the sequential job
      runner with its in-memory registry and eviction timer;
    - [server/routes.ts]: the submission endpoint;
    - [server/src/services/enhanced-code-generation.ts]: the enhanced
      service (validation, sanitising, cancellation, eviction).

    Strings are sequences of code units; the model covers the code
    units 0..255 (Rocq's [ascii]).  Characters of the source's canned
    texts outside that range are carried as their UTF-8 bytes. *)

From stdpp Require Import base strings list gmap.
From Stdlib Require Import Ascii String DecimalString NArith Lia.

Local Open Scope string_scope.

(** ** JavaScript primitives used by the sources *)

Module JS.

(** Code points matched by [\s] and stripped by [String.prototype.trim],
    restricted to 0..255: TAB, LF, VT, FF, CR, SPACE and NBSP. *)
Definition isWhiteSpace (c : ascii) : bool :=
  let n := nat_of_ascii c in
  ((9 <=? n)%nat && (n <=? 13)%nat) || (n =? 32)%nat || (n =? 160)%nat.

(** [String.prototype.toLowerCase] on one code unit below 256: A-Z and
    the Latin-1 capitals (except the multiplication sign) move by 32. *)
Definition lowerChar (c : ascii) : ascii :=
  let n := nat_of_ascii c in
  if ((65 <=? n)%nat && (n <=? 90)%nat)
     || ((192 <=? n)%nat && (n <=? 222)%nat && negb (n =? 215)%nat)
  then ascii_of_nat (n + 32) else c.

Fixpoint toLowerCase (s : string) : string :=
  match s with
  | EmptyString => EmptyString
  | String c r => String (lowerChar c) (toLowerCase r)
  end.

Fixpoint trimStart (s : string) : string :=
  match s with
  | EmptyString => EmptyString
  | String c r => if isWhiteSpace c then trimStart r else s
  end.

Fixpoint trimEnd (s : string) : string :=
  match s with
  | EmptyString => EmptyString
  | String c r =>
      match trimEnd r with
      | EmptyString => if isWhiteSpace c then EmptyString else String c EmptyString
      | r' => String c r'
      end
  end.

Definition trim (s : string) : string := trimEnd (trimStart s).

(** [s.replace(/[...]/g, '')] for a character class [cls]. *)
Fixpoint removeAll (cls : ascii -> bool) (s : string) : string :=
  match s with
  | EmptyString => EmptyString
  | String c r => if cls c then removeAll cls r else String c (removeAll cls r)
  end.

Fixpoint repeat_char (c : ascii) (n : nat) : string :=
  match n with
  | O => EmptyString
  | S k => String c (repeat_char c k)
  end.

(** [s.replace(/c{lo,}/g, rep)]: every maximal run of at least [lo]
    copies of [c] becomes [rep]; shorter runs stay.  [pending] counts the
    copies of [c] read and not yet written. *)
Definition flushRun (c : ascii) (lo : nat) (rep : string) (pending : nat) : string :=
  if (lo <=? pending)%nat then rep else repeat_char c pending.

Fixpoint replaceRuns (c : ascii) (lo : nat) (rep : string) (pending : nat) (s : string)
  : string :=
  match s with
  | EmptyString => flushRun c lo rep pending
  | String d r =>
      if Ascii.eqb d c then replaceRuns c lo rep (S pending) r
      else flushRun c lo rep pending ++ String d (replaceRuns c lo rep 0 r)
  end.

(** [s.replace(/\s+/g, rep)]: every maximal run of white space becomes
    one [rep]. *)
Fixpoint replaceSpaceRuns (rep : string) (inRun : bool) (s : string) : string :=
  match s with
  | EmptyString => EmptyString
  | String d r =>
      if isWhiteSpace d
      then (if inRun then replaceSpaceRuns rep true r
            else rep ++ replaceSpaceRuns rep true r)
      else String d (replaceSpaceRuns rep false r)
  end.

(** [s.substring(0, n)]. *)
Definition substring0 (n : nat) (s : string) : string := String.substring 0 n s.

(** [xs.join(sep)]. *)
Fixpoint join (sep : string) (xs : list string) : string :=
  match xs with
  | [] => ""
  | [x] => x
  | x :: rest => x ++ sep ++ join sep rest
  end.

(** A string is falsy exactly when it is empty. *)
Definition truthy (s : string) : bool :=
  match s with EmptyString => false | _ => true end.

(** Values a property read on an object literal with string values can
    produce: an own string, or a member inherited from
    [Object.prototype], identified by its property name. *)
Inductive value : Type :=
| VStr (s : string)
| VInherited (name : string).

(** The property names every object literal inherits. *)
Definition objectPrototypeKeys : list string :=
  [ "constructor"; "__defineGetter__"; "__defineSetter__"; "hasOwnProperty";
    "__lookupGetter__"; "__lookupSetter__"; "isPrototypeOf";
    "propertyIsEnumerable"; "toString"; "valueOf"; "__proto__";
    "toLocaleString" ].

Definition inString (k : string) (ks : list string) : bool :=
  existsb (String.eqb k) ks.

Fixpoint assoc (k : string) (kvs : list (string * string)) : option string :=
  match kvs with
  | [] => None
  | (k', v) :: rest => if String.eqb k k' then Some v else assoc k rest
  end.

(** [obj[key]] for an object literal with the own properties [own]:
    own properties first, then the prototype; [None] is [undefined]. *)
Definition getProp (own : list (string * string)) (key : string) : option value :=
  match assoc key own with
  | Some v => Some (VStr v)
  | None => if inString key objectPrototypeKeys then Some (VInherited key) else None
  end.

(** [obj[key] || dflt]: inherited members are functions or objects,
    hence truthy. *)
Definition getPropOr (own : list (string * string)) (key : string) (dflt : string)
  : value :=
  match getProp own key with
  | Some (VStr s) => if truthy s then VStr s else VStr dflt
  | Some v => v
  | None => VStr dflt
  end.

(** String conversion, as a template literal does it.  [__proto__] reads
    as [Object.prototype] itself; [constructor] is the function
    [Object]; the other inherited members are native functions named
    after their property (the text V8 prints). *)
Definition toString (v : value) : string :=
  match v with
  | VStr s => s
  | VInherited name =>
      if String.eqb name "__proto__" then "[object Object]"
      else if String.eqb name "constructor" then "function Object() { [native code] }"
      else "function " ++ name ++ "() { [native code] }"
  end.

End JS.

(** Characters that cannot be written inside a string literal. *)
Definition LF : ascii := "010"%char.
Definition nl : string := String LF "".
Definition dquote : string := String "034"%char "".
Definition backslash : string := String "092"%char "".

(** The literal [10000] of the sources. *)
Definition tenThousand : nat := 10 * 1000.

(** ** server/src/utils/index.ts *)

Module Utils.

(** [GenerationRequest] (shared/types.ts). *)
Record GenerationRequest : Type := mkRequest {
  jobId : string;
  requirements : string;
  framework : string;
  language : string
}.

(** [Partial<GenerationRequest>]: a field may be [undefined]. *)
Record PartialRequest : Type := mkPartial {
  p_requirements : option string;
  p_framework : option string;
  p_language : option string
}.

Definition partial (r : GenerationRequest) : PartialRequest :=
  {| p_requirements := Some (requirements r);
     p_framework := Some (framework r);
     p_language := Some (language r) |}.

(** The own properties of [extensions] in [getFileExtension]. *)
Definition extensions : list (string * string) :=
  [ ("javascript", "js"); ("typescript", "ts"); ("python", "py");
    ("java", "java"); ("csharp", "cs"); ("cpp", "cpp"); ("c", "c");
    ("go", "go"); ("rust", "rs"); ("php", "php"); ("ruby", "rb");
    ("swift", "swift"); ("kotlin", "kt") ].

(** [extensions[language.toLowerCase()] || 'txt'] *)
Definition getFileExtension (language : string) : JS.value :=
  JS.getPropOr extensions (JS.toLowerCase language) "txt".

(** [!x || x.trim().length === 0] for an optional string field. *)
Definition missingOrBlank (x : option string) : bool :=
  match x with
  | None => true
  | Some s => negb (JS.truthy s) || (String.length (JS.trim s) =? 0)%nat
  end.

Definition validateGenerationRequest (request : PartialRequest) : list string :=
  let errors : list string := [] in
  let errors :=
    if missingOrBlank (p_requirements request)
    then (errors ++ ["Requirements are required and cannot be empty"])%list else errors in
  let errors :=
    if missingOrBlank (p_framework request)
    then (errors ++ ["Framework is required and cannot be empty"])%list else errors in
  let errors :=
    if missingOrBlank (p_language request)
    then (errors ++ ["Language is required and cannot be empty"])%list else errors in
  let errors :=
    match p_requirements request with
    | Some s =>
        if JS.truthy s && (tenThousand <? String.length s)%nat
        then (errors ++ ["Requirements are too long (maximum 10,000 characters)"])%list
        else errors
    | None => errors
    end in
  errors.

Definition isAngle (c : ascii) : bool :=
  Ascii.eqb c "<"%char || Ascii.eqb c ">"%char.

Definition sanitizeInput (input : string) : string :=
  JS.substring0 tenThousand
    (JS.replaceRuns LF 3 (nl ++ nl) 0
       (JS.removeAll isAngle
          (JS.trim input))).

(** [generateReadme]; its second argument, the code, is not used. *)
Definition generateReadme (request : GenerationRequest) (codeContent : string) : string :=
  "# " ++ framework request ++ " Application

## Description
" ++ requirements request ++ "

## Technology Stack
- **Framework:** " ++ framework request ++ "
- **Language:** " ++ language request ++ "

## Installation

```bash
npm install
```

## Usage

```bash
npm start
```

## Features
- Production-ready code
- Modern architecture
- Comprehensive testing
- Security best practices

## Generated by CrewCodeGen
This application was generated using AI-powered multi-agent collaboration.
".

(** [JSON.stringify] of a string: quotes, backslashes and control
    characters are escaped. *)
Definition hexDigit (n : nat) : ascii :=
  if (n <? 10)%nat then ascii_of_nat (48 + n) else ascii_of_nat (87 + n).

Definition jsonEscapeChar (c : ascii) : string :=
  let n := nat_of_ascii c in
  if (n =? 34)%nat then backslash ++ dquote
  else if (n =? 92)%nat then backslash ++ backslash
  else if (n =? 8)%nat then backslash ++ "b"
  else if (n =? 9)%nat then backslash ++ "t"
  else if (n =? 10)%nat then backslash ++ "n"
  else if (n =? 12)%nat then backslash ++ "f"
  else if (n =? 13)%nat then backslash ++ "r"
  else if (n <? 32)%nat
       then backslash ++ "u00" ++ String (hexDigit (n / 16)) (String (hexDigit (n mod 16)) "")
  else String c "".

Fixpoint jsonEscape (s : string) : string :=
  match s with
  | EmptyString => EmptyString
  | String c r => jsonEscapeChar c ++ jsonEscape r
  end.

Definition jsonString (s : string) : string := dquote ++ jsonEscape s ++ dquote.

Definition isPackageNameChar (c : ascii) : bool :=
  let n := nat_of_ascii c in
  ((97 <=? n)%nat && (n <=? 122)%nat) || ((48 <=? n)%nat && (n <=? 57)%nat)
  || JS.isWhiteSpace c.

(** [generatePackageJson]: [JSON.stringify(obj, null, 2)] of the
    package description object. *)
Definition generatePackageJson (request : GenerationRequest) : string :=
  let packageName :=
    JS.substring0 50
      (JS.replaceSpaceRuns "-" false
         (JS.removeAll (fun c => negb (isPackageNameChar c))
            (JS.toLowerCase (requirements request)))) in
  let name := if JS.truthy packageName then packageName else "generated-app" in
  let main := "main." ++ JS.toString (getFileExtension (language request)) in
  "{" ++ nl ++
  "  " ++ jsonString "name" ++ ": " ++ jsonString name ++ "," ++ nl ++
  "  " ++ jsonString "version" ++ ": " ++ jsonString "1.0.0" ++ "," ++ nl ++
  "  " ++ jsonString "description" ++ ": "
       ++ jsonString (JS.substring0 200 (requirements request)) ++ "," ++ nl ++
  "  " ++ jsonString "main" ++ ": " ++ jsonString main ++ "," ++ nl ++
  "  " ++ jsonString "scripts" ++ ": {" ++ nl ++
  "    " ++ jsonString "start" ++ ": " ++ jsonString "node main.js" ++ "," ++ nl ++
  "    " ++ jsonString "dev" ++ ": " ++ jsonString "nodemon main.js" ++ "," ++ nl ++
  "    " ++ jsonString "test" ++ ": " ++ jsonString "jest" ++ "," ++ nl ++
  "    " ++ jsonString "build" ++ ": " ++ jsonString "tsc" ++ nl ++
  "  }," ++ nl ++
  "  " ++ jsonString "keywords" ++ ": [" ++ nl ++
  "    " ++ jsonString (framework request) ++ "," ++ nl ++
  "    " ++ jsonString (language request) ++ "," ++ nl ++
  "    " ++ jsonString "generated" ++ "," ++ nl ++
  "    " ++ jsonString "ai" ++ nl ++
  "  ]," ++ nl ++
  "  " ++ jsonString "author" ++ ": " ++ jsonString "CrewCodeGen" ++ "," ++ nl ++
  "  " ++ jsonString "license" ++ ": " ++ jsonString "MIT" ++ nl ++
  "}".

(** One element of [agentOutputs]. *)
Record AgentOutput : Type := mkOutput {
  role : string;
  content : string
}.

(** The body of the [forEach] in [compileCodeFiles]: the [switch] on the
    lower-cased role.  [files] is a fresh object used as a map; every
    key written contains a dot, so no write reaches an inherited
    property. *)
Definition compileStep (request : GenerationRequest) (fileExtension : string)
    (files : gmap string string) (output : AgentOutput) : gmap string string :=
  let r := JS.toLowerCase (role output) in
  if String.eqb r "product manager" then
    <["PROJECT_SPECIFICATION.md" := content output]> files
  else if String.eqb r "solution architect" then
    <["ARCHITECTURE.md" := content output]> files
  else if String.eqb r "senior developer" then
    <["package.json" := generatePackageJson request]>
      (<["README.md" := generateReadme request (content output)]>
         (<["main." ++ fileExtension := content output]> files))
  else if String.eqb r "qa engineer" then
    <["TEST_PLAN.md" := content output]>
      (<["tests." ++ fileExtension := content output]> files)
  else
    <[JS.replaceSpaceRuns "_" false r ++ ".md" := content output]> files.

Definition compileCodeFiles (agentOutputs : list AgentOutput)
    (request : GenerationRequest) : gmap string string :=
  let fileExtension := JS.toString (getFileExtension (language request)) in
  fold_left (compileStep request fileExtension) agentOutputs ∅.

End Utils.

(** ** server/services/agents.ts *)

Module Agents.

(** The constructor argument [config: Agent]; an absent optional field
    is [None]. *)
Record Agent : Type := mkAgent {
  c_id : string;
  c_role : string;
  c_goal : string;
  c_backstory : string;
  c_verbose : option bool;
  c_allowDelegation : option bool;
  c_systemPrompt : option string
}.

Record AIAgent : Type := mkAIAgent {
  id : string;
  role : string;
  goal : string;
  backstory : string;
  verbose : bool;
  allowDelegation : bool;
  systemPrompt : string
}.

Definition generateSystemPrompt (role goal backstory : string) : string :=
  "You are a " ++ role ++ " AI agent.

Role: " ++ role ++ "
Goal: " ++ goal ++ "
Backstory: " ++ backstory ++ "

Your responsibilities:
- Focus on your specific role and expertise
- Provide detailed, actionable responses
- Consider the context from previous agents when available
- Maintain professional standards and best practices
- Be thorough and comprehensive in your analysis

Always respond with clear, structured output that the next agent or final user can immediately understand and act upon.".

(** [x || dflt] for an optional boolean. *)
Definition orFalse (x : option bool) : bool :=
  match x with Some b => b | None => false end.

(** [new AIAgent(config)] *)
Definition newAIAgent (config : Agent) : AIAgent :=
  {| id := c_id config;
     role := c_role config;
     goal := c_goal config;
     backstory := c_backstory config;
     verbose := orFalse (c_verbose config);
     allowDelegation := orFalse (c_allowDelegation config);
     systemPrompt :=
       match c_systemPrompt config with
       | Some p =>
           if JS.truthy p then p
           else generateSystemPrompt (c_role config) (c_goal config) (c_backstory config)
       | None => generateSystemPrompt (c_role config) (c_goal config) (c_backstory config)
       end |}.

(** The canned texts of [generateRoleSpecificResponse]. *)
Definition productManagerResponse : string :=
  "# Product Requirements Analysis

## Project Overview
Based on the requirements provided, I've conducted a comprehensive analysis of the project scope and deliverables.

## Key Features Identified
1. **Core Functionality**: Primary features that deliver immediate business value
2. **User Experience**: Interface design and user interaction patterns
3. **Technical Requirements**: Performance, scalability, and security needs
4. **Integration Points**: External APIs and third-party services

## User Stories
- As a user, I want to easily navigate the application
- As an admin, I need comprehensive control over the system
- As a developer, I require clear documentation and APIs

## Acceptance Criteria
✅ All core features must be fully functional
✅ Responsive design for mobile and desktop
✅ Performance optimization for fast loading
✅ Security implementation following best practices

## Timeline Estimate
Based on complexity analysis: **2-3 weeks** for MVP delivery

## Risk Assessment
- **Low Risk**: Standard features with proven technologies
- **Medium Risk**: Complex integrations requiring thorough testing
- **High Risk**: Performance requirements under heavy load

*Analysis completed by Product Manager Agent*".

Definition solutionArchitectResponse : string :=
  "# System Architecture Design

## Technology Stack Recommendation
- **Frontend**: React with TypeScript for type safety
- **Backend**: Node.js with Express for scalability
- **Database**: PostgreSQL for relational data integrity
- **Caching**: Redis for performance optimization
- **Authentication**: JWT with refresh token strategy

## System Components
```
┌─────────────────┐    ┌─────────────────┐    ┌─────────────────┐
│   Frontend      │    │   API Gateway   │    │   Microservices │
│   React/TS      │◄──►│   Express.js    │◄──►│   Business Logic│
└─────────────────┘    └─────────────────┘    └─────────────────┘
         │                       │                       │
         ▼                       ▼                       ▼
┌─────────────────┐    ┌─────────────────┐    ┌─────────────────┐
│   Static Assets │    │   Load Balancer │    │   Database      │
│   CDN/S3        │    │   Nginx/HAProxy │    │   PostgreSQL    │
└─────────────────┘    └─────────────────┘    └─────────────────┘
```

## Database Schema
- **Users**: Authentication and profile management
- **Products**: Core business entities
- **Orders**: Transaction processing
- **Audit**: System logging and monitoring

## Security Considerations
- Input validation and sanitization
- Rate limiting and DDoS protection
- Encrypted data transmission (HTTPS)
- Secure password hashing (bcrypt)

## Performance Strategy
- Server-side caching with Redis
- Database query optimization
- CDN for static assets
- Lazy loading for large datasets

*Architecture designed by Solution Architect Agent*".

Definition seniorDeveloperResponse : string :=
  "# Implementation Details

## Project Structure
```
src/
├── components/
│   ├── common/
│   ├── forms/
│   └── layout/
├── pages/
├── services/
├── hooks/
├── utils/
└── types/
```

## Key Implementation Files

### App Component (app/layout.tsx)
```typescript
import React from 'react';
import { BrowserRouter as Router, Routes, Route } from 'react-router-dom';
import { QueryClient, QueryClientProvider } from '@tanstack/react-query';
import { AuthProvider } from './contexts/AuthContext';
import Header from './components/Header';
import HomePage from './pages/HomePage';
import './App.css';

const queryClient = new QueryClient();

function App() {
  return (
    <QueryClientProvider client={queryClient}>
      <AuthProvider>
        <Router>
          <div className=" ++ dquote ++ "App" ++ dquote ++ ">
            <Header />
            <main>
              <Routes>
                <Route path=" ++ dquote ++ "/" ++ dquote ++ " element={<HomePage />} />
                {/* Additional routes */}
              </Routes>
            </main>
          </div>
        </Router>
      </AuthProvider>
    </QueryClientProvider>
  );
}

export default App;
```

### API Service Layer
```typescript
import axios from 'axios';

const api = axios.create({
  baseURL: process.env.REACT_APP_API_URL || 'http://localhost:8000',
  timeout: 10000,
});

api.interceptors.request.use((config) => {
  const token = localStorage.getItem('authToken');
  if (token) {
    config.headers.Authorization = `Bearer ${token}`;
  }
  return config;
});

export default api;
```

## Production Optimizations
- Code splitting with React.lazy()
- Bundle optimization with Webpack
- Tree shaking for unused code elimination
- Gzip compression for assets

## Testing Strategy
- Unit tests with Jest and React Testing Library
- Integration tests for API endpoints
- E2E tests with Cypress
- Performance testing with Lighthouse

*Implementation by Senior Developer Agent*".

Definition qaEngineerResponse : string :=
  "# Quality Assurance Report

## Test Coverage Analysis
- **Unit Tests**: 95% coverage achieved
- **Integration Tests**: All API endpoints validated
- **E2E Tests**: Critical user journeys automated
- **Performance Tests**: Load testing completed

## Test Results Summary
✅ **Functional Testing**: All features working as expected
✅ **Security Testing**: No vulnerabilities detected
✅ **Performance Testing**: Meets all performance criteria
✅ **Compatibility Testing**: Cross-browser compatibility confirmed

## Automated Test Suite
```javascript
// Example unit test
describe('Authentication Service', () => {
  test('should authenticate user with valid credentials', async () => {
    const mockUser = { email: 'test@example.com', password: 'password123' };
    const result = await authService.login(mockUser);
    expect(result.success).toBe(true);
    expect(result.token).toBeDefined();
  });
});

// Example integration test  
describe('API Endpoints', () => {
  test('GET /api/users should return user list', async () => {
    const response = await request(app).get('/api/users');
    expect(response.status).toBe(200);
    expect(Array.isArray(response.body)).toBe(true);
  });
});
```

## Performance Metrics
- **Page Load Time**: < 2 seconds
- **First Contentful Paint**: < 1.5 seconds
- **Time to Interactive**: < 3 seconds
- **Lighthouse Score**: 95+

## Security Validation
- Input sanitization verified
- SQL injection prevention tested
- XSS protection implemented
- CSRF tokens validated

## Browser Compatibility
✅ Chrome 90+
✅ Firefox 88+
✅ Safari 14+
✅ Edge 90+

## Deployment Readiness
All tests passing ✅ Ready for production deployment

*Quality assurance completed by QA Engineer Agent*".

(** The own properties of [responses]. *)
Definition responses : list (string * string) :=
  [ ("Product Manager", productManagerResponse);
    ("Solution Architect", solutionArchitectResponse);
    ("Senior Developer", seniorDeveloperResponse);
    ("QA Engineer", qaEngineerResponse) ].

(** [responses[this.role] || `Analysis completed for ${this.role}`];
    neither [prompt] nor [context] is read. *)
Definition generateRoleSpecificResponse (this : AIAgent) (prompt : string)
    (context : option string) : JS.value :=
  JS.getPropOr responses (role this) ("Analysis completed for " ++ role this).

(** What the surroundings of an agent supply: the process environment,
    the model endpoint and the random number generator.  The endpoint
    and the generator may answer differently at every call; calls are
    numbered. *)
Inductive Reply : Type :=
| Content (content : option string)   (* [choices[0].message.content], if any *)
| ApiFailure.                         (* the call rejects *)

Record Message : Type := mkMessage {
  m_role : string;
  m_content : string
}.

Record World : Type := mkWorld {
  CEREBRAS_API_KEY : option string;
  completions : nat -> list Message -> N * Reply;  (* time taken, reply *)
  random : nat -> N                                   (* milliseconds in 0..4999 *)
}.

(** The settled promise of [execute]: the time it took and the value it
    resolved to, or the message of the error it rejected with. *)
Record Outcome : Type := mkOutcome {
  latency : N;
  result : JS.value + string
}.

(** [execute] as in server/services/agents.ts: wait between two and
    seven seconds, then answer with the canned text. *)
Definition execute (w : World) (call : nat) (this : AIAgent) (prompt : string)
    (context : option string) : Outcome :=
  {| latency := (random w call mod 5000 + 2000)%N;
     result := inl (generateRoleSpecificResponse this prompt context) |}.

(** [!process.env.CEREBRAS_API_KEY] *)
Definition noCredential (w : World) : bool :=
  match CEREBRAS_API_KEY w with
  | None => true
  | Some k => negb (JS.truthy k)
  end.

Definition optTruthy (x : option string) : bool :=
  match x with Some s => JS.truthy s | None => false end.

(** [execute] of the variant of agents.ts that calls the model when a
    credential is configured. *)
Definition executeWithModel (w : World) (call : nat) (this : AIAgent) (prompt : string)
    (context : option string) : Outcome :=
  if noCredential w then
    {| latency := 0%N;
       result := inl (generateRoleSpecificResponse this prompt context) |}
  else
    let systemPrompt := generateSystemPrompt (role this) (goal this) (backstory this) in
    let user :=
      match context with
      | Some c =>
          if JS.truthy c
          then "Context from previous agents:" ++ nl ++ c ++ nl ++ nl
               ++ "New requirements:" ++ nl ++ prompt
          else prompt
      | None => prompt
      end in
    match completions w call [mkMessage "system" systemPrompt; mkMessage "user" user] with
    | (t, Content c) =>
        {| latency := t;
           result := inl (JS.VStr (if optTruthy c then default "" c
                                   else "No response generated")) |}
    | (t, ApiFailure) =>
        {| latency := t;
           result := inr ("Cerebras AI error for agent " ++ role this) |}
    end.

Definition createAgents : list AIAgent :=
  [ newAIAgent
      (mkAgent "product_manager" "Product Manager"
         "Analyze requirements and create comprehensive project specifications"
         "Experienced in translating business requirements into technical specifications with expertise in project planning and stakeholder management."
         None None None);
    newAIAgent
      (mkAgent "solution_architect" "Solution Architect"
         "Design scalable system architecture and technical blueprints"
         "Seasoned architect with deep expertise in modern software architecture patterns, cloud technologies, and scalable system design."
         None None None);
    newAIAgent
      (mkAgent "senior_developer" "Senior Developer"
         "Implement clean, production-ready code following best practices"
         "Expert developer with extensive experience in multiple programming languages and frameworks, focused on code quality and maintainability."
         None None None);
    newAIAgent
      (mkAgent "qa_engineer" "QA Engineer"
         "Create comprehensive test suites and ensure code quality"
         "Expert in testing methodologies, automation frameworks, and quality assurance processes with focus on catching issues early."
         None None None) ].

End Agents.

(** ** server/services/crew.ts *)

Module Crew.

(** [GenerationRequest] of shared/types.ts; times are milliseconds. *)
Record GenerationRequest : Type := mkRequest {
  jobId : string;
  requirements : string;
  framework : string;
  language : string;
  timestamp : N
}.

(** The status literals shared by [Task] and [JobStatus]. *)
Inductive Status : Type := pending | in_progress | completed | failed.

Definition Status_eqb (a b : Status) : bool :=
  match a, b with
  | pending, pending | in_progress, in_progress
  | completed, completed | failed, failed => true
  | _, _ => false
  end.

Record Task : Type := mkTask {
  task_id : string;
  task_description : string;
  task_expectedOutput : string;
  task_agent : Agents.AIAgent;
  task_status : Status;
  task_progress : nat;
  task_output : option JS.value;
  task_startTime : option N;
  task_endTime : option N
}.

Record JobStatus : Type := mkJobStatus {
  job_jobId : string;
  job_status : Status;
  job_progress : nat;
  job_currentAgent : option string;
  job_startTime : N;
  job_tasks : list Task
}.

Record CodeFile : Type := mkCodeFile {
  path : string;
  file_language : string;
  file_content : string
}.

Record AgentContent : Type := mkAgentContent {
  ac_role : string;
  ac_content : JS.value
}.

Record CodeGenerationResult : Type := mkResult {
  res_jobId : string;
  res_files : list CodeFile;
  res_agents : list AgentContent;
  res_status : Status;
  res_timestamp : N
}.

(** The [type] and [data] of a [WebSocketEvent]. *)
Inductive EventData : Type :=
| generation_started (jobId : string) (request : GenerationRequest)
| agent_started (jobId agent task : string)
| agent_completed (jobId agent : string) (output : JS.value) (duration : N)
| agent_progress (jobId agent : string) (progress : nat)
| generation_completed (result : CodeGenerationResult)
| generation_failed (jobId error : string).

Record WebSocketEvent : Type := mkEvent {
  data : EventData;
  ev_timestamp : N
}.

(** What an observer of the service can see, in order: the events
    broadcast, and (as instrumentation) every write to a job object
    with the object's new contents and every call of an agent with its
    arguments and outcome. *)
Inductive Obs : Type :=
| Sent (e : WebSocketEvent)
| Mutated (ref : nat) (job : JobStatus)
| Invoked (ref : nat) (agent : Agents.AIAgent) (prompt context : string)
    (o : Agents.Outcome).

(** The service: job objects live in [heap]; [activeJobs] maps a job id
    to a reference, as the [Map] of the class holds the object itself;
    [timers] are the pending [setTimeout] callbacks, each deleting one
    id at its due time. *)
Record Service : Type := mkService {
  heap : gmap nat JobStatus;
  nextRef : nat;
  activeJobs : gmap string nat;
  timers : list (N * string);
  now : N;
  calls : nat;
  trace : list Obs
}.

(** [new CrewService()] at time [t]. *)
Definition newService (t : N) : Service :=
  {| heap := ∅; nextRef := 0; activeJobs := ∅; timers := []; now := t;
     calls := 0; trace := [] |}.

Definition emit (o : Obs) (s : Service) : Service :=
  {| heap := heap s; nextRef := nextRef s; activeJobs := activeJobs s;
     timers := timers s; now := now s; calls := calls s;
     trace := trace s ++ [o] |}.

(** A write to the object at [r]. *)
Definition write (r : nat) (job : JobStatus) (s : Service) : Service :=
  {| heap := <[r := job]> (heap s); nextRef := nextRef s;
     activeJobs := activeJobs s; timers := timers s; now := now s;
     calls := calls s; trace := trace s ++ [Mutated r job] |}.

Definition broadcastToClients (d : EventData) (s : Service) : Service :=
  emit (Sent {| data := d; ev_timestamp := now s |}) s.

(** [this.activeJobs.set(jobId, r)] *)
Definition setActive (jobId : string) (r : nat) (s : Service) : Service :=
  {| heap := heap s; nextRef := nextRef s;
     activeJobs := <[jobId := r]> (activeJobs s); timers := timers s;
     now := now s; calls := calls s; trace := trace s |}.

(** [setTimeout(() => this.activeJobs.delete(jobId), delay)] *)
Definition setTimeout (jobId : string) (delay : N) (s : Service) : Service :=
  {| heap := heap s; nextRef := nextRef s; activeJobs := activeJobs s;
     timers := timers s ++ [((now s + delay)%N, jobId)]; now := now s;
     calls := calls s; trace := trace s |}.

Definition due (t : N) (tm : N * string) : bool := (fst tm <=? t)%N.

(** The callbacks due at [t] run, each deleting its id; the others
    stay pending. *)
Definition expire (t : N) (tms : list (N * string)) (m : gmap string nat)
  : gmap string nat :=
  fold_left (fun m tm => delete (snd tm) m) (List.filter (due t) tms) m.

Definition remaining (t : N) (tms : list (N * string)) : list (N * string) :=
  List.filter (fun tm => negb (due t tm)) tms.

(** Time passes: the clock moves on by [dt] and the callbacks that have
    become due run. *)
Definition sleep (dt : N) (s : Service) : Service :=
  let t := (now s + dt)%N in
  {| heap := heap s; nextRef := nextRef s;
     activeJobs := expire t (timers s) (activeJobs s);
     timers := remaining t (timers s);
     now := t; calls := calls s; trace := trace s |}.

Definition countCall (s : Service) : Service :=
  {| heap := heap s; nextRef := nextRef s; activeJobs := activeJobs s;
     timers := timers s; now := now s; calls := S (calls s); trace := trace s |}.

(** A new object on the heap. *)
Definition alloc (job : JobStatus) (s : Service) : nat * Service :=
  (nextRef s,
   {| heap := <[nextRef s := job]> (heap s); nextRef := S (nextRef s);
      activeJobs := activeJobs s; timers := timers s; now := now s;
      calls := calls s; trace := trace s ++ [Mutated (nextRef s) job] |}).

(** [this.activeJobs.get(jobId)]: the object and its reference. *)
Definition getActive (jobId : string) (s : Service) : option (nat * JobStatus) :=
  match activeJobs s !! jobId with
  | Some r => match heap s !! r with Some job => Some (r, job) | None => None end
  | None => None
  end.

Definition getJobStatus (jobId : string) (s : Service) : option JobStatus :=
  snd <$> getActive jobId s.

(** Field assignments. *)
Definition setTaskStatus (v : Status) (t : Task) : Task :=
  mkTask (task_id t) (task_description t) (task_expectedOutput t) (task_agent t)
    v (task_progress t) (task_output t) (task_startTime t) (task_endTime t).
Definition setTaskOutput (v : JS.value) (t : Task) : Task :=
  mkTask (task_id t) (task_description t) (task_expectedOutput t) (task_agent t)
    (task_status t) (task_progress t) (Some v) (task_startTime t) (task_endTime t).
Definition setTaskStartTime (v : N) (t : Task) : Task :=
  mkTask (task_id t) (task_description t) (task_expectedOutput t) (task_agent t)
    (task_status t) (task_progress t) (task_output t) (Some v) (task_endTime t).
Definition setTaskEndTime (v : N) (t : Task) : Task :=
  mkTask (task_id t) (task_description t) (task_expectedOutput t) (task_agent t)
    (task_status t) (task_progress t) (task_output t) (task_startTime t) (Some v).

Definition setTask (i : nat) (f : Task -> Task) (j : JobStatus) : JobStatus :=
  mkJobStatus (job_jobId j) (job_status j) (job_progress j) (job_currentAgent j)
    (job_startTime j) (alter f i (job_tasks j)).
Definition setJobStatus (v : Status) (j : JobStatus) : JobStatus :=
  mkJobStatus (job_jobId j) v (job_progress j) (job_currentAgent j)
    (job_startTime j) (job_tasks j).
Definition setJobProgress (v : nat) (j : JobStatus) : JobStatus :=
  mkJobStatus (job_jobId j) (job_status j) v (job_currentAgent j)
    (job_startTime j) (job_tasks j).
Definition setCurrentAgent (v : string) (j : JobStatus) : JobStatus :=
  mkJobStatus (job_jobId j) (job_status j) (job_progress j) (Some v)
    (job_startTime j) (job_tasks j).

(** The local variable [jobStatus] together with the service: an
    assignment to a field changes the object and is seen through the
    heap. *)
Definition assign (r : nat) (f : JobStatus -> JobStatus) (st : JobStatus * Service)
  : JobStatus * Service :=
  let job := f (fst st) in (job, write r job (snd st)).

Definition onService (f : Service -> Service) (st : JobStatus * Service)
  : JobStatus * Service :=
  (fst st, f (snd st)).

(** The contents of the files [generateCodeFiles] returns. *)
Definition appTsxContent : string :=
  "import React from 'react';
import { BrowserRouter as Router, Routes, Route } from 'react-router-dom';
import { QueryClient, QueryClientProvider } from '@tanstack/react-query';
import Header from './components/Header';
import HomePage from './pages/HomePage';
import './App.css';

const queryClient = new QueryClient();

function App() {
  return (
    <QueryClientProvider client={queryClient}>
      <Router>
        <div className=" ++ dquote ++ "App" ++ dquote ++ ">
          <Header />
          <main>
            <Routes>
              <Route path=" ++ dquote ++ "/" ++ dquote ++ " element={<HomePage />} />
            </Routes>
          </main>
        </div>
      </Router>
    </QueryClientProvider>
  );
}

export default App;".

Definition headerTsxContent : string :=
  "import React from 'react';
import { Link } from 'react-router-dom';

const Header: React.FC = () => {
  return (
    <header className=" ++ dquote ++ "bg-blue-600 text-white p-4" ++ dquote ++ ">
      <div className=" ++ dquote ++ "container mx-auto flex justify-between items-center" ++ dquote ++ ">
        <Link to=" ++ dquote ++ "/" ++ dquote ++ " className=" ++ dquote ++ "text-xl font-bold" ++ dquote ++ ">
          My App
        </Link>
        <nav>
          <Link to=" ++ dquote ++ "/" ++ dquote ++ " className=" ++ dquote ++ "mx-2 hover:underline" ++ dquote ++ ">
            Home
          </Link>
        </nav>
      </div>
    </header>
  );
};

export default Header;".

Definition packageJsonContent : string :=
  "{
  " ++ dquote ++ "name" ++ dquote ++ ": " ++ dquote ++ "generated-app" ++ dquote ++ ",
  " ++ dquote ++ "version" ++ dquote ++ ": " ++ dquote ++ "1.0.0" ++ dquote ++ ",
  " ++ dquote ++ "private" ++ dquote ++ ": true,
  " ++ dquote ++ "dependencies" ++ dquote ++ ": {
    " ++ dquote ++ "react" ++ dquote ++ ": " ++ dquote ++ "^18.2.0" ++ dquote ++ ",
    " ++ dquote ++ "react-dom" ++ dquote ++ ": " ++ dquote ++ "^18.2.0" ++ dquote ++ ",
    " ++ dquote ++ "react-router-dom" ++ dquote ++ ": " ++ dquote ++ "^6.8.0" ++ dquote ++ ",
    " ++ dquote ++ "@tanstack/react-query" ++ dquote ++ ": " ++ dquote ++ "^4.24.0" ++ dquote ++ ",
    " ++ dquote ++ "typescript" ++ dquote ++ ": " ++ dquote ++ "^4.9.5" ++ dquote ++ "
  },
  " ++ dquote ++ "scripts" ++ dquote ++ ": {
    " ++ dquote ++ "start" ++ dquote ++ ": " ++ dquote ++ "react-scripts start" ++ dquote ++ ",
    " ++ dquote ++ "build" ++ dquote ++ ": " ++ dquote ++ "react-scripts build" ++ dquote ++ ",
    " ++ dquote ++ "test" ++ dquote ++ ": " ++ dquote ++ "react-scripts test" ++ dquote ++ ",
    " ++ dquote ++ "eject" ++ dquote ++ ": " ++ dquote ++ "react-scripts eject" ++ dquote ++ "
  }
}".

(** [generateCodeFiles]: the same three files for every job. *)
Definition generateCodeFiles (jobStatus : JobStatus) : list CodeFile :=
  [ mkCodeFile "src/App.tsx" "typescript" appTsxContent;
    mkCodeFile "src/components/Header.tsx" "typescript" headerTsxContent;
    mkCodeFile "package.json" "json" packageJsonContent ].

Definition natToString (n : nat) : string :=
  DecimalString.NilZero.string_of_uint (Nat.to_uint n).

Definition getTaskDescription (role : string) (request : GenerationRequest) : string :=
  let descriptions :=
    [ ("Product Manager",
       "Analyze the following project requirements and create comprehensive specifications: "
       ++ dquote ++ requirements request ++ dquote ++ ". Framework: " ++ framework request
       ++ ", Language: " ++ language request);
      ("Solution Architect",
       "Based on the requirements analysis, design a scalable system architecture for a "
       ++ framework request ++ " application using " ++ language request);
      ("Senior Developer",
       "Implement the system architecture as production-ready code using "
       ++ framework request ++ " and " ++ language request);
      ("QA Engineer",
       "Create comprehensive test suites and quality assurance documentation for the implemented solution") ] in
  JS.toString (JS.getPropOr descriptions role ("Complete task for " ++ role)).

Definition getExpectedOutput (role : string) : string :=
  let outputs :=
    [ ("Product Manager",
       "Detailed project specification with requirements, user stories, and acceptance criteria");
      ("Solution Architect",
       "System architecture diagram, technology stack recommendations, and technical blueprint");
      ("Senior Developer",
       "Complete, production-ready code implementation with proper structure and documentation");
      ("QA Engineer",
       "Comprehensive test suite, quality metrics, and deployment readiness assessment") ] in
  JS.toString (JS.getPropOr outputs role ("Output for " ++ role)).

(** The text appended to [context] after a stage. *)
Definition contextEntry (role : string) (output : JS.value) : string :=
  nl ++ nl ++ role ++ " Output:" ++ nl ++ JS.toString output.

Section Service.

(** [agent.execute(prompt, context)]: the [n]-th call made by the
    service may answer differently from any other. *)
Variable execute : nat -> Agents.AIAgent -> string -> option string -> Agents.Outcome.

(** [this.agents], set by the constructor. *)
Definition agents : list Agents.AIAgent := Agents.createAgents.

Definition createTasks (request : GenerationRequest) : list Task :=
  imap (fun index agent =>
          {| task_id := jobId request ++ "_task_" ++ natToString index;
             task_description := getTaskDescription (Agents.role agent) request;
             task_expectedOutput := getExpectedOutput (Agents.role agent);
             task_agent := agent;
             task_status := pending;
             task_progress := 0;
             task_output := None;
             task_startTime := None;
             task_endTime := None |}) agents.

(** The simulated progress updates after a stage: six events, each
    after a pause of 100 ms. *)
Fixpoint simulateProgress (jobId agent : string) (steps : list nat) (s : Service)
  : Service :=
  match steps with
  | [] => s
  | p :: rest =>
      simulateProgress jobId agent rest
        (broadcastToClients (agent_progress jobId agent p) (sleep 100%N s))
  end.

Definition progressSteps : list nat := [0; 20; 40; 60; 80; 100].

(** One turn of the [for] loop of [executeTasks] at index [i], for an
    agent that was found, in four parts: up to the call of the agent,
    the awaited call, and what follows its success or its failure. *)
Definition startStage (request : GenerationRequest) (r i : nat) (task : Task)
    (agent : Agents.AIAgent) (st : JobStatus * Service) : JobStatus * Service :=
  let st := assign r (setTask i (setTaskStatus in_progress)) st in
  let st := assign r (setTask i (setTaskStartTime (now (snd st)))) st in
  let st := assign r (setCurrentAgent (Agents.role agent)) st in
  (* for the four tasks of a job the quotient is exact *)
  let st := assign r (setJobProgress (i * 100 / List.length (job_tasks (fst st)))) st in
  onService (broadcastToClients
               (agent_started (jobId request) (Agents.role agent)
                  (task_description task))) st.

(** The call settles with [o] after [latency o]. *)
Definition awaitExecute (r : nat) (task : Task) (agent : Agents.AIAgent)
    (context : string) (o : Agents.Outcome) (st : JobStatus * Service)
  : JobStatus * Service :=
  let st := onService (emit (Invoked r agent (task_description task) context o)) st in
  let st := onService countCall st in
  onService (sleep (Agents.latency o)) st.

Definition completeStage (request : GenerationRequest) (r i : nat)
    (agent : Agents.AIAgent) (output : JS.value) (st : JobStatus * Service)
  : JobStatus * Service :=
  let st := assign r (setTask i (setTaskOutput output)) st in
  let st := assign r (setTask i (setTaskStatus completed)) st in
  let endTime := now (snd st) in
  let st := assign r (setTask i (setTaskEndTime endTime)) st in
  let startTime :=
    default 0%N (job_tasks (fst st) !! i ≫= task_startTime) in
  let st := onService (broadcastToClients
                         (agent_completed (jobId request) (Agents.role agent)
                            output (endTime - startTime)%N)) st in
  onService (simulateProgress (jobId request) (Agents.role agent) progressSteps) st.

Definition failStage (r i : nat) (st : JobStatus * Service) : JobStatus * Service :=
  let st := assign r (setTask i (setTaskStatus failed)) st in
  assign r (setTask i (setTaskEndTime (now (snd st)))) st.

(** [inl] carries the new context, [inr] the error thrown. *)
Definition runStage (request : GenerationRequest) (r i : nat) (task : Task)
    (agent : Agents.AIAgent) (context : string) (st : JobStatus * Service)
  : (string + string) * (JobStatus * Service) :=
  let st := startStage request r i task agent st in
  let o := execute (calls (snd st)) agent (task_description task) (Some context) in
  let st := awaitExecute r task agent context o st in
  match Agents.result o with
  | inl output =>
      (inl (context ++ contextEntry (Agents.role agent) output),
       completeStage request r i agent output st)
  | inr error => (inr error, failStage r i st)
  end.

(** The [for] loop of [executeTasks] over the indices still to visit;
    the result is the error thrown, if any. *)
Fixpoint executeTasksFrom (request : GenerationRequest) (r : nat) (indices : list nat)
    (context : string) (st : JobStatus * Service)
  : option string * (JobStatus * Service) :=
  match indices with
  | [] => (None, st)
  | i :: rest =>
      match job_tasks (fst st) !! i with
      | None => (None, st)
      | Some task =>
          match List.find (fun a => String.eqb (Agents.id a)
                                      (Agents.id (task_agent task))) agents with
          | None => executeTasksFrom request r rest context st
          | Some agent =>
              match runStage request r i task agent context st with
              | (inl context, st) => executeTasksFrom request r rest context st
              | (inr error, st) => (Some error, st)
              end
          end
      end
  end.

Definition executeTasks (request : GenerationRequest) (r : nat)
    (st : JobStatus * Service) : option string * (JobStatus * Service) :=
  executeTasksFrom request r (seq 0 (List.length (job_tasks (fst st)))) "" st.

(** [task.output || ''] *)
Definition outputOrEmpty (o : option JS.value) : JS.value :=
  match o with
  | Some (JS.VStr s) => JS.VStr s
  | Some v => v
  | None => JS.VStr ""
  end.

Definition completeGeneration (jobId : string) (s : Service) : Service :=
  match getActive jobId s with
  | None => s
  | Some (r, job) =>
      let st := assign r (setJobStatus completed) (job, s) in
      let st := assign r (setJobProgress 100) st in
      let job := fst st in
      let s := snd st in
      let result :=
        {| res_jobId := jobId;
           res_files := generateCodeFiles job;
           res_agents :=
             map (fun task => mkAgentContent (Agents.role (task_agent task))
                                (outputOrEmpty (task_output task)))
               (job_tasks job);
           res_status := completed;
           res_timestamp := now s |} in
      let s := broadcastToClients (generation_completed result) s in
      (* Keep job in memory for a while before cleanup: 5 minutes *)
      setTimeout jobId 300000%N s
  end.

(** [error] is the message of the error caught. *)
Definition failGeneration (jobId : string) (error : string) (s : Service) : Service :=
  match getActive jobId s with
  | None => s
  | Some (r, job) =>
      let st := assign r (setJobStatus failed) (job, s) in
      broadcastToClients
        (generation_failed jobId (if JS.truthy error then error else "Generation failed"))
        (snd st)
  end.

(** The new job object of [startGeneration], made at time [t]. *)
Definition newJobStatus (request : GenerationRequest) (t : N) : JobStatus :=
  {| job_jobId := jobId request;
     job_status := in_progress;
     job_progress := 0;
     job_currentAgent := None;
     job_startTime := t;
     job_tasks := createTasks request |}.

(** [startGeneration] up to the [try]: the job is registered and
    announced. *)
Definition registerJob (request : GenerationRequest) (s : Service) : nat * Service :=
  let (r, s) := alloc (newJobStatus request (now s)) s in
  let s := setActive (jobId request) r s in
  (r, broadcastToClients (generation_started (jobId request) request) s).

Definition startGeneration (request : GenerationRequest) (s : Service) : Service :=
  let jobStatus := newJobStatus request (now s) in
  let (r, s) := registerJob request s in
  match executeTasks request r (jobStatus, s) with
  | (None, (_, s)) => completeGeneration (jobId request) s
  | (Some error, (_, s)) => failGeneration (jobId request) error s
  end.

End Service.

(** *** Reading a job object and a trace *)

Definition statuses (j : JobStatus) : list Status := map task_status (job_tasks j).

Definition inProgressCount (j : JobStatus) : nat :=
  List.length (List.filter (fun t => Status_eqb (task_status t) in_progress) (job_tasks j)).

(** The shape of strictly sequential execution: finished stages, then at
    most one stage that is running or has failed, then stages not yet
    started. *)
Definition sequential (l : list Status) : Prop :=
  exists a mid b,
    l = (replicate a completed ++ mid ++ replicate b pending)%list
    /\ (mid = [] \/ mid = [in_progress] \/ mid = [failed]).

(** From stage [i] on nothing has been started. *)
Definition pendingFrom (i : nat) (l : list Status) : Prop :=
  forall k, i <= k -> k < List.length l -> l !! k = Some pending.

Definition snapshotAt (r : nat) (o : Obs) : option JobStatus :=
  match o with
  | Mutated r' j => if (r' =? r)%nat then Some j else None
  | _ => None
  end.

(** The successive contents of the object at [r]. *)
Definition snapshots (r : nat) (tr : list Obs) : list JobStatus := omap (snapshotAt r) tr.

(** The events that belong to a stage. *)
Inductive StageEvent : Type :=
| Started (jobId agent : string)
| Completed (jobId agent : string) (output : JS.value)
| Progress (jobId agent : string).

Definition stageEvent (o : Obs) : option StageEvent :=
  match o with
  | Sent e =>
      match data e with
      | agent_started jobId agent _ => Some (Started jobId agent)
      | agent_completed jobId agent output _ => Some (Completed jobId agent output)
      | agent_progress jobId agent _ => Some (Progress jobId agent)
      | _ => None
      end
  | _ => None
  end.

Definition stageEvents (tr : list Obs) : list StageEvent := omap stageEvent tr.

Definition startedRole (e : StageEvent) : option string :=
  match e with Started _ agent => Some agent | _ => None end.

(** The roles of the [agent_started] events, in order of emission. *)
Definition startedRoles (tr : list Obs) : list string :=
  omap startedRole (stageEvents tr).

(** The events of a stage that succeeds with [output]. *)
Definition stageBlock (jobId : string) (p : string * JS.value) : list StageEvent :=
  Started jobId (fst p) :: Completed jobId (fst p) (snd p)
  :: replicate 6 (Progress jobId (fst p)).

Record Invocation : Type := mkInvocation {
  inv_agent : Agents.AIAgent;
  inv_prompt : string;
  inv_context : string;
  inv_outcome : Agents.Outcome
}.

Definition invocationAt (r : nat) (o : Obs) : option Invocation :=
  match o with
  | Invoked r' a p c out => if (r' =? r)%nat then Some (mkInvocation a p c out) else None
  | _ => None
  end.

(** The calls of [agent.execute] made for the job at [r]. *)
Definition invocations (r : nat) (tr : list Obs) : list Invocation :=
  omap (invocationAt r) tr.

(** What a call that succeeded adds to the context. *)
Definition entryOf (inv : Invocation) : string :=
  match Agents.result (inv_outcome inv) with
  | inl output => contextEntry (Agents.role (inv_agent inv)) output
  | inr _ => ""
  end.

(** The context accumulated by a sequence of calls. *)
Definition contextOf (invs : list Invocation) : string :=
  fold_right (fun inv acc => entryOf inv ++ acc) "" invs.


Definition outputOf (inv : Invocation) : option JS.value :=
  match Agents.result (inv_outcome inv) with
  | inl output => Some output
  | inr _ => None
  end.

(** The parts of a task no assignment of the service changes. *)
Definition static (t : Task) : string * string * string * Agents.AIAgent :=
  (task_id t, task_description t, task_expectedOutput t, task_agent t).

Definition statics (j : JobStatus) : list (string * string * string * Agents.AIAgent) :=
  map static (job_tasks j).

Definition outputs (j : JobStatus) : list (option JS.value) :=
  map task_output (job_tasks j).

Definition succeeded (inv : Invocation) : Prop :=
  exists output, Agents.result (inv_outcome inv) = inl output.

(** The fixed role order. *)
Definition roleOrder : list string :=
  ["Product Manager"; "Solution Architect"; "Senior Developer"; "QA Engineer"].

(** No eviction is pending under [jobId]. *)
Definition noTimer (jobId : string) (s : Service) : Prop :=
  Forall (fun tm => snd tm <> jobId) (timers s).

(** The events broadcast, in order. *)
Definition sentOf (o : Obs) : option WebSocketEvent :=
  match o with Sent e => Some e | _ => None end.

Definition sent (tr : list Obs) : list WebSocketEvent := omap sentOf tr.


(** What has been added to the trace between [s] and [s']. *)
Definition since (s s' : Service) : list Obs :=
  drop (List.length (trace s)) (trace s').

(** The stage events that go with a call: the whole block when the call
    succeeds, the start alone when it fails. *)
Definition eventsOf (jobId : string) (inv : Invocation) : list StageEvent :=
  match Agents.result (inv_outcome inv) with
  | inl output => stageBlock jobId (Agents.role (inv_agent inv), output)
  | inr _ => [Started jobId (Agents.role (inv_agent inv))]
  end.

(** *** The invariant of the loop of [executeTasks]

    [new] is what the loop has added to the trace after [c] calls, for
    the job at [r] whose tasks were [ts0] at the start. *)
Record Orderly (jobId : string) (r : nat) (ts0 : list Task) (c : nat)
    (new : list Obs) : Prop := mkOrderly {
  pr_snapshots :
    Forall (fun j => sequential (statuses j) /\ pendingFrom c (statuses j)
                     /\ List.length (statuses j) = List.length ts0)
      (snapshots r new);
  pr_agents : map inv_agent (invocations r new) = take c (map task_agent ts0);
  pr_prompts : map inv_prompt (invocations r new) = take c (map task_description ts0);
  pr_chain :
    forall k inv,
      invocations r new !! k = Some inv ->
      inv_context inv = contextOf (take k (invocations r new));
  pr_events : stageEvents new = flat_map (eventsOf jobId) (invocations r new)
}.

(** The registry entry of the job survives when no eviction is pending
    under its id. *)
Definition Kept (jobId : string) (s0 s : Service) : Prop :=
  noTimer jobId s0 ->
  noTimer jobId s /\ activeJobs s !! jobId = activeJobs s0 !! jobId.

(** [Eff r s s' snaps invs evs]: from [s] to [s'] the trace grows by the
    snapshots [snaps] of the object at [r], the calls [invs] and the
    stage events [evs], in this order within each kind, and no registry
    entry without a pending eviction is lost. *)
Definition Eff (r : nat) (s s' : Service) (snaps : list JobStatus)
    (invs : list Invocation) (evs : list StageEvent) : Prop :=
  exists delta,
    trace s' = (trace s ++ delta)%list
    /\ snapshots r delta = snaps
    /\ invocations r delta = invs
    /\ stageEvents delta = evs
    /\ forall jid, Kept jid s s'.

(** The result announced by [completeGeneration] for the job [done]. *)
Definition resultOf (jid : string) (done : JobStatus) (t : N) : CodeGenerationResult :=
  {| res_jobId := jid;
     res_files := generateCodeFiles done;
     res_agents :=
       map (fun task => mkAgentContent (Agents.role (task_agent task))
                          (outputOrEmpty (task_output task)))
         (job_tasks done);
     res_status := completed;
     res_timestamp := t |}.

(** What an ending adds to the trace: no call, no stage event, and no
    change of a stage status. *)
Definition Quiet (s s' : Service) : Prop :=
  exists delta,
    trace s' = (trace s ++ delta)%list
    /\ stageEvents delta = []
    /\ (forall r, invocations r delta = [])
    /\ (forall r job, heap s !! r = Some job ->
          Forall (fun j => statuses j = statuses job) (snapshots r delta))
    /\ forall r job, heap s !! r = Some job ->
         exists job', heap s' !! r = Some job' /\ statuses job' = statuses job.

(** How a run of four stages ends once all calls have succeeded: the job
    is registered as completed, the result has been announced, and the
    eviction is the one timer pending under the id. *)
Definition EndsCompleted (jobId : string) (r : nat) (ts0 : list Task)
    (new : list Obs) (s' : Service) : Prop :=
  exists job tms,
    getActive jobId s' = Some (r, job)
    /\ job_status job = completed
    /\ statuses job = replicate 4 completed
    /\ outputs job = map outputOf (invocations r new)
    /\ statics job = map static ts0
    /\ last (sent new)
       = Some {| data := generation_completed (resultOf jobId job (now s'));
                 ev_timestamp := now s' |}
    /\ timers s' = (tms ++ [((now s' + 300000)%N, jobId)])%list
    /\ Forall (fun tm => snd tm <> jobId) tms.

(** How it ends once the call of stage [k] has failed with [error]. *)
Definition EndsFailed (jobId : string) (r k : nat) (error : string)
    (new : list Obs) (s' : Service) : Prop :=
  exists job,
    getActive jobId s' = Some (r, job)
    /\ job_status job = failed
    /\ statuses job = (replicate k completed ++ failed :: replicate (3 - k) pending)%list
    /\ last (sent new)
       = Some {| data := generation_failed jobId
                           (if JS.truthy error then error else "Generation failed");
                 ev_timestamp := now s' |}
    /\ noTimer jobId s'.

(** Before turn [i]: the first [i] stages have completed, the others
    have not been touched, and [context] is what the calls so far have
    accumulated. *)
Definition LoopInv (jobId : string) (r : nat) (s0 : Service) (ts0 : list Task)
    (i : nat) (context : string) (st : JobStatus * Service) : Prop :=
  exists new,
    trace (snd st) = (trace s0 ++ new)%list
    /\ Orderly jobId r ts0 i new
    /\ Forall succeeded (invocations r new)
    /\ context = contextOf (invocations r new)
    /\ heap (snd st) !! r = Some (fst st)
    /\ statuses (fst st)
       = (replicate i completed ++ replicate (List.length ts0 - i) pending)%list
    /\ statics (fst st) = map static ts0
    /\ outputs (fst st)
       = (map outputOf (invocations r new) ++ replicate (List.length ts0 - i) None)%list
    /\ job_status (fst st) = in_progress
    /\ Kept jobId s0 (snd st).

(** After the call of stage [k] has failed with [error]. *)
Definition FailPost (jobId : string) (r : nat) (s0 : Service) (ts0 : list Task)
    (k : nat) (error : string) (st : JobStatus * Service) : Prop :=
  exists new invs inv,
    trace (snd st) = (trace s0 ++ new)%list
    /\ Orderly jobId r ts0 (S k) new
    /\ invocations r new = (invs ++ [inv])%list
    /\ List.length invs = k
    /\ Forall succeeded invs
    /\ Agents.result (inv_outcome inv) = inr error
    /\ heap (snd st) !! r = Some (fst st)
    /\ statuses (fst st)
       = (replicate k completed ++ failed :: replicate (List.length ts0 - S k) pending)%list
    /\ statics (fst st) = map static ts0
    /\ job_status (fst st) = in_progress
    /\ Kept jobId s0 (snd st).

End Crew.

(** ** server/routes.ts *)

Module Routes.

(** The fields read from [req.body]; [None] is an absent field. *)
Record Body : Type := mkBody {
  b_requirements : option string;
  b_framework : option string;
  b_language : option string
}.

Inductive Response : Type :=
| BadRequest (error : string)                          (* status 400 *)
| Started (jobId message estimatedTime : string)       (* success: true *)
| NotFound (error : string)                            (* status 404 *)
| Job (jobStatus : Crew.JobStatus).

(** The service singleton and the number of ids drawn so far. *)
Record Server : Type := mkServer {
  crewService : Crew.Service;
  drawn : nat
}.

Definition falsy (x : option string) : bool :=
  match x with Some s => negb (JS.truthy s) | None => true end.

Section Routes.

Variable execute : nat -> Agents.AIAgent -> string -> option string -> Agents.Outcome.

(** [nanoid()]: the [n]-th id drawn. *)
Variable nanoid : nat -> string.

(** [POST /api/generate].  The generation is started without being
    awaited; the server is shown once it has settled. *)
Definition postGenerate (body : Body) (sv : Server) : Response * Server :=
  if falsy (b_requirements body) || falsy (b_framework body) || falsy (b_language body)
  then (BadRequest "Missing required fields: requirements, framework, language", sv)
  else
    let jobId := "job_" ++ nanoid (drawn sv) in
    let request :=
      {| Crew.jobId := jobId;
         Crew.requirements := JS.trim (default "" (b_requirements body));
         Crew.framework := default "" (b_framework body);
         Crew.language := default "" (b_language body);
         Crew.timestamp := Crew.now (crewService sv) |} in
    (Started jobId "Code generation started" "2-3 minutes",
     {| crewService := Crew.startGeneration execute request (crewService sv);
        drawn := S (drawn sv) |}).

(** [GET /api/job/:jobId] *)
Definition getJob (jobId : string) (sv : Server) : Response :=
  match Crew.getJobStatus jobId (crewService sv) with
  | None => NotFound "Job not found"
  | Some jobStatus => Job jobStatus
  end.

End Routes.

End Routes.

(** ** server/src/services/enhanced-code-generation.ts *)

Module Enhanced.

Import Utils.

(** [haystack.includes(needle)] *)
Fixpoint includes (needle haystack : string) : bool :=
  String.prefix needle haystack
  || match haystack with
     | EmptyString => false
     | String _ rest => includes needle rest
     end.

(** [s.split(/\s+/).length]: one more than the number of maximal runs
    of white space. *)
Fixpoint countSpaceRuns (inRun : bool) (s : string) : nat :=
  match s with
  | EmptyString => 0
  | String c r =>
      if JS.isWhiteSpace c
      then (if inRun then countSpaceRuns true r else S (countSpaceRuns true r))
      else countSpaceRuns false r
  end.

Definition wordCount (s : string) : nat := S (countSpaceRuns false s).

(** [estimateGenerationTime] of utils/index.ts, in seconds. *)
Definition estimateGenerationTime (requirements framework language : string) : nat :=
  let estimatedTime := 30 in
  let wc := wordCount requirements in
  let estimatedTime := if (100 <? wc)%nat then estimatedTime + 15 else estimatedTime in
  let estimatedTime := if (300 <? wc)%nat then estimatedTime + 15 else estimatedTime in
  let estimatedTime := if (500 <? wc)%nat then estimatedTime + 20 else estimatedTime in
  let complexFrameworks := ["angular"; "nextjs"; "nuxtjs"; "spring"; "asp.net"] in
  let estimatedTime :=
    if existsb (fun f => includes f (JS.toLowerCase framework)) complexFrameworks
    then estimatedTime + 10 else estimatedTime in
  let complexLanguages := ["cpp"; "java"; "csharp"; "rust"] in
  let estimatedTime :=
    if existsb (fun l => includes l (JS.toLowerCase language)) complexLanguages
    then estimatedTime + 10 else estimatedTime in
  Nat.min estimatedTime 120.

Inductive JobState : Type := running | completed | failed | cancelled.

(** The value stored in [activeJobs]. *)
Record JobInfo : Type := mkJobInfo {
  request : GenerationRequest;
  startTime : N;
  status : JobState;
  endTime : option N;
  duration : option N;
  error : option string
}.

(** The events the service emits. *)
Inductive Emitted : Type :=
| generation_failed (jobId error : string) (timestamp : option N)
| generation_started (jobId : string) (estimatedTime agentCount : nat)
    (request : GenerationRequest)
| agent_completed (jobId taskId agentId role content : string) (timestamp : N)
| generation_completed (jobId : string) (code : gmap string string)
    (agents : list AgentOutput) (duration : N) (timestamp : N).

Record Service : Type := mkService {
  cerebras : bool;                    (* is a client configured *)
  activeJobs : gmap string JobInfo;
  timers : list (N * string);
  now : N;
  emitted : list Emitted
}.

(** [new EnhancedCodeGenerationService()] with the environment's key. *)
Definition newService (CEREBRAS_API_KEY : option string) (t : N) : Service :=
  {| cerebras := match CEREBRAS_API_KEY with Some k => JS.truthy k | None => false end;
     activeJobs := ∅; timers := []; now := t; emitted := [] |}.

Definition emit (e : Emitted) (s : Service) : Service :=
  mkService (cerebras s) (activeJobs s) (timers s) (now s) (emitted s ++ [e]).

Definition setJobs (m : gmap string JobInfo) (s : Service) : Service :=
  mkService (cerebras s) m (timers s) (now s) (emitted s).

(** [setTimeout(() => this.activeJobs.delete(jobId), delay)] *)
Definition setTimeout (jobId : string) (delay : N) (s : Service) : Service :=
  mkService (cerebras s) (activeJobs s) (timers s ++ [((now s + delay)%N, jobId)])
    (now s) (emitted s).

Definition due (t : N) (tm : N * string) : bool := (fst tm <=? t)%N.

(** The callbacks due at [t] run, each deleting its id; the others
    stay pending. *)
Definition expire (t : N) (tms : list (N * string)) (m : gmap string JobInfo)
  : gmap string JobInfo :=
  fold_left (fun m tm => delete (snd tm) m) (List.filter (due t) tms) m.

Definition remaining (t : N) (tms : list (N * string)) : list (N * string) :=
  List.filter (fun tm => negb (due t tm)) tms.

(** Time passes by [dt]; the callbacks that have become due run. *)
Definition sleep (dt : N) (s : Service) : Service :=
  let t := (now s + dt)%N in
  mkService (cerebras s) (expire t (timers s) (activeJobs s))
    (remaining t (timers s)) t (emitted s).

(** No eviction is pending under [jobId]. *)
Definition noTimer (jobId : string) (s : Service) : Prop :=
  Forall (fun tm => snd tm <> jobId) (timers s).

(** The responses of [createErrorResponse] and [createSuccessResponse]. *)
Inductive Data : Type :=
| StatusData (jobId : string) (status : JobState) (startTime : N)
    (endTime duration : option N) (error : option string)
| CancelData (jobId : string) (status : JobState).

Inductive Response : Type :=
| ErrorResponse (error : string) (timestamp : N)
| SuccessResponse (data : Data) (timestamp : N).

(** One entry of [crew.getResults()]. *)
Record TaskResult : Type := mkTaskResult {
  agentRole : string;
  output : option string
}.

(** How the awaited crew run ended. *)
Inductive Kickoff : Type :=
| Returned (success : bool) (error : option string)
| ThrewError (message : string)
| ThrewOther.

(** Everything the service sees of the agents, tasks and crew built by
    [createCodeGenerationAgents], [createCodeGenerationTasks] and
    [createCodeGenerationCrew], whose modules are not part of the
    sources at hand: the calls of the [onTaskOutput] callback in order,
    each after a pause, the time the run takes after the last of them,
    how [kickoff] ends and what [getResults] returns. *)
Record CrewRun : Type := mkCrewRun {
  taskOutputs : list (N * (string * string * string));
                                      (* pause, (taskId, agentRole, output) *)
  elapsed : N;
  kickoff : Kickoff;
  getResults : list TaskResult
}.

Definition setStatus (v : JobState) (j : JobInfo) : JobInfo :=
  mkJobInfo (request j) (startTime j) v (endTime j) (duration j) (error j).
Definition setEndTime (v : N) (j : JobInfo) : JobInfo :=
  mkJobInfo (request j) (startTime j) (status j) (Some v) (duration j) (error j).
Definition setDuration (v : N) (j : JobInfo) : JobInfo :=
  mkJobInfo (request j) (startTime j) (status j) (endTime j) (Some v) (error j).
Definition setError (v : string) (j : JobInfo) : JobInfo :=
  mkJobInfo (request j) (startTime j) (status j) (endTime j) (duration j) (Some v).

Definition sanitizeRequest (request : GenerationRequest) : GenerationRequest :=
  {| jobId := jobId request;
     requirements := sanitizeInput (requirements request);
     framework := sanitizeInput (framework request);
     language := sanitizeInput (language request) |}.

Section Service.

(** The crew built for a configured client (or none) and a request. *)
Variable runCrew : bool -> GenerationRequest -> CrewRun.

(** [startGeneration] up to the point where it awaits [crew.kickoff()]:
    [None] when validation fails, else the sanitized request the crew is
    built from. *)
Definition beginGeneration (request : GenerationRequest) (s : Service)
  : option GenerationRequest * Service :=
  let validationErrors := validateGenerationRequest (partial request) in
  if (0 <? List.length validationErrors)%nat then
    (None,
     emit (generation_failed (jobId request)
             ("Validation failed: " ++ JS.join ", " validationErrors) None) s)
  else
    let sanitizedRequest := sanitizeRequest request in
    let s := setJobs (<[jobId request :=
                         {| request := sanitizedRequest; startTime := now s;
                            status := running; endTime := None; duration := None;
                            error := None |}]> (activeJobs s)) s in
    let estimatedTime :=
      estimateGenerationTime (requirements sanitizedRequest)
        (framework sanitizedRequest) (language sanitizedRequest) in
    let s := emit (generation_started (jobId request) estimatedTime 4 sanitizedRequest) s in
    (Some sanitizedRequest, s).

(** The [onTaskOutput] callback. *)
Definition onTaskOutput (jobId : string) (s : Service)
    (o : N * (string * string * string)) : Service :=
  let '(pause, (taskId, agentRole, out)) := o in
  let s := sleep pause s in
  emit (agent_completed jobId taskId taskId agentRole out (now s)) s.

Definition outputTruthy (r : TaskResult) : bool :=
  match output r with Some o => JS.truthy o | None => false end.

(** The [catch] block. *)
Definition onError (jobId errorMessage : string) (s : Service) : Service :=
  let s :=
    match activeJobs s !! jobId with
    | Some jobInfo =>
        setJobs (<[jobId := setEndTime (now s) (setError errorMessage
                                                  (setStatus failed jobInfo))]>
                   (activeJobs s)) s
    | None => s
    end in
  emit (generation_failed jobId errorMessage (Some (now s))) s.

(** [startGeneration] from the settled [crew.kickoff()] on, without the
    [finally] block. *)
Definition finishGeneration (jobId : string) (sanitizedRequest : GenerationRequest)
    (run : CrewRun) (s : Service) : Service :=
  let s := fold_left (onTaskOutput jobId) (taskOutputs run) s in
  let s := sleep (elapsed run) s in
  match kickoff run with
  | Returned true _ =>
      let agentOutputs :=
        map (fun r => mkOutput (agentRole r) (default "" (output r)))
          (List.filter outputTruthy (getResults run)) in
      let compiledCode := compileCodeFiles agentOutputs sanitizedRequest in
      let jobInfo := activeJobs s !! jobId in
      let s :=
        match jobInfo with
        | Some j =>
            setJobs (<[jobId := setDuration (now s - startTime j)%N
                                  (setEndTime (now s) (setStatus completed j))]>
                       (activeJobs s)) s
        | None => s
        end in
      let d := match jobInfo with Some j => (now s - startTime j)%N | None => 0%N end in
      emit (generation_completed jobId compiledCode agentOutputs d (now s)) s
  | Returned false err =>
      onError jobId (match err with
                     | Some e => if JS.truthy e then e else "Crew execution failed"
                     | None => "Crew execution failed"
                     end) s
  | ThrewError message => onError jobId message s
  | ThrewOther => onError jobId "Unknown error" s
  end.

(** The [finally] block: clean up job after some time, 5 minutes. *)
Definition cleanUpLater (jobId : string) (s : Service) : Service :=
  setTimeout jobId 300000%N s.

Definition startGeneration (request : GenerationRequest) (s : Service) : Service :=
  match beginGeneration request s with
  | (None, s) => cleanUpLater (jobId request) s
  | (Some sanitizedRequest, s) =>
      cleanUpLater (jobId request)
        (finishGeneration (jobId request) sanitizedRequest
           (runCrew (cerebras s) sanitizedRequest) s)
  end.

End Service.

Definition getJobStatus (jobId : string) (s : Service) : Response :=
  match activeJobs s !! jobId with
  | None => ErrorResponse "Job not found" (now s)
  | Some job =>
      SuccessResponse
        (StatusData jobId (status job) (startTime job) (endTime job) (duration job)
           (error job)) (now s)
  end.

Definition cancelJob (jobId : string) (s : Service) : Response * Service :=
  match activeJobs s !! jobId with
  | None => (ErrorResponse "Job not found" (now s), s)
  | Some job =>
      match status job with
      | completed | failed => (ErrorResponse "Job already finished" (now s), s)
      | _ =>
          let s := setJobs (<[jobId := setEndTime (now s) (setStatus cancelled job)]>
                              (activeJobs s)) s in
          let s := emit (generation_failed jobId "Job cancelled by user" (Some (now s))) s in
          (SuccessResponse (CancelData jobId cancelled) (now s), s)
      end
  end.

(** [POST /api/generate] of server/src/index.ts.  The generation is
    started with [setImmediate]; the server is shown once it has
    settled. *)
Inductive PostResponse : Type :=
| BadRequest (error : string)                       (* status 400, success: false *)
| Started (jobId message estimatedTime : string).   (* success: true *)

Record Server : Type := mkServer {
  service : Service;
  drawn : nat
}.

Definition postGenerate (runCrew : bool -> GenerationRequest -> CrewRun)
    (nanoid : nat -> string) (body : Routes.Body) (sv : Server)
  : PostResponse * Server :=
  if Routes.falsy (Routes.b_requirements body) || Routes.falsy (Routes.b_framework body)
     || Routes.falsy (Routes.b_language body)
  then (BadRequest "Missing required fields: requirements, framework, language", sv)
  else
    let jobId := nanoid (drawn sv) in
    (Started jobId "Code generation started" "30-60 seconds",
     {| service :=
          startGeneration runCrew
            {| jobId := jobId;
               requirements := JS.trim (default "" (Routes.b_requirements body));
               framework := JS.trim (default "" (Routes.b_framework body));
               language := JS.trim (default "" (Routes.b_language body)) |}
            (service sv);
        drawn := S (drawn sv) |}).

End Enhanced.

(** ** server/services/code-generation.ts: the agent step *)

Module CodeGen.

Record Agent : Type := mkAgent {
  id : string;
  role : string;
  name : string;
  description : string;
  systemPrompt : string
}.

Record GenerationRequest : Type := mkRequest {
  jobId : string;
  requirements : string;
  framework : string;
  language : string
}.

Record AgentResponse : Type := mkResponse {
  agentId : string;
  r_role : string;
  content : string;
  timestamp : N
}.

(** The system prompts of [initializeAgents] and the texts of
    [generateRealisticResponse] and [generateFallbackResponse]. *)
Definition pmSystemPrompt : string :=
  "You are an expert Product Manager AI. Your role is to:
1. Analyze software requirements thoroughly
2. Break down complex requests into clear, actionable specifications
3. Identify potential challenges and solutions
4. Create structured project plans
5. Define acceptance criteria

Always respond with clear, organized specifications that developers can immediately act upon.".

Definition archSystemPrompt : string :=
  "You are an expert Solution Architect AI. Your role is to:
1. Design scalable and maintainable system architecture
2. Choose appropriate technologies and frameworks
3. Define data models and API specifications
4. Consider security, performance, and scalability
5. Create technical blueprints

Focus on modern best practices and production-ready solutions.".

Definition devSystemPrompt : string :=
  "You are an expert Senior Developer AI. Your role is to:
1. Write clean, production-ready code
2. Follow best practices and coding standards
3. Implement proper error handling and validation
4. Create well-structured, maintainable solutions
5. Include necessary comments and documentation

Always provide complete, working code that can be immediately deployed.".

Definition qaSystemPrompt : string :=
  "You are an expert QA Engineer AI. Your role is to:
1. Write comprehensive test suites (unit, integration, e2e)
2. Identify edge cases and potential bugs
3. Ensure code quality and coverage
4. Create test documentation
5. Verify requirements are fully met

Focus on thorough testing strategies that catch issues early.".

Definition pmResponse (request : GenerationRequest) : string :=
  "# Project Specification: "
  ++ framework request
  ++ " Application

## Requirements Analysis
**Original Request:** "
  ++ requirements request
  ++ "

## Technical Specifications
- **Framework:** "
  ++ framework request
  ++ "
- **Language:** "
  ++ language request
  ++ "
- **Architecture:** Modern web application with RESTful APIs

## User Stories
1. As a user, I want to interact with the application through a clean interface
2. As a developer, I want well-structured, maintainable code
3. As a system admin, I want reliable and secure deployment

## Acceptance Criteria
✅ Application must be responsive and accessible
✅ Code must follow industry best practices
✅ Include proper error handling and validation
✅ Provide comprehensive documentation

## Project Timeline
- Phase 1: Architecture & Setup (1-2 hours)
- Phase 2: Core Development (2-4 hours)  
- Phase 3: Testing & Quality Assurance (1-2 hours)
- Phase 4: Documentation & Deployment (1 hour)".

Definition archResponse (request : GenerationRequest) : string :=
  "# System Architecture Design

## Technology Stack
- **Frontend:** "
  ++ framework request
  ++ " with "
  ++ language request
  ++ "
- **Backend:** RESTful API architecture
- **Database:** Modern data persistence layer
- **Deployment:** Container-ready deployment

## Architecture Patterns
```
┌─────────────────┐    ┌─────────────────┐    ┌─────────────────┐
│   Frontend      │    │   API Layer     │    │   Data Layer    │
│   "
  ++ framework request
  ++ "      │◄──►│   Express/REST  │◄──►│   Database      │
│   "
  ++ language request
  ++ "       │    │   "
  ++ language request
  ++ "        │    │   Storage       │
└─────────────────┘    └─────────────────┘    └─────────────────┘
```

## API Design
- RESTful endpoints following OpenAPI standards
- Proper HTTP status codes and error handling
- Input validation and sanitization
- Rate limiting and security measures

## Security Considerations
- Authentication and authorization
- Input validation and XSS protection
- CORS and CSP headers
- Secure data transmission

## Performance Optimization
- Caching strategies
- Database query optimization
- CDN for static assets
- Code splitting and lazy loading".

Definition devResponse (request : GenerationRequest) : string :=
  "// "
  ++ language request
  ++ " Implementation for "
  ++ framework request
  ++ "
// Generated for: "
  ++ requirements request
  ++ "

import express from 'express';
import cors from 'cors';
import helmet from 'helmet';

const app = express();
const PORT = process.env.PORT || 3000;

// Security and middleware
app.use(helmet());
app.use(cors({
  origin: process.env.FRONTEND_URL || 'http://localhost:3000',
  credentials: true
}));
app.use(express.json({ limit: '10mb' }));

// Health check endpoint
app.get('/api/health', (req, res) => {
  res.json({
    status: 'healthy',
    timestamp: new Date().toISOString(),
    uptime: process.uptime()
  });
});

// Main application routes
app.get('/api/data', async (req, res) => {
  try {
    // Implementation based on: "
  ++ requirements request
  ++ "
    const data = {
      message: 'Application is running successfully',
      timestamp: new Date().toISOString(),
      framework: '"
  ++ framework request
  ++ "',
      language: '"
  ++ language request
  ++ "'
    };
    
    res.json({
      success: true,
      data
    });
  } catch (error) {
    console.error('API Error:', error);
    res.status(500).json({
      success: false,
      error: 'Internal server error'
    });
  }
});

// Error handling middleware
app.use((err, req, res, next) => {
  console.error('Unhandled error:', err);
  res.status(500).json({
    success: false,
    error: 'Something went wrong!'
  });
});

// 404 handler
app.use('*', (req, res) => {
  res.status(404).json({
    success: false,
    error: 'Route not found'
  });
});

app.listen(PORT, () => {
  console.log(`🚀 Server running on port ${PORT}`);
  console.log(`📝 Requirements: "
  ++ requirements request
  ++ "`);
});

export default app;".

Definition qaResponse (request : GenerationRequest) : string :=
  "// Test Suite for "
  ++ framework request
  ++ " Application
// Testing: "
  ++ requirements request
  ++ "

import { describe, test, expect, beforeEach, afterEach } from 'vitest';
import request from 'supertest';
import app from '../src/app';

describe('Application Tests', () => {
  beforeEach(() => {
    // Setup test environment
  });

  afterEach(() => {
    // Cleanup after tests
  });

  describe('Health Check', () => {
    test('should return healthy status', async () => {
      const response = await request(app)
        .get('/api/health')
        .expect(200);

      expect(response.body).toMatchObject({
        status: 'healthy'
      });
      expect(response.body.timestamp).toBeDefined();
      expect(response.body.uptime).toBeGreaterThan(0);
    });
  });

  describe('API Endpoints', () => {
    test('should handle main data endpoint', async () => {
      const response = await request(app)
        .get('/api/data')
        .expect(200);

      expect(response.body.success).toBe(true);
      expect(response.body.data).toBeDefined();
      expect(response.body.data.framework).toBe('"
  ++ framework request
  ++ "');
      expect(response.body.data.language).toBe('"
  ++ language request
  ++ "');
    });

    test('should handle 404 for unknown routes', async () => {
      await request(app)
        .get('/api/unknown')
        .expect(404);
    });
  });

  describe('Error Handling', () => {
    test('should handle server errors gracefully', async () => {
      // Test error scenarios
      const response = await request(app)
        .post('/api/invalid')
        .send({ invalid: 'data' })
        .expect(404);

      expect(response.body.success).toBe(false);
    });
  });
});

// Integration Tests
describe('Integration Tests', () => {
  test('should handle complete workflow', async () => {
    // Test full application flow
    const healthCheck = await request(app).get('/api/health');
    expect(healthCheck.status).toBe(200);

    const dataFetch = await request(app).get('/api/data');
    expect(dataFetch.status).toBe(200);
    expect(dataFetch.body.success).toBe(true);
  });
});

// Performance Tests
describe('Performance Tests', () => {
  test('should respond within acceptable time limits', async () => {
    const start = Date.now();
    await request(app).get('/api/health');
    const duration = Date.now() - start;
    
    expect(duration).toBeLessThan(1000); // Should respond within 1 second
  });
});

## Test Coverage Requirements
- ✅ Unit tests for all core functions
- ✅ Integration tests for API endpoints
- ✅ Error handling validation
- ✅ Performance benchmarks
- ✅ Security testing

## Quality Gates
- Code coverage > 85%
- All tests must pass
- No security vulnerabilities
- Performance within acceptable limits".

Definition defaultResponse (agent : Agent) (request : GenerationRequest) : string :=
  role agent
  ++ " analysis complete for "
  ++ requirements request.

Definition generateFallbackResponse (agent : Agent) (request : GenerationRequest) : string :=
  "# "
  ++ role agent
  ++ " Response

I've analyzed your request: " ++ dquote
  ++ requirements request
  ++ dquote ++ "

For a "
  ++ framework request
  ++ " application using "
  ++ language request
  ++ ", I recommend:

1. **Modern Architecture**: Utilizing current best practices
2. **Scalable Design**: Built for growth and maintainability  
3. **Security First**: Implementing proper security measures
4. **Performance Optimized**: Fast and efficient implementation

This "
  ++ JS.toLowerCase (role agent)
  ++ " assessment ensures your project will be production-ready and meet industry standards.".

(** [this.agents] after [initializeAgents]. *)
Definition agents : list Agent :=
  [ mkAgent "pm" "Product Manager" "Alex PM"
      "Analyzes requirements and creates project specifications" pmSystemPrompt;
    mkAgent "arch" "Solution Architect" "Jordan Arch"
      "Designs system architecture and technical specifications" archSystemPrompt;
    mkAgent "dev" "Senior Developer" "Sam Dev"
      "Implements the actual code based on specifications" devSystemPrompt;
    mkAgent "qa" "QA Engineer" "Riley QA"
      "Creates comprehensive tests and ensures quality" qaSystemPrompt ].

(** The [switch] on [agent.id]; [previousResults] is not read. *)
Definition generateRealisticResponse (agent : Agent) (request : GenerationRequest)
    (previousResults : list AgentResponse) : string :=
  if String.eqb (id agent) "pm" then pmResponse request
  else if String.eqb (id agent) "arch" then archResponse request
  else if String.eqb (id agent) "dev" then devResponse request
  else if String.eqb (id agent) "qa" then qaResponse request
  else defaultResponse agent request.

(** [processAgent]: [w] is the environment the service was built in,
    [call] numbers the call of the model, [t] is the time of the call;
    the result is the time taken and the response. *)
Definition processAgent (w : Agents.World) (call : nat) (t : N) (agent : Agent)
    (request : GenerationRequest) (previousResults : list AgentResponse)
  : N * AgentResponse :=
  let context :=
    if (0 <? List.length previousResults)%nat
    then "Previous work from other agents:" ++ nl
         ++ JS.join (nl ++ nl)
              (map (fun r => r_role r ++ ":" ++ nl ++ content r) previousResults)
    else "" in
  let userPrompt :=
    JS.trim (nl ++ "Project Requirements: " ++ requirements request ++ nl
             ++ "Framework: " ++ framework request ++ nl
             ++ "Language: " ++ language request ++ nl ++ nl
             ++ context ++ nl ++ nl
             ++ "Please provide your " ++ role agent ++ " response for this project."
             ++ nl ++ "    ") in
  let '(taken, content) :=
    if Agents.noCredential w then
      (* simulation mode; the simulated call takes three seconds *)
      (3000%N, generateRealisticResponse agent request previousResults)
    else
      match Agents.completions w call
              [Agents.mkMessage "system" (systemPrompt agent);
               Agents.mkMessage "user" userPrompt] with
      | (d, Agents.Content c) =>
          (d, if Agents.optTruthy c then default "" c
              else role agent ++ " response generated")
      | (d, Agents.ApiFailure) => (d, generateFallbackResponse agent request)
      end in
  (taken, {| agentId := id agent; r_role := role agent; content := content;
             timestamp := (t + taken)%N |}).

End CodeGen.

(** ** Predicates on strings used in the statements *)

Module Text.

(** Every character of [s] satisfies [P]. *)
Fixpoint allChars (P : ascii -> bool) (s : string) : bool :=
  match s with
  | EmptyString => true
  | String c r => P c && allChars P r
  end.

(** No run of [k] or more consecutive [c] in [s], when [cur] copies of
    [c] stand immediately before [s]. *)
Fixpoint runsBelow (c : ascii) (k cur : nat) (s : string) : bool :=
  match s with
  | EmptyString => true
  | String d r =>
      if Ascii.eqb d c then (S cur <? k)%nat && runsBelow c k (S cur) r
      else runsBelow c k 0 r
  end.

Definition noTripleNewline (s : string) : bool := runsBelow LF 3 0 s.

Definition noAngle (s : string) : bool := allChars (fun c => negb (Utils.isAngle c)) s.

Definition firstChar (s : string) : option ascii :=
  match s with EmptyString => None | String c _ => Some c end.

Fixpoint lastChar (s : string) : option ascii :=
  match s with
  | EmptyString => None
  | String c EmptyString => Some c
  | String _ r => lastChar r
  end.

(** Neither the first nor the last character is white space. *)
Definition trimmed (s : string) : Prop :=
  (forall c, firstChar s = Some c -> JS.isWhiteSpace c = false)
  /\ (forall c, lastChar s = Some c -> JS.isWhiteSpace c = false).

(** [s] ends with [suffix]. *)
Fixpoint endsWith (suffix s : string) : bool :=
  String.eqb s suffix
  || match s with
     | EmptyString => false
     | String _ r => endsWith suffix r
     end.

(** The output is the QA Engineer's, as [compileCodeFiles] tells. *)
Definition isQaOutput (o : Utils.AgentOutput) : bool :=
  String.eqb (JS.toLowerCase (Utils.role o)) "qa engineer".

(** The output is of the given role, as [compileCodeFiles] tells. *)
Definition isOutputOf (role : string) (o : Utils.AgentOutput) : bool :=
  String.eqb (JS.toLowerCase (Utils.role o)) (JS.toLowerCase role).

End Text.

(** ** The sanitized form of a field, in the specification's words *)

Module SanitizeSpec.

(** [t] is [x] trimmed: white space removed at both ends, and only
    there. *)
Definition TrimOf (x t : string) : Prop :=
  (exists pre post,
      x = pre ++ t ++ post
      /\ Text.allChars JS.isWhiteSpace pre = true
      /\ Text.allChars JS.isWhiteSpace post = true)
  /\ Text.trimmed t.

(** [u] is [t] with every ['<'] and ['>'] removed. *)
Fixpoint withoutAngles (t : string) : string :=
  match t with
  | EmptyString => EmptyString
  | String c r =>
      if Ascii.eqb c "<"%char then withoutAngles r
      else if Ascii.eqb c ">"%char then withoutAngles r
      else String c (withoutAngles r)
  end.

(** [v] is [u] with every maximal run of three or more line feeds
    collapsed to exactly two; shorter runs and all other characters
    stay. *)
Inductive Collapsed : string -> string -> Prop :=
| collapsed_end : Collapsed "" ""
| collapsed_char c s s' :
    c <> LF -> Collapsed s s' -> Collapsed (String c s) (String c s')
| collapsed_run n s s' :
    (1 <= n)%nat -> Text.firstChar s <> Some LF -> Collapsed s s' ->
    Collapsed (JS.repeat_char LF n ++ s)
      ((if (3 <=? n)%nat then nl ++ nl else JS.repeat_char LF n) ++ s').

(** [y] is [v] truncated to at most [n] characters. *)
Definition TruncationOf (n : nat) (v y : string) : Prop :=
  (exists rest, v = y ++ rest) /\ String.length y = Nat.min n (String.length v).

Definition SanitizedForm (x y : string) : Prop :=
  exists t v,
    TrimOf x t /\ Collapsed (withoutAngles t) v /\ TruncationOf tenThousand v y.

End SanitizeSpec.

(** ** The accumulated context, in the specification's words *)

Module ContextSpec.

(** What a completed stage adds to the context: two line feeds, the
    role, the text [ Output:], a line feed, and the output. *)
Definition entry (role output : string) : string :=
  String "010"%char
    (String "010"%char (role ++ " Output:" ++ String "010"%char output)).

(** The context after the stages [done], given as role and output,
    earliest first. *)
Fixpoint context (done : list (string * string)) : string :=
  match done with
  | [] => ""
  | (role, output) :: rest => entry role output ++ context rest
  end.


End ContextSpec.

(** ** Concrete worlds and requests, used to run the model *)

Module Example.

(** No credential: every agent answers with its canned text. *)
Definition noKey : Agents.World :=
  {| Agents.CEREBRAS_API_KEY := None;
     Agents.completions := fun _ _ => (1000%N, Agents.Content (Some "answer"));
     Agents.random := fun n => (N.of_nat n * 977)%N |}.

(** An empty credential, and an endpoint that would fail. *)
Definition emptyKey : Agents.World :=
  {| Agents.CEREBRAS_API_KEY := Some "";
     Agents.completions := fun _ _ => (5%N, Agents.ApiFailure);
     Agents.random := fun _ => 0%N |}.

(** A credential, and an endpoint whose third call fails. *)
Definition thirdCallFails : Agents.World :=
  {| Agents.CEREBRAS_API_KEY := Some "key";
     Agents.completions :=
       fun n _ =>
         if (n =? 2)%nat then (500%N, Agents.ApiFailure)
         else (1000%N, Agents.Content (Some ("output " ++ Crew.natToString n)));
     Agents.random := fun _ => 0%N |}.

Definition request : Crew.GenerationRequest :=
  Crew.mkRequest "job_1" "Build a todo app" "react" "python" 0%N.

(** A run of [CrewService] in which all four stages succeed, and one
    in which the third stage fails. *)
Definition completedRun : Crew.Service :=
  Crew.startGeneration (Agents.execute noKey) request (Crew.newService 0%N).

Definition failedRun : Crew.Service :=
  Crew.startGeneration (Agents.executeWithModel thirdCallFails) request
    (Crew.newService 0%N).

Definition enhancedRequest : Utils.GenerationRequest :=
  Utils.mkRequest "job_1" "  <b>Build</b> a todo app  " "react" "Python".

(** A crew whose four tasks all produce output. *)
Definition crew (_ : bool) (_ : Utils.GenerationRequest) : Enhanced.CrewRun :=
  {| Enhanced.taskOutputs :=
       [ (1000%N, ("task_1", "Product Manager", "spec"));
         (1000%N, ("task_2", "Solution Architect", "design"));
         (1000%N, ("task_3", "Senior Developer", "code"));
         (1000%N, ("task_4", "QA Engineer", "tests")) ];
     Enhanced.elapsed := 10%N;
     Enhanced.kickoff := Enhanced.Returned true None;
     Enhanced.getResults :=
       [ Enhanced.mkTaskResult "Product Manager" (Some "spec");
         Enhanced.mkTaskResult "Solution Architect" (Some "design");
         Enhanced.mkTaskResult "Senior Developer" (Some "code");
         Enhanced.mkTaskResult "QA Engineer" (Some "tests") ] |}.

(** The enhanced service with a job under way, then cancelled once,
    then ten milliseconds later. *)
Definition running : Enhanced.Service :=
  snd (Enhanced.beginGeneration enhancedRequest (Enhanced.newService None 0%N)).

Definition cancelledOnce : Enhanced.Service :=
  Enhanced.sleep 10%N (snd (Enhanced.cancelJob "job_1" running)).

(** The job of [cancelledOnce] as the registry holds it. *)
Definition cancelledJob : Enhanced.JobInfo :=
  Enhanced.mkJobInfo (Enhanced.sanitizeRequest enhancedRequest) 0%N Enhanced.cancelled
    (Some 0%N) None None.

Definition nanoid (n : nat) : string := "id" ++ Crew.natToString n.

(** An agent built as [createAgents] builds its first. *)
Definition productManager : Agents.AIAgent :=
  Agents.newAIAgent
    (Agents.mkAgent "product_manager" "Product Manager"
       "Analyze requirements and create comprehensive project specifications"
       "Experienced in translating business requirements into technical specifications."
       None None None).

End Example.

(** ** server/src/utils/index.ts: further helpers *)

Module UtilsMore.

Import Utils.

(** The class [[a-z0-9]]. *)
Definition isLowerAlnum (c : ascii) : bool :=
  let n := nat_of_ascii c in
  ((97 <=? n)%nat && (n <=? 122)%nat) || ((48 <=? n)%nat && (n <=? 57)%nat).

(** [s.toLowerCase().replace(/[^a-z0-9]/g, '')] *)
Definition normalize (s : string) : string :=
  JS.removeAll (fun c => negb (isLowerAlnum c)) (JS.toLowerCase s).

Definition supportedFrameworks : list string :=
  [ "react"; "vue"; "angular"; "svelte"; "nextjs"; "nuxtjs";
    "express"; "fastapi"; "django"; "flask"; "spring"; "laravel";
    "rails"; "asp.net"; "gin"; "fiber"; "actix"; "rocket" ].

Definition supportedLanguages : list string :=
  [ "javascript"; "typescript"; "python"; "java"; "csharp";
    "cpp"; "c"; "go"; "rust"; "php"; "ruby"; "swift"; "kotlin" ].

(** [known.some(k => normalized.includes(k) || k.includes(normalized))] *)
Definition recognised (known : list string) (normalized : string) : bool :=
  existsb (fun k => Enhanced.includes k normalized || Enhanced.includes normalized k)
    known.

Record Parsed : Type := mkParsed {
  normalizedFramework : string;
  normalizedLanguage : string;
  isValid : bool
}.

Definition parseFrameworkLanguage (framework language : string) : Parsed :=
  let normalizedFramework := normalize framework in
  let normalizedLanguage := normalize language in
  let isValidFramework := recognised supportedFrameworks normalizedFramework in
  let isValidLanguage := recognised supportedLanguages normalizedLanguage in
  {| normalizedFramework := normalizedFramework;
     normalizedLanguage := normalizedLanguage;
     isValid := isValidFramework && isValidLanguage |}.

(** The [packageName] of [generatePackageJson], and the name written. *)
Definition packageName (request : GenerationRequest) : string :=
  JS.substring0 50
    (JS.replaceSpaceRuns "-" false
       (JS.removeAll (fun c => negb (isPackageNameChar c))
          (JS.toLowerCase (requirements request)))).

Definition writtenName (request : GenerationRequest) : string :=
  if JS.truthy (packageName request) then packageName request else "generated-app".

(** The characters a written package name is made of: [a-z], [0-9]
    and the hyphen. *)
Definition isNameChar (c : ascii) : bool :=
  isLowerAlnum c || Ascii.eqb c "-"%char.

(** The file names one step of [compileCodeFiles] writes. *)
Definition filesOf (fileExtension : string) (o : AgentOutput) : list string :=
  let r := JS.toLowerCase (role o) in
  if String.eqb r "product manager" then ["PROJECT_SPECIFICATION.md"]
  else if String.eqb r "solution architect" then ["ARCHITECTURE.md"]
  else if String.eqb r "senior developer"
       then ["main." ++ fileExtension; "README.md"; "package.json"]
  else if String.eqb r "qa engineer" then ["tests." ++ fileExtension; "TEST_PLAN.md"]
  else [JS.replaceSpaceRuns "_" false r ++ ".md"].

End UtilsMore.

(** ** server/src/services/enhanced-code-generation.ts: statistics *)

Module EnhancedMore.

Import Utils Enhanced.

Definition JobState_eqb (a b : JobState) : bool :=
  match a, b with
  | running, running | completed, completed | failed, failed
  | cancelled, cancelled => true
  | _, _ => false
  end.

(** [Array.from(this.activeJobs.values())]; only counts are taken of
    it, so the order of the entries plays no part. *)
Definition values (s : Service) : list JobInfo := map snd (map_to_list (activeJobs s)).

(** [values.filter(job => job.status === v).length] *)
Definition countOf (v : JobState) (s : Service) : nat :=
  List.length (List.filter (fun job => JobState_eqb (status job) v) (values s)).

Record Statistics : Type := mkStatistics {
  totalJobs : nat;
  runningJobs : nat;
  completedJobs : nat;
  failedJobs : nat;
  cerebrasEnabled : bool;
  uptime : N
}.

(** [getStatistics]; [up] is [process.uptime()].  The result is the
    [data] of a success response stamped with the current time. *)
Definition getStatistics (up : N) (s : Service) : Statistics * N :=
  ({| totalJobs := size (activeJobs s);
      runningJobs := countOf running s;
      completedJobs := countOf completed s;
      failedJobs := countOf failed s;
      cerebrasEnabled := cerebras s;
      uptime := up |}, now s).

(** The message of the error the [catch] block of [startGeneration]
    sees, if the crew run does not succeed. *)
Definition failureMessage (k : Kickoff) : option string :=
  match k with
  | Returned true _ => None
  | Returned false (Some e) => Some (if JS.truthy e then e else "Crew execution failed")
  | Returned false None => Some "Crew execution failed"
  | ThrewError message => Some message
  | ThrewOther => Some "Unknown error"
  end.

Definition isAgentCompleted (e : Emitted) : bool :=
  match e with agent_completed _ _ _ _ _ _ => true | _ => false end.

End EnhancedMore.

(** ** Further concrete cases *)

Module Cases.

(** A crew whose run reports failure after one task. *)
Definition failingCrew (_ : bool) (_ : Utils.GenerationRequest) : Enhanced.CrewRun :=
  {| Enhanced.taskOutputs := [ (1000%N, ("task_1", "Product Manager", "spec")) ];
     Enhanced.elapsed := 500%N;
     Enhanced.kickoff := Enhanced.Returned false (Some "model unavailable");
     Enhanced.getResults := [ Enhanced.mkTaskResult "Product Manager" (Some "spec") ] |}.

Definition todoRequest : Utils.GenerationRequest :=
  Utils.mkRequest "job_7" "Build a todo app" "react" "python".

End Cases.

(** ** server/services/crew.ts: further vocabulary *)

Module CrewMore.

Import Crew.

(** The outcome recorded for a call is what [execute] gave for the
    agent, prompt and context recorded, at some call. *)
Definition genuine
    (execute : nat -> Agents.AIAgent -> string -> option string -> Agents.Outcome)
    (inv : Invocation) : Prop :=
  exists n,
    inv_outcome inv
    = execute n (inv_agent inv) (inv_prompt inv) (Some (inv_context inv)).

(** The four canned texts, in role order. *)
Definition cannedOutputs : list JS.value :=
  [ JS.VStr Agents.productManagerResponse; JS.VStr Agents.solutionArchitectResponse;
    JS.VStr Agents.seniorDeveloperResponse; JS.VStr Agents.qaEngineerResponse ].

End CrewMore.

(** ** server/services/websocket.ts *)

Module WebSocket.

Inductive ReadyState : Type := CONNECTING | OPEN | CLOSING | CLOSED.

(** [ws.readyState === WebSocket.OPEN] *)
Definition isOpen (r : ReadyState) : bool :=
  match r with OPEN => true | _ => false end.

(** The events the service sends: the two it makes itself, and those
    handed to [broadcast] by the job runner. *)
Inductive Event : Type :=
| connection_established (clientId : string) (serverTime : N) (connectedClients : nat)
    (timestamp : N)
| pong (dataTimestamp : N) (timestamp : N)
| relayed (e : Crew.WebSocketEvent).

(** An entry of [clients]: the connection with the state of its socket
    and what [ws.send] has been given on it, oldest first. *)
Record ClientConnection : Type := mkClient {
  id : string;
  readyState : ReadyState;
  joinTime : N;
  sent : list string
}.

Record Service : Type := mkService {
  clients : gmap string ClientConnection;
  now : N
}.

Section Service.

(** [JSON.stringify] on events. *)
Variable stringify : Event -> string.

(** [ws.send(message)] *)
Definition send (message : string) (client : ClientConnection) : ClientConnection :=
  mkClient (id client) (readyState client) (joinTime client) (sent client ++ [message]).

Definition sendToClient (clientId : string) (event : Event) (s : Service) : Service :=
  match clients s !! clientId with
  | Some client =>
      if isOpen (readyState client)
      then mkService (<[clientId := send (stringify event) client]> (clients s)) (now s)
      else s
  | None => s
  end.

(** [this.clients.forEach(...)]: each client has its own socket, so the
    order of the visits plays no part. *)
Definition broadcast (event : Event) (s : Service) : Service :=
  let message := stringify event in
  mkService
    ((fun client => if isOpen (readyState client) then send message client else client)
       <$> clients s)
    (now s).

Definition getConnectedClients (s : Service) : nat := size (clients s).

(** The [connection] handler for a socket in state [rs]; [clientId] is
    what [generateClientId] returned. *)
Definition onConnection (clientId : string) (rs : ReadyState) (s : Service) : Service :=
  let connection := mkClient clientId rs (now s) [] in
  let s := mkService (<[clientId := connection]> (clients s)) (now s) in
  sendToClient clientId
    (connection_established clientId (now s) (size (clients s)) (now s)) s.

(** [handleClientMessage]: [type] is [message.type] when it is a
    string.  Only [ping] has an effect; [subscribe_job] and unknown
    types are logged. *)
Definition handleClientMessage (clientId : string) (type : option string) (s : Service)
  : Service :=
  match type with
  | Some t => if String.eqb t "ping" then sendToClient clientId (pong (now s) (now s)) s
              else s
  | None => s
  end.

(** The [message] handler: [parse data] is [None] when [JSON.parse]
    throws or the value parsed has no properties to read (the error is
    caught and logged), else the message's [type]. *)
Definition onMessage (parse : string -> option (option string)) (clientId data : string)
    (s : Service) : Service :=
  match parse data with
  | Some type => handleClientMessage clientId type s
  | None => s
  end.

(** The [close] and [error] handlers. *)
Definition onClose (clientId : string) (s : Service) : Service :=
  mkService (delete clientId (clients s)) (now s).

Definition onError (clientId : string) (s : Service) : Service :=
  mkService (delete clientId (clients s)) (now s).

(** [broadcastToClients] of the module, as the job runner calls it. *)
Definition broadcastToClients (e : Crew.WebSocketEvent) (s : Service) : Service :=
  broadcast (relayed e) s.

(** The events of a job handed over one after the other. *)
Definition relay (es : list Crew.WebSocketEvent) (s : Service) : Service :=
  fold_left (fun s e => broadcastToClients e s) es s.

End Service.

End WebSocket.

Module SocketCases.

Import WebSocket.

(** A stand-in for [JSON.stringify] that keeps the event's type. *)
Definition label (e : Event) : string :=
  match e with
  | connection_established _ _ _ _ => "connection_established"
  | pong _ _ => "pong"
  | relayed e =>
      match Crew.data e with
      | Crew.generation_started _ _ => "generation_started"
      | Crew.generation_completed _ => "generation_completed"
      | Crew.generation_failed _ _ => "generation_failed"
      | Crew.agent_started _ _ _ => "agent_started"
      | Crew.agent_completed _ _ _ _ => "agent_completed"
      | Crew.agent_progress _ _ _ => "agent_progress"
      end
  end.

(** One client, connected with an open socket. *)
Definition oneClient : Service :=
  onConnection label "client_1" OPEN (mkService ∅ 0%N).

End SocketCases.

(** * Properties *)

(** ** Strings *)

Section StringFacts.

Local Open Scope nat_scope.
Local Arguments String.append !_ _ / : simpl nomatch.

Lemma append_nil_r (s : string) : (s ++ "")%string = s.
Proof. induction s as [|c s IH]; simpl; [reflexivity | by rewrite IH]. Qed.

Lemma append_assoc (a b c : string) : ((a ++ b) ++ c)%string = (a ++ (b ++ c))%string.
Proof. induction a as [|x a IH]; simpl; [reflexivity | by rewrite IH]. Qed.

Lemma length_append (a b : string) :
  String.length (a ++ b)%string = String.length a + String.length b.
Proof. induction a as [|x a IH]; simpl; [reflexivity | by rewrite IH]. Qed.

Lemma allChars_append P (a b : string) :
  Text.allChars P (a ++ b)%string = Text.allChars P a && Text.allChars P b.
Proof.
  induction a as [|x a IH]; simpl; [reflexivity |].
  by rewrite IH, andb_assoc.
Qed.

Lemma allChars_repeat P c n : P c = true -> Text.allChars P (JS.repeat_char c n) = true.
Proof. intros H. induction n as [|n IH]; simpl; [reflexivity | by rewrite H, IH]. Qed.

Lemma allChars_substring P n s :
  Text.allChars P s = true -> Text.allChars P (JS.substring0 n s) = true.
Proof.
  unfold JS.substring0. revert s.
  induction n as [|n IH]; intros [|c s]; simpl; try reflexivity.
  intros [Hc Hs]%andb_prop. rewrite Hc. simpl. by apply IH.
Qed.

Lemma length_substring0 n s : String.length (JS.substring0 n s) <= n.
Proof.
  unfold JS.substring0. revert s.
  induction n as [|n IH]; intros [|c s]; simpl; try lia.
  specialize (IH s). lia.
Qed.

(** [substring(0, n)] keeps a prefix. *)
Lemma substring0_prefix n s : exists rest, s = (JS.substring0 n s ++ rest)%string.
Proof.
  unfold JS.substring0. revert s.
  induction n as [|n IH]; intros [|c s]; simpl.
  - by exists "".
  - by exists (String c s).
  - by exists "".
  - destruct (IH s) as [rest Hrest]. exists rest. by rewrite <- Hrest.
Qed.

Lemma substring0_short n s : String.length s <= n -> JS.substring0 n s = s.
Proof.
  unfold JS.substring0. revert s.
  induction n as [|n IH]; intros [|c s]; simpl; try reflexivity; try lia.
  intros H. rewrite IH; [reflexivity | lia].
Qed.

Lemma removeAll_allChars cls s :
  Text.allChars (fun c => negb (cls c)) (JS.removeAll cls s) = true.
Proof.
  induction s as [|c s IH]; simpl; [reflexivity |].
  destruct (cls c) eqn:E; simpl; [assumption | by rewrite E, IH].
Qed.

(** Removing a class keeps the characters outside it, in order. *)
Lemma removeAll_id cls s :
  Text.allChars (fun c => negb (cls c)) s = true -> JS.removeAll cls s = s.
Proof.
  induction s as [|c s IH]; simpl; [reflexivity |].
  intros [Hc Hs]%andb_prop. apply negb_true_iff in Hc. rewrite Hc.
  by rewrite IH.
Qed.

Lemma flushRun_allChars P c lo rep p :
  P c = true -> Text.allChars P rep = true ->
  Text.allChars P (JS.flushRun c lo rep p) = true.
Proof.
  intros Hc Hrep. unfold JS.flushRun.
  destruct (lo <=? p); [assumption | by apply allChars_repeat].
Qed.

Lemma replaceRuns_allChars P c lo rep p s :
  P c = true -> Text.allChars P rep = true -> Text.allChars P s = true ->
  Text.allChars P (JS.replaceRuns c lo rep p s) = true.
Proof.
  intros Hc Hrep. revert p.
  induction s as [|d s IH]; intros p; simpl.
  - intros _. by apply flushRun_allChars.
  - intros [Hd Hs]%andb_prop.
    destruct (Ascii.eqb d c); [by apply IH |].
    rewrite allChars_append. simpl. rewrite Hd, (IH 0 Hs).
    by rewrite flushRun_allChars.
Qed.

(** After the replacement no run of three line feeds is left. *)
Lemma replaceRuns_noTriple p s :
  Text.runsBelow LF 3 0 (JS.replaceRuns LF 3 (nl ++ nl) p s) = true.
Proof.
  revert p. induction s as [|d s IH]; intros p; simpl.
  - unfold JS.flushRun. destruct p as [|[|[|p]]]; reflexivity.
  - destruct (Ascii.eqb d LF) eqn:E; [apply IH |].
    specialize (IH 0).
    unfold JS.flushRun. destruct p as [|[|[|p]]]; simpl; rewrite E; exact IH.
Qed.

Lemma runsBelow_substring c k cur n s :
  Text.runsBelow c k cur s = true -> Text.runsBelow c k cur (JS.substring0 n s) = true.
Proof.
  unfold JS.substring0. revert cur s.
  induction n as [|n IH]; intros cur [|d s]; simpl; try reflexivity.
  destruct (Ascii.eqb d c).
  - intros [H1 H2]%andb_prop. rewrite H1. simpl. by apply IH.
  - apply IH.
Qed.

(** Line feeds apart, the replacement changes nothing. *)
Lemma removeAll_append cls a b :
  JS.removeAll cls (a ++ b)%string = (JS.removeAll cls a ++ JS.removeAll cls b)%string.
Proof.
  induction a as [|x a IH]; simpl; [reflexivity |].
  destruct (cls x); simpl; by rewrite IH.
Qed.

Lemma removeAll_repeat c n :
  JS.removeAll (fun d => Ascii.eqb d c) (JS.repeat_char c n) = "".
Proof. induction n as [|n IH]; simpl; [reflexivity | by rewrite Ascii.eqb_refl]. Qed.

Lemma replaceRuns_others p s :
  JS.removeAll (fun d => Ascii.eqb d LF) (JS.replaceRuns LF 3 (nl ++ nl) p s)
  = JS.removeAll (fun d => Ascii.eqb d LF) s.
Proof.
  revert p. induction s as [|d s IH]; intros p; simpl.
  - unfold JS.flushRun. destruct (3 <=? p); [reflexivity | apply removeAll_repeat].
  - destruct (Ascii.eqb d LF) eqn:E; [apply IH |].
    rewrite removeAll_append. simpl. rewrite E, IH.
    unfold JS.flushRun. destruct (3 <=? p); [reflexivity |].
    by rewrite removeAll_repeat.
Qed.

(** [trimStart] and [trimEnd] remove white space only, and all of it. *)
Lemma trimStart_split s :
  exists pre, s = (pre ++ JS.trimStart s)%string /\ Text.allChars JS.isWhiteSpace pre = true.
Proof.
  induction s as [|c s [pre [H1 H2]]]; simpl.
  - by exists "".
  - destruct (JS.isWhiteSpace c) eqn:E.
    + exists (String c pre). simpl. by rewrite E, H2, <- H1.
    + by exists "".
Qed.

Lemma trimEnd_split s :
  exists post, s = (JS.trimEnd s ++ post)%string /\ Text.allChars JS.isWhiteSpace post = true.
Proof.
  induction s as [|c s [post [H1 H2]]]; simpl.
  - by exists "".
  - destruct (JS.trimEnd s) as [|d t] eqn:Et.
    + destruct (JS.isWhiteSpace c) eqn:E.
      * exists (String c post). simpl in *. by rewrite E, H2, <- H1.
      * exists post. simpl in *. by subst s.
    + exists post. simpl in *. split; [congruence | assumption].
Qed.

Lemma trimStart_first s c :
  Text.firstChar (JS.trimStart s) = Some c -> JS.isWhiteSpace c = false.
Proof.
  induction s as [|d s IH]; simpl; [discriminate |].
  destruct (JS.isWhiteSpace d) eqn:E; [assumption |].
  simpl. intros [= <-]. exact E.
Qed.

Lemma trimEnd_last s c :
  Text.lastChar (JS.trimEnd s) = Some c -> JS.isWhiteSpace c = false.
Proof.
  induction s as [|d s IH]; simpl; [discriminate |].
  destruct (JS.trimEnd s) as [|e t] eqn:Et.
  - destruct (JS.isWhiteSpace d) eqn:E; simpl; [discriminate |].
    intros [= <-]. exact E.
  - simpl. exact IH.
Qed.

Lemma trimEnd_first s c :
  Text.firstChar s = Some c -> JS.isWhiteSpace c = false ->
  Text.firstChar (JS.trimEnd s) = Some c.
Proof.
  destruct s as [|d s]; simpl; [discriminate |].
  intros [= ->] E. destruct (JS.trimEnd s); [by rewrite E | reflexivity].
Qed.

Lemma trimEnd_first_inv s c :
  Text.firstChar (JS.trimEnd s) = Some c -> Text.firstChar s = Some c.
Proof.
  destruct s as [|d s]; simpl; [discriminate |].
  destruct (JS.trimEnd s); [destruct (JS.isWhiteSpace d); [discriminate|] |]; simpl; auto.
Qed.

Lemma trim_trimmed s : Text.trimmed (JS.trim s).
Proof.
  unfold JS.trim. split; intros c H.
  - apply trimEnd_first_inv in H. by apply trimStart_first in H.
  - by apply trimEnd_last in H.
Qed.

Lemma trim_split s :
  exists pre post,
    s = (pre ++ JS.trim s ++ post)%string
    /\ Text.allChars JS.isWhiteSpace pre = true
    /\ Text.allChars JS.isWhiteSpace post = true.
Proof.
  destruct (trimStart_split s) as [pre [H1 H2]].
  destruct (trimEnd_split (JS.trimStart s)) as [post [H3 H4]].
  exists pre, post. unfold JS.trim. by rewrite <- H3, <- H1.
Qed.

End StringFacts.

(** ** Validation and sanitizing (utils/index.ts) *)

Section Sanitize.

Local Open Scope nat_scope.
Local Arguments String.append !_ _ / : simpl nomatch.

Lemma repeat_char_snoc c n s :
  (JS.repeat_char c n ++ String c s)%string = (JS.repeat_char c (S n) ++ s)%string.
Proof. induction n as [|n IH]; simpl; [reflexivity | by rewrite IH]. Qed.

Lemma replaceRuns_collapsed s : forall p,
  SanitizeSpec.Collapsed (JS.repeat_char LF p ++ s)
    (JS.replaceRuns LF 3 (nl ++ nl) p s).
Proof.
  induction s as [|d s IH]; intros p.
  - destruct p as [|p]; [constructor |].
    simpl JS.replaceRuns. unfold JS.flushRun.
    rewrite <- (append_nil_r (if 3 <=? S p then _ else _)).
    apply SanitizeSpec.collapsed_run; [lia | discriminate | constructor].
  - simpl JS.replaceRuns. destruct (Ascii.eqb d LF) eqn:E.
    + apply Ascii.eqb_eq in E. subst d. rewrite repeat_char_snoc. apply IH.
    + assert (d <> LF) as Hd by (intros ->; by rewrite Ascii.eqb_refl in E).
      destruct p as [|p].
      * simpl. apply SanitizeSpec.collapsed_char; [assumption | apply (IH 0)].
      * unfold JS.flushRun. apply SanitizeSpec.collapsed_run.
        -- lia.
        -- simpl. congruence.
        -- apply SanitizeSpec.collapsed_char; [assumption | apply (IH 0)].
Qed.

Lemma withoutAngles_removeAll t :
  SanitizeSpec.withoutAngles t = JS.removeAll Utils.isAngle t.
Proof.
  induction t as [|c t IH]; simpl; [reflexivity |]. unfold Utils.isAngle at 1.
  destruct (Ascii.eqb c "<"); simpl; [assumption |].
  destruct (Ascii.eqb c ">"); simpl; [assumption | by rewrite IH].
Qed.

Lemma length_substring0_min n s :
  String.length (JS.substring0 n s) = Nat.min n (String.length s).
Proof.
  unfold JS.substring0. revert s.
  induction n as [|n IH]; intros [|c s]; simpl; try reflexivity.
  by rewrite IH.
Qed.

(** The code computes the sanitized form the specification describes. *)
Lemma sanitizeInput_form x : SanitizeSpec.SanitizedForm x (Utils.sanitizeInput x).
Proof.
  exists (JS.trim x), (JS.replaceRuns LF 3 (nl ++ nl) 0 (JS.removeAll Utils.isAngle (JS.trim x))).
  split; [| split].
  - split; [apply trim_split | apply trim_trimmed].
  - rewrite withoutAngles_removeAll. apply (replaceRuns_collapsed _ 0).
  - split; [apply substring0_prefix | apply length_substring0_min].
Qed.

Lemma sanitizeInput_noAngle x : Text.noAngle (Utils.sanitizeInput x) = true.
Proof.
  unfold Text.noAngle, Utils.sanitizeInput.
  apply allChars_substring, replaceRuns_allChars; try reflexivity.
  apply removeAll_allChars.
Qed.

Lemma sanitizeInput_noTripleNewline x : Text.noTripleNewline (Utils.sanitizeInput x) = true.
Proof.
  unfold Text.noTripleNewline, Utils.sanitizeInput.
  apply runsBelow_substring, replaceRuns_noTriple.
Qed.

Lemma sanitizeInput_length x : String.length (Utils.sanitizeInput x) <= tenThousand.
Proof. apply length_substring0. Qed.

Lemma validate_all_empty r f l :
  Routes.falsy r = true -> Routes.falsy f = true -> Routes.falsy l = true ->
  Utils.validateGenerationRequest (Utils.mkPartial r f l)
  = [ "Requirements are required and cannot be empty";
      "Framework is required and cannot be empty";
      "Language is required and cannot be empty" ]%string.
Proof.
  intros Hr Hf Hl. unfold Utils.validateGenerationRequest. simpl.
  destruct r as [[|]|], f as [[|]|], l as [[|]|]; try discriminate; reflexivity.
Qed.

End Sanitize.

Section Submission.

Variable execute : nat -> Agents.AIAgent -> string -> option string -> Agents.Outcome.
Variable nanoid : nat -> string.
Variable runCrew : bool -> Utils.GenerationRequest -> Enhanced.CrewRun.

Lemma postGenerate_rejects r f l sv :
  Routes.falsy r = true -> Routes.falsy f = true -> Routes.falsy l = true ->
  Routes.postGenerate execute nanoid (Routes.mkBody r f l) sv
  = (Routes.BadRequest "Missing required fields: requirements, framework, language", sv).
Proof. intros Hr _ _. unfold Routes.postGenerate. simpl. by rewrite Hr. Qed.

Lemma enhanced_postGenerate_rejects r f l sv :
  Routes.falsy r = true -> Routes.falsy f = true -> Routes.falsy l = true ->
  Enhanced.postGenerate runCrew nanoid (Routes.mkBody r f l) sv
  = (Enhanced.BadRequest "Missing required fields: requirements, framework, language", sv).
Proof. intros Hr _ _. unfold Enhanced.postGenerate. simpl. by rewrite Hr. Qed.

Lemma beginGeneration_all_empty jobId s :
  Enhanced.beginGeneration (Utils.mkRequest jobId "" "" "") s
  = (None,
     Enhanced.emit
       (Enhanced.generation_failed jobId
          "Validation failed: Requirements are required and cannot be empty, Framework is required and cannot be empty, Language is required and cannot be empty"
          None) s).
Proof. reflexivity. Qed.

End Submission.

(** C4.  A submission whose requirements, framework and language are
    all empty (the empty string, or absent) is rejected with an error
    that reports all three fields, and no job comes into being: the
    validator returns exactly the three "required" messages; both
    submission endpoints answer 400 naming the three fields and leave
    the server as it was (no id drawn, no job registered, no stage, no
    event); and the enhanced service, handed such a request, emits one
    failure event carrying the three messages and registers no job. *)
Theorem C4_empty_submission_rejected :
  forall (execute : nat -> Agents.AIAgent -> string -> option string -> Agents.Outcome)
         (nanoid : nat -> string)
         (runCrew : bool -> Utils.GenerationRequest -> Enhanced.CrewRun)
         (r f l : option string) (sv : Routes.Server) (sv' : Enhanced.Server)
         (jobId : string) (s : Enhanced.Service),
    Routes.falsy r = true -> Routes.falsy f = true -> Routes.falsy l = true ->
    Utils.validateGenerationRequest (Utils.mkPartial r f l)
    = [ "Requirements are required and cannot be empty";
        "Framework is required and cannot be empty";
        "Language is required and cannot be empty" ]%string
    /\ Routes.postGenerate execute nanoid (Routes.mkBody r f l) sv
       = (Routes.BadRequest "Missing required fields: requirements, framework, language", sv)
    /\ Enhanced.postGenerate runCrew nanoid (Routes.mkBody r f l) sv'
       = (Enhanced.BadRequest "Missing required fields: requirements, framework, language",
          sv')
    /\ Enhanced.activeJobs
         (Enhanced.startGeneration runCrew (Utils.mkRequest jobId "" "" "") s)
       = Enhanced.activeJobs s
    /\ Enhanced.emitted
         (Enhanced.startGeneration runCrew (Utils.mkRequest jobId "" "" "") s)
       = (Enhanced.emitted s ++
          [Enhanced.generation_failed jobId
             "Validation failed: Requirements are required and cannot be empty, Framework is required and cannot be empty, Language is required and cannot be empty"
             None])%list.
Proof.
  intros execute nanoid runCrew r f l sv sv' jobId s Hr Hf Hl.
  split; [by apply validate_all_empty |].
  split; [by apply postGenerate_rejects |].
  split; [by apply enhanced_postGenerate_rejects |].
  unfold Enhanced.startGeneration. rewrite beginGeneration_all_empty.
  split; reflexivity.
Qed.

Section EnhancedFlow.

Variable runCrew : bool -> Utils.GenerationRequest -> Enhanced.CrewRun.

Lemma beginGeneration_accepts request s :
  Utils.validateGenerationRequest (Utils.partial request) = [] ->
  Enhanced.beginGeneration request s
  = (Some (Enhanced.sanitizeRequest request),
     Enhanced.emit
       (Enhanced.generation_started (Utils.jobId request)
          (Enhanced.estimateGenerationTime
             (Utils.requirements (Enhanced.sanitizeRequest request))
             (Utils.framework (Enhanced.sanitizeRequest request))
             (Utils.language (Enhanced.sanitizeRequest request)))
          4 (Enhanced.sanitizeRequest request))
       (Enhanced.setJobs
          (<[Utils.jobId request :=
               Enhanced.mkJobInfo (Enhanced.sanitizeRequest request) (Enhanced.now s)
                 Enhanced.running None None None]> (Enhanced.activeJobs s)) s)).
Proof. intros H. unfold Enhanced.beginGeneration. by rewrite H. Qed.

Lemma beginGeneration_rejects request s :
  Utils.validateGenerationRequest (Utils.partial request) <> [] ->
  fst (Enhanced.beginGeneration request s) = None.
Proof.
  intros H. unfold Enhanced.beginGeneration.
  destruct (Utils.validateGenerationRequest (Utils.partial request)); [done | reflexivity].
Qed.

(** On success the artifacts are compiled from the request given. *)
Lemma finishGeneration_success jobId sr run s e :
  Enhanced.kickoff run = Enhanced.Returned true e ->
  exists d t,
    last (Enhanced.emitted (Enhanced.finishGeneration jobId sr run s))
    = Some (Enhanced.generation_completed jobId
              (Utils.compileCodeFiles
                 (map (fun r => Utils.mkOutput (Enhanced.agentRole r)
                                  (default "" (Enhanced.output r)))
                    (List.filter Enhanced.outputTruthy (Enhanced.getResults run))) sr)
              (map (fun r => Utils.mkOutput (Enhanced.agentRole r)
                               (default "" (Enhanced.output r)))
                 (List.filter Enhanced.outputTruthy (Enhanced.getResults run))) d t).
Proof.
  intros Hk. unfold Enhanced.finishGeneration. rewrite Hk.
  eexists _, _. simpl. by rewrite last_snoc.
Qed.

End EnhancedFlow.

(** C10.  For a submission the enhanced service accepts (validation
    reports nothing), the request that drives the stages is the
    sanitized one: it is what [startGeneration] registers for the job,
    announces in [generation_started], builds the crew from and compiles
    the artifacts from.  Each of its three fields is the submitted
    field trimmed, then with every '<' and '>' removed, then with every
    run of three or more line feeds collapsed to exactly two, then
    truncated to at most 10,000 characters; so it contains no angle
    bracket and no run of three line feeds and is at most 10,000
    characters long. *)
Theorem C10_request_is_sanitized :
  forall (runCrew : bool -> Utils.GenerationRequest -> Enhanced.CrewRun)
         (request : Utils.GenerationRequest) (s : Enhanced.Service),
    Utils.validateGenerationRequest (Utils.partial request) = [] ->
    let sr := Enhanced.sanitizeRequest request in
    let s1 := snd (Enhanced.beginGeneration request s) in
    fst (Enhanced.beginGeneration request s) = Some sr
    /\ Enhanced.request <$> (Enhanced.activeJobs s1 !! Utils.jobId request) = Some sr
    /\ (exists t,
          last (Enhanced.emitted s1)
          = Some (Enhanced.generation_started (Utils.jobId request) t 4 sr))
    /\ Enhanced.startGeneration runCrew request s
       = Enhanced.cleanUpLater (Utils.jobId request)
           (Enhanced.finishGeneration (Utils.jobId request) sr
              (runCrew (Enhanced.cerebras s1) sr) s1)
    /\ (forall run e,
          Enhanced.kickoff run = Enhanced.Returned true e ->
          exists outs d t,
            last (Enhanced.emitted
                    (Enhanced.finishGeneration (Utils.jobId request) sr run s1))
            = Some (Enhanced.generation_completed (Utils.jobId request)
                      (Utils.compileCodeFiles outs sr) outs d t))
    /\ Utils.jobId sr = Utils.jobId request
    /\ Forall2
         (fun submitted used =>
            used = Utils.sanitizeInput submitted
            /\ SanitizeSpec.SanitizedForm submitted used
            /\ Text.noAngle used = true
            /\ Text.noTripleNewline used = true
            /\ (String.length used <= tenThousand)%nat)
         [Utils.requirements request; Utils.framework request; Utils.language request]
         [Utils.requirements sr; Utils.framework sr; Utils.language sr].
Proof.
  intros runCrew request s Hvalid sr s1.
  assert (Enhanced.beginGeneration request s = (Some sr, s1)) as Hbegin.
  { subst s1. by rewrite (beginGeneration_accepts request s Hvalid). }
  split; [by rewrite Hbegin |].
  split.
  { subst s1. rewrite (beginGeneration_accepts request s Hvalid). simpl.
    by rewrite lookup_insert_eq. }
  split.
  { subst s1. rewrite (beginGeneration_accepts request s Hvalid). simpl.
    eexists. by rewrite last_snoc. }
  split.
  { unfold Enhanced.startGeneration. by rewrite Hbegin. }
  split.
  { intros run e Hk.
    destruct (finishGeneration_success (Utils.jobId request) sr run s1 e Hk)
      as (d & t & H).
    eauto. }
  split; [reflexivity |].
  assert (forall x,
             Utils.sanitizeInput x = Utils.sanitizeInput x
             /\ SanitizeSpec.SanitizedForm x (Utils.sanitizeInput x)
             /\ Text.noAngle (Utils.sanitizeInput x) = true
             /\ Text.noTripleNewline (Utils.sanitizeInput x) = true
             /\ (String.length (Utils.sanitizeInput x) <= tenThousand)%nat) as Hfield.
  { intros x.
    auto using sanitizeInput_form, sanitizeInput_noAngle,
      sanitizeInput_noTripleNewline, sanitizeInput_length. }
  constructor; [apply Hfield |].
  constructor; [apply Hfield |].
  constructor; [apply Hfield |].
  constructor.
Qed.

(** ** The extension table and the artifact assembly *)

Section Artifacts.

Local Open Scope nat_scope.
Local Arguments String.append !_ _ / : simpl nomatch.

Lemma lowerChar_idem c : JS.lowerChar (JS.lowerChar c) = JS.lowerChar c.
Proof. destruct c as [[] [] [] [] [] [] [] []]; reflexivity. Qed.

Lemma toLowerCase_idem s : JS.toLowerCase (JS.toLowerCase s) = JS.toLowerCase s.
Proof. induction s as [|c s IH]; simpl; [reflexivity | by rewrite lowerChar_idem, IH]. Qed.

Lemma lowerChar_not_T c : Ascii.eqb (JS.lowerChar c) "T" = false.
Proof. destruct c as [[] [] [] [] [] [] [] []]; reflexivity. Qed.

Lemma assoc_In k kvs v : JS.assoc k kvs = Some v -> In (k, v) kvs.
Proof.
  induction kvs as [|[k' v'] kvs IH]; simpl; [discriminate |].
  destruct (String.eqb k k') eqn:E.
  - apply String.eqb_eq in E. intros [= ->]. left. by subst.
  - intros H. right. by apply IH.
Qed.

Lemma inString_In k ks : JS.inString k ks = true -> In k ks.
Proof.
  unfold JS.inString. intros (x & Hx & E)%existsb_exists.
  apply String.eqb_eq in E. by subst.
Qed.

(** What [obj[key] || dflt] can be. *)
Lemma getPropOr_range own key dflt :
  In (JS.getPropOr own key dflt)
    (JS.VStr dflt :: map (fun kv => JS.VStr (snd kv)) own
       ++ map JS.VInherited JS.objectPrototypeKeys).
Proof.
  unfold JS.getPropOr, JS.getProp.
  destruct (JS.assoc key own) as [v|] eqn:E.
  - destruct (JS.truthy v); [| by left].
    right. apply in_or_app. left. apply assoc_In in E.
    by apply (in_map (fun kv => JS.VStr (snd kv))) in E.
  - destruct (JS.inString key JS.objectPrototypeKeys) eqn:E'; [| by left].
    right. apply in_or_app. right. apply in_map. by apply inString_In.
Qed.



Lemma getPropOr_inherited own key dflt :
  JS.assoc key own = None -> JS.inString key JS.objectPrototypeKeys = true ->
  JS.getPropOr own key dflt = JS.VInherited key.
Proof. intros H1 H2. unfold JS.getPropOr, JS.getProp. by rewrite H1, H2. Qed.

(** Every extension the table can yield, as text. *)
Lemma fileExtension_not_md language :
  Text.endsWith ".md" ("tests." ++ JS.toString (Utils.getFileExtension language)) = false.
Proof.
  pose proof (getPropOr_range Utils.extensions (JS.toLowerCase language) "txt") as H.
  change (JS.getPropOr Utils.extensions (JS.toLowerCase language) "txt")
    with (Utils.getFileExtension language) in H.
  revert H. generalize (Utils.getFileExtension language). intros v H.
  assert (Forall (fun v => Text.endsWith ".md" ("tests." ++ JS.toString v) = false)
            (JS.VStr "txt" :: map (fun kv => JS.VStr (snd kv)) Utils.extensions
               ++ map JS.VInherited JS.objectPrototypeKeys)) as Hall.
  { vm_compute. repeat constructor. }
  rewrite Forall_forall in Hall. apply Hall. by apply list_elem_of_In.
Qed.

Lemma endsWith_append k suffix : Text.endsWith suffix (k ++ suffix) = true.
Proof.
  induction k as [|c k IH]; simpl.
  - destruct suffix; simpl; [reflexivity |]. by rewrite Ascii.eqb_refl, String.eqb_refl.
  - rewrite IH. apply orb_true_r.
Qed.

Lemma allChars_replaceSpaceRuns P rep b s :
  Text.allChars P rep = true -> Text.allChars P s = true ->
  Text.allChars P (JS.replaceSpaceRuns rep b s) = true.
Proof.
  intros Hrep. revert b. induction s as [|c s IH]; intros b; simpl; [reflexivity |].
  intros [Hc Hs]%andb_prop.
  destruct (JS.isWhiteSpace c).
  - destruct b; [by apply IH |]. rewrite allChars_append, Hrep. by apply IH.
  - simpl. rewrite Hc. by apply IH.
Qed.

Lemma allChars_toLowerCase s :
  Text.allChars (fun c => negb (Ascii.eqb c "T")) (JS.toLowerCase s) = true.
Proof.
  induction s as [|c s IH]; simpl; [reflexivity |].
  by rewrite lowerChar_not_T, IH.
Qed.

(** The file name of the [default] branch: never one of the QA files. *)
Lemma defaultKey_not_testPlan r :
  (JS.replaceSpaceRuns "_" false (JS.toLowerCase r) ++ ".md")%string <> "TEST_PLAN.md"%string.
Proof.
  intros H.
  assert (Text.allChars (fun c => negb (Ascii.eqb c "T"))
            (JS.replaceSpaceRuns "_" false (JS.toLowerCase r) ++ ".md") = true) as Hno.
  { rewrite allChars_append. rewrite allChars_replaceSpaceRuns;
      [reflexivity | reflexivity | apply allChars_toLowerCase]. }
  rewrite H in Hno. discriminate.
Qed.

Lemma defaultKey_not_tests r language :
  (JS.replaceSpaceRuns "_" false (JS.toLowerCase r) ++ ".md")%string
  <> ("tests." ++ JS.toString (Utils.getFileExtension language))%string.
Proof.
  intros H. pose proof (fileExtension_not_md language) as Hno.
  rewrite <- H in Hno. by rewrite endsWith_append in Hno.
Qed.

(** One step of the assembly at the two QA file names. *)
Lemma compileStep_testPlan request language files o :
  Utils.compileStep request (JS.toString (Utils.getFileExtension language)) files o
    !! "TEST_PLAN.md"%string
  = if Text.isQaOutput o then Some (Utils.content o) else files !! "TEST_PLAN.md"%string.
Proof.
  unfold Utils.compileStep, Text.isQaOutput.
  destruct (String.eqb (JS.toLowerCase (Utils.role o)) "product manager") eqn:E1.
  { apply String.eqb_eq in E1. rewrite E1. simpl. by rewrite lookup_insert_ne. }
  destruct (String.eqb (JS.toLowerCase (Utils.role o)) "solution architect") eqn:E2.
  { apply String.eqb_eq in E2. rewrite E2. simpl. by rewrite lookup_insert_ne. }
  destruct (String.eqb (JS.toLowerCase (Utils.role o)) "senior developer") eqn:E3.
  { apply String.eqb_eq in E3. rewrite E3. simpl.
    rewrite !lookup_insert_ne; [reflexivity | discriminate ..]. }
  destruct (String.eqb (JS.toLowerCase (Utils.role o)) "qa engineer") eqn:E4.
  { by rewrite lookup_insert_eq. }
  rewrite lookup_insert_ne; [reflexivity | apply defaultKey_not_testPlan].
Qed.

Lemma compileStep_tests request language files o :
  Utils.compileStep request (JS.toString (Utils.getFileExtension language)) files o
    !! ("tests." ++ JS.toString (Utils.getFileExtension language))%string
  = if Text.isQaOutput o then Some (Utils.content o)
    else files !! ("tests." ++ JS.toString (Utils.getFileExtension language))%string.
Proof.
  unfold Utils.compileStep, Text.isQaOutput.
  destruct (String.eqb (JS.toLowerCase (Utils.role o)) "product manager") eqn:E1.
  { apply String.eqb_eq in E1. rewrite E1. simpl. by rewrite lookup_insert_ne. }
  destruct (String.eqb (JS.toLowerCase (Utils.role o)) "solution architect") eqn:E2.
  { apply String.eqb_eq in E2. rewrite E2. simpl. by rewrite lookup_insert_ne. }
  destruct (String.eqb (JS.toLowerCase (Utils.role o)) "senior developer") eqn:E3.
  { apply String.eqb_eq in E3. rewrite E3. simpl.
    rewrite !lookup_insert_ne; [reflexivity | discriminate ..]. }
  destruct (String.eqb (JS.toLowerCase (Utils.role o)) "qa engineer") eqn:E4.
  { rewrite lookup_insert_ne by discriminate. by rewrite lookup_insert_eq. }
  rewrite lookup_insert_ne; [reflexivity | apply defaultKey_not_tests].
Qed.

(** The assembly at a key that every step treats alike: the last output
    that writes the key decides. *)
Lemma fold_compileStep_last request ext (key : string) (writes : Utils.AgentOutput -> bool) :
  (forall files o,
      Utils.compileStep request ext files o !! key
      = if writes o then Some (Utils.content o) else files !! key) ->
  forall outputs files,
    fold_left (Utils.compileStep request ext) outputs files !! key
    = match last (List.filter writes outputs) with
      | Some o => Some (Utils.content o)
      | None => files !! key
      end.
Proof.
  intros Hstep outputs.
  induction outputs as [|o outputs IH]; intros files; simpl; [reflexivity |].
  rewrite IH, Hstep.
  destruct (writes o) eqn:E; [| reflexivity].
  simpl. destruct (List.filter writes outputs) as [|o' rest] eqn:Ef; [reflexivity |].
  change (last (o :: o' :: rest)) with (last (o' :: rest)).
  destruct (last (o' :: rest)) eqn:El; [reflexivity |].
  by apply last_None in El.
Qed.

End Artifacts.

(** C9.  Whenever the agent outputs contain a QA Engineer output (the
    role is compared without regard to case), the assembled artifact map
    has a [TEST_PLAN.md] entry and a [tests.<ext>] entry with exactly
    the same content: the raw output of the QA stage (of the last one,
    should there be several). *)
Theorem C9_test_plan_same_as_tests :
  forall (agentOutputs : list Utils.AgentOutput) (request : Utils.GenerationRequest),
    (exists o, In o agentOutputs /\ Text.isQaOutput o = true) ->
    let files := Utils.compileCodeFiles agentOutputs request in
    let ext := JS.toString (Utils.getFileExtension (Utils.language request)) in
    exists qa,
      last (List.filter Text.isQaOutput agentOutputs) = Some qa
      /\ files !! "TEST_PLAN.md"%string = Some (Utils.content qa)
      /\ files !! ("tests." ++ ext)%string = Some (Utils.content qa)
      /\ files !! "TEST_PLAN.md"%string = files !! ("tests." ++ ext)%string.
Proof.
  intros agentOutputs request (o & Hin & Hqa) files ext.
  destruct (last (List.filter Text.isQaOutput agentOutputs)) as [qa|] eqn:El.
  - exists qa. subst files ext. unfold Utils.compileCodeFiles.
    rewrite (fold_compileStep_last request _ "TEST_PLAN.md" Text.isQaOutput)
      by (intros; apply compileStep_testPlan).
    rewrite (fold_compileStep_last request _ _ Text.isQaOutput)
      by (intros; apply compileStep_tests).
    by rewrite El.
  - apply last_None in El.
    assert (In o (List.filter Text.isQaOutput agentOutputs)) as Hf
      by (apply filter_In; by split).
    rewrite El in Hf. destruct Hf.
Qed.

(** ** Eviction timers *)

Section Timers.

Context {V : Type}.

Lemma Forall_list_filter {A} (P : A -> Prop) (f : A -> bool) (l : list A) :
  Forall P l -> Forall P (List.filter f l).
Proof.
  induction 1 as [|x l Hx Hl IH]; simpl; [constructor |].
  destruct (f x); [by constructor | assumption].
Qed.

(** Callbacks for other ids leave an entry alone. *)
Lemma expire_lookup_other (k : string) (tms : list (N * string)) (m : gmap string V) :
  Forall (fun tm => snd tm <> k) tms ->
  fold_left (fun m tm => delete (snd tm) m) tms m !! k = m !! k.
Proof.
  intros H. revert m. induction H as [|tm tms Htm Htms IH]; intros m; simpl.
  - reflexivity.
  - rewrite IH. by apply lookup_delete_ne.
Qed.

(** A callback for the id removes the entry. *)
Lemma expire_lookup_due (k : string) (tms : list (N * string)) (m : gmap string V) :
  Exists (fun tm => snd tm = k) tms ->
  fold_left (fun m tm => delete (snd tm) m) tms m !! k = None.
Proof.
  assert (forall (tms : list (N * string)) (m : gmap string V), m !! k = None ->
            fold_left (fun m tm => delete (snd tm) m) tms m !! k = None) as Hnone.
  { clear tms m. intros tms. induction tms as [|tm tms IH]; intros m Hm; simpl.
    - assumption.
    - apply IH. destruct (decide (snd tm = k)) as [->|Hne].
      + apply lookup_delete_eq.
      + by rewrite lookup_delete_ne. }
  intros H. revert m. induction H as [tm tms Htm|tm tms Htms IH]; intros m; simpl.
  - apply Hnone. rewrite Htm. apply lookup_delete_eq.
  - apply IH.
Qed.

End Timers.

(** ** The enhanced service: cancellation *)

Section Cancel.

(** Cancelling a job that has completed or failed changes nothing. *)
Lemma cancelJob_finished jobId s job :
  Enhanced.activeJobs s !! jobId = Some job ->
  Enhanced.status job = Enhanced.completed \/ Enhanced.status job = Enhanced.failed ->
  Enhanced.cancelJob jobId s = (Enhanced.ErrorResponse "Job already finished" (Enhanced.now s), s).
Proof.
  intros Hjob Hst. unfold Enhanced.cancelJob. rewrite Hjob.
  by destruct Hst as [-> | ->].
Qed.

(** Cancelling a job that is already cancelled cancels it again. *)
Lemma cancelJob_cancelled jobId s job :
  Enhanced.activeJobs s !! jobId = Some job ->
  Enhanced.status job = Enhanced.cancelled ->
  Enhanced.cancelJob jobId s
  = (Enhanced.SuccessResponse (Enhanced.CancelData jobId Enhanced.cancelled) (Enhanced.now s),
     Enhanced.emit
       (Enhanced.generation_failed jobId "Job cancelled by user" (Some (Enhanced.now s)))
       (Enhanced.setJobs
          (<[jobId := Enhanced.setEndTime (Enhanced.now s)
                        (Enhanced.setStatus Enhanced.cancelled job)]>
             (Enhanced.activeJobs s)) s)).
Proof.
  intros Hjob Hst. unfold Enhanced.cancelJob. rewrite Hjob. by rewrite Hst.
Qed.

End Cancel.

(** C6 (the code departs from the claim).  Cancelling a job that has
    completed or failed answers "Job already finished" and changes
    nothing.  Cancelling a job that is already cancelled does not: the
    call answers with success, sets the job's end time to the time of
    the call and emits one more failure event. *)
Theorem C6_cancel_of_an_ended_job jobId s job :
  Enhanced.activeJobs s !! jobId = Some job ->
  (Enhanced.status job = Enhanced.completed \/ Enhanced.status job = Enhanced.failed ->
   Enhanced.cancelJob jobId s
   = (Enhanced.ErrorResponse "Job already finished" (Enhanced.now s), s))
  /\ (Enhanced.status job = Enhanced.cancelled ->
      Enhanced.cancelJob jobId s
      = (Enhanced.SuccessResponse (Enhanced.CancelData jobId Enhanced.cancelled)
           (Enhanced.now s),
         Enhanced.emit
           (Enhanced.generation_failed jobId "Job cancelled by user"
              (Some (Enhanced.now s)))
           (Enhanced.setJobs
              (<[jobId := Enhanced.setEndTime (Enhanced.now s)
                            (Enhanced.setStatus Enhanced.cancelled job)]>
                 (Enhanced.activeJobs s)) s))).
Proof.
  intros Hjob. split.
  - by apply cancelJob_finished.
  - by apply cancelJob_cancelled.
Qed.

(** ** Agents without a credential *)

Section Fallback.

Lemma executeWithModel_noCredential w call this prompt context :
  Agents.noCredential w = true ->
  Agents.executeWithModel w call this prompt context
  = {| Agents.latency := 0%N;
       Agents.result := inl (Agents.generateRoleSpecificResponse this prompt context) |}.
Proof. intros H. unfold Agents.executeWithModel. by rewrite H. Qed.

Lemma processAgent_noCredential w call t agent request previous :
  Agents.noCredential w = true ->
  CodeGen.content (snd (CodeGen.processAgent w call t agent request previous))
  = CodeGen.generateRealisticResponse agent request previous.
Proof. intros H. unfold CodeGen.processAgent. by rewrite H. Qed.

(** The canned text depends on the role alone. *)
Lemma generateRoleSpecificResponse_role a b p c q d :
  Agents.role a = Agents.role b ->
  Agents.generateRoleSpecificResponse a p c = Agents.generateRoleSpecificResponse b q d.
Proof. intros H. unfold Agents.generateRoleSpecificResponse. by rewrite H. Qed.

Lemma canned_responses prompt context :
  map (fun a => Agents.generateRoleSpecificResponse a prompt context) Agents.createAgents
  = [ JS.VStr Agents.productManagerResponse; JS.VStr Agents.solutionArchitectResponse;
      JS.VStr Agents.seniorDeveloperResponse; JS.VStr Agents.qaEngineerResponse ].
Proof. reflexivity. Qed.

Lemma canned_responses_differ :
  NoDup [ Agents.productManagerResponse; Agents.solutionArchitectResponse;
          Agents.seniorDeveloperResponse; Agents.qaEngineerResponse ].
Proof. apply (bool_decide_unpack _). vm_compute. reflexivity. Qed.

End Fallback.

(** C8.  Without a credential (none, or an empty one) an agent's
    [execute] never rejects and its answer is the canned text of the
    agent's role: whatever the model endpoint and the random number
    generator would do, and at whichever call, the result is the same
    value, fixed by the role alone.  For the four agents of the service
    these are the four canned texts, all different.  The same holds for
    [execute] of the mock agents (with or without a credential) and for
    the content [processAgent] returns in simulation mode. *)
Theorem C8_canned_fallback_deterministic :
  forall (w1 w2 : Agents.World) (call1 call2 : nat) (this : Agents.AIAgent)
         (prompt : string) (context : option string),
    Agents.noCredential w1 = true ->
    Agents.noCredential w2 = true ->
    Agents.result (Agents.executeWithModel w1 call1 this prompt context)
    = inl (Agents.generateRoleSpecificResponse this prompt context)
    /\ Agents.result (Agents.executeWithModel w2 call2 this prompt context)
       = Agents.result (Agents.executeWithModel w1 call1 this prompt context)
    /\ Agents.result (Agents.execute w1 call1 this prompt context)
       = inl (Agents.generateRoleSpecificResponse this prompt context)
    /\ Agents.result (Agents.execute w2 call2 this prompt context)
       = Agents.result (Agents.execute w1 call1 this prompt context)
    /\ (forall (other : Agents.AIAgent) (prompt' : string) (context' : option string),
          Agents.role other = Agents.role this ->
          Agents.generateRoleSpecificResponse other prompt' context'
          = Agents.generateRoleSpecificResponse this prompt context)
    /\ map (fun a => Agents.generateRoleSpecificResponse a prompt context)
         Agents.createAgents
       = [ JS.VStr Agents.productManagerResponse; JS.VStr Agents.solutionArchitectResponse;
           JS.VStr Agents.seniorDeveloperResponse; JS.VStr Agents.qaEngineerResponse ]
    /\ NoDup [ Agents.productManagerResponse; Agents.solutionArchitectResponse;
               Agents.seniorDeveloperResponse; Agents.qaEngineerResponse ]
    /\ (forall t1 t2 agent request previous,
          CodeGen.content (snd (CodeGen.processAgent w1 call1 t1 agent request previous))
          = CodeGen.generateRealisticResponse agent request previous
          /\ CodeGen.content (snd (CodeGen.processAgent w2 call2 t2 agent request previous))
             = CodeGen.content
                 (snd (CodeGen.processAgent w1 call1 t1 agent request previous))).
Proof.
  intros w1 w2 call1 call2 this prompt context H1 H2.
  rewrite !executeWithModel_noCredential by assumption. simpl.
  repeat split.
  - intros other prompt' context' Hrole. by apply generateRoleSpecificResponse_role.
  - apply canned_responses_differ.
  - by apply processAgent_noCredential.
  - by rewrite !processAgent_noCredential.
Qed.

(** ** The job runner (crew.ts) *)

Section CrewFacts.

Local Open Scope nat_scope.
Local Open Scope list_scope.

Import Crew.

(** *** Assignments and what they leave alone *)

Lemma map_alter_keep {A B} (g : A -> B) (f : A -> A) (i : nat) (l : list A) :
  (forall x, g (f x) = g x) -> map g (alter f i l) = map g l.
Proof.
  intros H. revert i. induction l as [|x l IH]; intros [|i]; simpl; try reflexivity.
  - by rewrite H.
  - f_equal. apply IH.
Qed.

Lemma map_alter_set {A B} (g : A -> B) (f : A -> A) (v : B) (i : nat) (l : list A) :
  (forall x, g (f x) = v) -> map g (alter f i l) = <[i := v]> (map g l).
Proof.
  intros H. revert i. induction l as [|x l IH]; intros [|i]; simpl; try reflexivity.
  - by rewrite H.
  - f_equal. apply IH.
Qed.

Lemma statuses_setStatus i v j :
  statuses (setTask i (setTaskStatus v) j) = <[i := v]> (statuses j).
Proof. unfold statuses. simpl. by apply map_alter_set. Qed.
Lemma statuses_setOutput i v j : statuses (setTask i (setTaskOutput v) j) = statuses j.
Proof. unfold statuses. simpl. by apply map_alter_keep. Qed.
Lemma statuses_setStartTime i v j : statuses (setTask i (setTaskStartTime v) j) = statuses j.
Proof. unfold statuses. simpl. by apply map_alter_keep. Qed.
Lemma statuses_setEndTime i v j : statuses (setTask i (setTaskEndTime v) j) = statuses j.
Proof. unfold statuses. simpl. by apply map_alter_keep. Qed.
Lemma statuses_setCurrentAgent v j : statuses (setCurrentAgent v j) = statuses j.
Proof. reflexivity. Qed.
Lemma statuses_setJobProgress v j : statuses (setJobProgress v j) = statuses j.
Proof. reflexivity. Qed.
Lemma statuses_setJobStatus v j : statuses (setJobStatus v j) = statuses j.
Proof. reflexivity. Qed.

Lemma statics_setTask i f j :
  (forall t, static (f t) = static t) -> statics (setTask i f j) = statics j.
Proof. intros H. unfold statics. simpl. by apply map_alter_keep. Qed.
Lemma statics_setStatus i v j : statics (setTask i (setTaskStatus v) j) = statics j.
Proof. by apply statics_setTask. Qed.
Lemma statics_setOutput i v j : statics (setTask i (setTaskOutput v) j) = statics j.
Proof. by apply statics_setTask. Qed.
Lemma statics_setStartTime i v j : statics (setTask i (setTaskStartTime v) j) = statics j.
Proof. by apply statics_setTask. Qed.
Lemma statics_setEndTime i v j : statics (setTask i (setTaskEndTime v) j) = statics j.
Proof. by apply statics_setTask. Qed.
Lemma statics_setCurrentAgent v j : statics (setCurrentAgent v j) = statics j.
Proof. reflexivity. Qed.
Lemma statics_setJobProgress v j : statics (setJobProgress v j) = statics j.
Proof. reflexivity. Qed.
Lemma statics_setJobStatus v j : statics (setJobStatus v j) = statics j.
Proof. reflexivity. Qed.

Lemma outputs_setOutput i v j :
  outputs (setTask i (setTaskOutput v) j) = <[i := Some v]> (outputs j).
Proof. unfold outputs. simpl. by apply map_alter_set. Qed.
Lemma outputs_setStatus i v j : outputs (setTask i (setTaskStatus v) j) = outputs j.
Proof. unfold outputs. simpl. by apply map_alter_keep. Qed.
Lemma outputs_setStartTime i v j : outputs (setTask i (setTaskStartTime v) j) = outputs j.
Proof. unfold outputs. simpl. by apply map_alter_keep. Qed.
Lemma outputs_setEndTime i v j : outputs (setTask i (setTaskEndTime v) j) = outputs j.
Proof. unfold outputs. simpl. by apply map_alter_keep. Qed.
Lemma outputs_setCurrentAgent v j : outputs (setCurrentAgent v j) = outputs j.
Proof. reflexivity. Qed.
Lemma outputs_setJobProgress v j : outputs (setJobProgress v j) = outputs j.
Proof. reflexivity. Qed.
Lemma outputs_setJobStatus v j : outputs (setJobStatus v j) = outputs j.
Proof. reflexivity. Qed.

Lemma job_status_setTask i f j : job_status (setTask i f j) = job_status j.
Proof. reflexivity. Qed.
Lemma job_status_setCurrentAgent v j : job_status (setCurrentAgent v j) = job_status j.
Proof. reflexivity. Qed.
Lemma job_status_setJobProgress v j : job_status (setJobProgress v j) = job_status j.
Proof. reflexivity. Qed.
Lemma job_status_setJobStatus v j : job_status (setJobStatus v j) = v.
Proof. reflexivity. Qed.

(** *** Status lists *)

Lemma insert_boundary {A} (a x y b : A) (i m : nat) :
  <[i := y]> (replicate i a ++ x :: replicate m b) = replicate i a ++ y :: replicate m b.
Proof. induction i as [|i IH]; simpl; [reflexivity | by rewrite IH]. Qed.

Lemma replicate_snoc {A} (a : A) (i : nat) (l : list A) :
  replicate i a ++ a :: l = replicate (S i) a ++ l.
Proof. induction i as [|i IH]; simpl; [reflexivity | by rewrite IH]. Qed.

Lemma sequential_running a b :
  sequential (replicate a completed ++ in_progress :: replicate b pending).
Proof. exists a, [in_progress], b. split; [reflexivity | auto]. Qed.

Lemma sequential_failed a b :
  sequential (replicate a completed ++ failed :: replicate b pending).
Proof. exists a, [failed], b. split; [reflexivity | auto]. Qed.

Lemma sequential_idle a b :
  sequential (replicate a completed ++ replicate b pending).
Proof. exists a, [], b. split; [reflexivity | auto]. Qed.

Lemma count_replicate_other (v w : Status) n :
  Status_eqb v w = false ->
  List.length (List.filter (fun x => Status_eqb x w) (replicate n v)) = 0.
Proof. intros H. induction n as [|n IH]; simpl; [reflexivity | by rewrite H]. Qed.

(** In a sequential status list at most one stage is in progress. *)
Lemma sequential_inProgress (j : JobStatus) :
  sequential (statuses j) -> inProgressCount j <= 1.
Proof.
  intros (a & mid & b & Hl & Hmid).
  assert (inProgressCount j
          = List.length (List.filter (fun x => Status_eqb x in_progress) (statuses j))) as ->.
  { unfold inProgressCount, statuses.
    induction (job_tasks j) as [|t l IH]; simpl; [reflexivity |].
    destruct (Status_eqb (task_status t) in_progress); simpl; by rewrite IH. }
  rewrite Hl, !List.filter_app, !length_app.
  rewrite !count_replicate_other by reflexivity.
  destruct Hmid as [-> | [-> | ->]]; simpl; lia.
Qed.

Lemma pendingFrom_mid a x b :
  pendingFrom (S a) (replicate a completed ++ x :: replicate b pending).
Proof.
  intros k Hk Hlen. rewrite lookup_app_r by (rewrite length_replicate; lia).
  rewrite length_replicate. destruct (k - a) as [|d] eqn:E; [lia |].
  simpl. apply lookup_replicate_2.
  rewrite length_app, length_replicate in Hlen. simpl in Hlen.
  rewrite length_replicate in Hlen. lia.
Qed.

Lemma pendingFrom_idle a b :
  pendingFrom a (replicate a completed ++ replicate b pending).
Proof.
  intros k Hk Hlen. rewrite lookup_app_r by (rewrite length_replicate; lia).
  rewrite length_replicate. apply lookup_replicate_2.
  rewrite length_app, !length_replicate in Hlen. lia.
Qed.

Lemma pendingFrom_weaken i i' l : i <= i' -> pendingFrom i l -> pendingFrom i' l.
Proof. intros Hle H k Hk Hlen. apply H; lia. Qed.

(** *** Timers and the registry *)

Lemma expire_other k t tms (m : gmap string nat) :
  Forall (fun tm => snd tm <> k) tms -> expire t tms m !! k = m !! k.
Proof. intros H. unfold expire. by apply expire_lookup_other, Forall_list_filter. Qed.

Lemma remaining_other k t tms :
  Forall (fun tm : N * string => snd tm <> k) tms ->
  Forall (fun tm => snd tm <> k) (remaining t tms).
Proof. apply Forall_list_filter. Qed.

End CrewFacts.

Section CrewStage.

Local Open Scope nat_scope.
Local Open Scope list_scope.

Import Crew.

Variable execute : nat -> Agents.AIAgent -> string -> option string -> Agents.Outcome.
Variable request : GenerationRequest.
Variable r : nat.

Local Opaque setTask setTaskStatus setTaskOutput setTaskStartTime setTaskEndTime
  setCurrentAgent setJobProgress setJobStatus.

Lemma Kept_refl jid s : Kept jid s s.
Proof. intros H. by split. Qed.

Lemma Kept_trans jid s1 s2 s3 : Kept jid s1 s2 -> Kept jid s2 s3 -> Kept jid s1 s3.
Proof.
  intros H12 H23 H1. destruct (H12 H1) as [H2 E2]. destruct (H23 H2) as [H3 E3].
  split; [assumption | congruence].
Qed.

Lemma Kept_same jid s s' :
  timers s' = timers s -> activeJobs s' = activeJobs s -> Kept jid s s'.
Proof. intros Ht Ha H. unfold noTimer. rewrite Ht, Ha. by split. Qed.

Lemma Kept_sleep jid dt s : Kept jid s (sleep dt s).
Proof.
  intros H. split.
  - unfold noTimer. simpl. by apply remaining_other.
  - simpl. by apply expire_other.
Qed.

Local Abbreviation Eff := (Crew.Eff r).

Lemma Eff_refl s : Eff s s [] [] [].
Proof. exists []. rewrite app_nil_r. split_and!; auto using Kept_refl. Qed.

Lemma Eff_step s s1 s2 o a b c :
  Eff s s1 a b c ->
  trace s2 = trace s1 ++ [o] ->
  (forall jid, Kept jid s1 s2) ->
  Eff s s2 (a ++ snapshots r [o]) (b ++ invocations r [o]) (c ++ stageEvents [o]).
Proof.
  intros (delta & Ht & Ha & Hb & Hc & Hk) Ht2 Hk2.
  exists (delta ++ [o]). rewrite Ht2, Ht, <- app_assoc.
  unfold snapshots, invocations, stageEvents in *. rewrite !omap_app, Ha, Hb, Hc.
  split_and!; try reflexivity. intros jid. eapply Kept_trans; [apply Hk | apply Hk2].
Qed.

Lemma Eff_silent s s1 s2 a b c :
  Eff s s1 a b c ->
  trace s2 = trace s1 ->
  (forall jid, Kept jid s1 s2) ->
  Eff s s2 a b c.
Proof.
  intros (delta & Ht & Ha & Hb & Hc & Hk) Ht2 Hk2.
  exists delta. rewrite Ht2, Ht. split_and!; try done.
  intros jid. eapply Kept_trans; [apply Hk | apply Hk2].
Qed.

Lemma Eff_write s s1 j a b c :
  Eff s s1 a b c -> Eff s (write r j s1) (a ++ [j]) b c.
Proof.
  intros H. pose proof (Eff_step s s1 (write r j s1) (Mutated r j) a b c H) as H'.
  unfold snapshots, invocations, stageEvents in H'. simpl in H'.
  rewrite Nat.eqb_refl, !app_nil_r in H'. apply H'; [reflexivity |].
  intros jid. by apply Kept_same.
Qed.

Lemma Eff_broadcast s s1 d a b c :
  Eff s s1 a b c ->
  Eff s (broadcastToClients d s1) a b
    (c ++ stageEvents [Sent {| data := d; ev_timestamp := now s1 |}]).
Proof.
  intros H.
  pose proof (Eff_step s s1 (broadcastToClients d s1)
                (Sent {| data := d; ev_timestamp := now s1 |}) a b c H) as H'.
  unfold snapshots, invocations in H'. simpl in H'. rewrite !app_nil_r in H'.
  apply H'; [reflexivity |]. intros jid. by apply Kept_same.
Qed.

Lemma Eff_invoked s s1 ag p cx o a b c :
  Eff s s1 a b c ->
  Eff s (emit (Invoked r ag p cx o) s1) a (b ++ [mkInvocation ag p cx o]) c.
Proof.
  intros H.
  pose proof (Eff_step s s1 (emit (Invoked r ag p cx o) s1) (Invoked r ag p cx o) a b c H)
    as H'.
  unfold snapshots, invocations, stageEvents in H'. simpl in H'.
  rewrite Nat.eqb_refl, !app_nil_r in H'. apply H'; [reflexivity |].
  intros jid. by apply Kept_same.
Qed.

Lemma Eff_countCall s s1 a b c : Eff s s1 a b c -> Eff s (countCall s1) a b c.
Proof.
  intros H. apply (Eff_silent s s1); [assumption | reflexivity |].
  intros jid. by apply Kept_same.
Qed.

Lemma Eff_sleep s s1 dt a b c : Eff s s1 a b c -> Eff s (sleep dt s1) a b c.
Proof.
  intros H. apply (Eff_silent s s1); [assumption | reflexivity |].
  intros jid. apply Kept_sleep.
Qed.

Lemma Eff_simulateProgress s jid ag steps : forall s1 a b c,
  Eff s s1 a b c ->
  Eff s (simulateProgress jid ag steps s1) a b (c ++ map (fun _ => Progress jid ag) steps).
Proof.
  induction steps as [|p steps IH]; intros s1 a b c H; simpl.
  - by rewrite app_nil_r.
  - replace (c ++ Progress jid ag :: map (fun _ => Progress jid ag) steps)
      with ((c ++ [Progress jid ag]) ++ map (fun _ => Progress jid ag) steps)
      by (by rewrite <- app_assoc).
    apply IH.
    apply (Eff_broadcast s (sleep 100%N s1) (agent_progress jid ag p)).
    by apply Eff_sleep.
Qed.

Lemma heap_simulateProgress jid ag steps s :
  heap (simulateProgress jid ag steps s) = heap s.
Proof. revert s. induction steps as [|p steps IH]; intros s; simpl; [reflexivity | by rewrite IH]. Qed.

Ltac eff :=
  repeat first
    [ apply Eff_refl | apply Eff_simulateProgress | apply Eff_broadcast
    | apply Eff_write | apply Eff_invoked | apply Eff_countCall | apply Eff_sleep ].

Ltac statuses_norm :=
  repeat first
    [ rewrite statuses_setStatus | rewrite statuses_setOutput
    | rewrite statuses_setStartTime | rewrite statuses_setEndTime
    | rewrite statuses_setCurrentAgent | rewrite statuses_setJobProgress
    | rewrite statuses_setJobStatus | rewrite list_insert_insert_eq ].

Ltac statics_norm :=
  repeat first
    [ rewrite statics_setStatus | rewrite statics_setOutput
    | rewrite statics_setStartTime | rewrite statics_setEndTime
    | rewrite statics_setCurrentAgent | rewrite statics_setJobProgress
    | rewrite statics_setJobStatus ].

Ltac outputs_norm :=
  repeat first
    [ rewrite outputs_setOutput | rewrite outputs_setStatus
    | rewrite outputs_setStartTime | rewrite outputs_setEndTime
    | rewrite outputs_setCurrentAgent | rewrite outputs_setJobProgress
    | rewrite outputs_setJobStatus ].

Ltac job_status_norm :=
  repeat first
    [ rewrite job_status_setTask | rewrite job_status_setCurrentAgent
    | rewrite job_status_setJobProgress | rewrite job_status_setJobStatus ].

Lemma assign_pair f job s : assign r f (job, s) = (f job, write r (f job) s).
Proof. reflexivity. Qed.

Lemma onService_pair g job (s : Service) : onService g (job, s) = (job, g s).
Proof. reflexivity. Qed.

Lemma heap_write j s : heap (write r j s) !! r = Some j.
Proof. apply lookup_insert_eq. Qed.

Ltac pairs := cbv zeta; repeat (first [rewrite assign_pair | rewrite onService_pair]; cbn [fst snd]).

(** The first part of a turn: the stage is marked as running. *)
Lemma startStage_spec i task agent job s :
  exists job' s' snaps,
    startStage request r i task agent (job, s) = (job', s')
    /\ Eff s s' snaps [] [Started (jobId request) (Agents.role agent)]
    /\ Forall (fun j => statuses j = <[i := in_progress]> (statuses job)) snaps
    /\ heap s' !! r = Some job'
    /\ calls s' = calls s
    /\ statuses job' = <[i := in_progress]> (statuses job)
    /\ statics job' = statics job
    /\ outputs job' = outputs job
    /\ job_status job' = job_status job.
Proof.
  unfold startStage. pairs.
  eexists _, _, _. split; [reflexivity |].
  split.
  { match goal with
    | |- Eff ?x ?y _ _ _ =>
        let H := fresh in
        eassert (Eff x y _ _ _) as H by eff;
        simpl app in H; simpl stageEvents in H; exact H
    end. }
  split.
  { repeat (apply Forall_cons; split; [by statuses_norm |]). constructor. }
  split; [cbn [heap broadcastToClients emit]; apply heap_write |].
  split; [reflexivity |].
  split_and!.
  - by statuses_norm.
  - by statics_norm.
  - by outputs_norm.
  - by job_status_norm.
Qed.

Lemma awaitExecute_spec task agent context o job s :
  exists s',
    awaitExecute r task agent context o (job, s) = (job, s')
    /\ Eff s s' [] [mkInvocation agent (task_description task) context o] []
    /\ heap s' = heap s.
Proof.
  unfold awaitExecute. pairs.
  eexists. split; [reflexivity |].
  split; [| reflexivity].
  match goal with
  | |- Eff ?x ?y _ _ _ =>
      let H := fresh in
      eassert (Eff x y _ _ _) as H by eff;
      simpl app in H; exact H
  end.
Qed.

(** After the agent has answered: the stage is marked as completed. *)
Lemma completeStage_spec i agent output job s :
  exists job' s' snaps,
    completeStage request r i agent output (job, s) = (job', s')
    /\ Eff s s' snaps []
         [Completed (jobId request) (Agents.role agent) output;
          Progress (jobId request) (Agents.role agent);
          Progress (jobId request) (Agents.role agent);
          Progress (jobId request) (Agents.role agent);
          Progress (jobId request) (Agents.role agent);
          Progress (jobId request) (Agents.role agent);
          Progress (jobId request) (Agents.role agent)]
    /\ Forall (fun j => statuses j = statuses job
                        \/ statuses j = <[i := completed]> (statuses job)) snaps
    /\ heap s' !! r = Some job'
    /\ statuses job' = <[i := completed]> (statuses job)
    /\ statics job' = statics job
    /\ outputs job' = <[i := Some output]> (outputs job)
    /\ job_status job' = job_status job.
Proof.
  unfold completeStage. pairs.
  eexists _, _, _. split; [reflexivity |].
  split.
  { unfold progressSteps.
    match goal with
    | |- Eff ?x ?y _ _ _ =>
        let H := fresh in
        eassert (Eff x y _ _ _) as H by eff;
        simpl app in H; simpl stageEvents in H; simpl map in H; exact H
    end. }
  split.
  { repeat (apply Forall_cons; split; [statuses_norm; auto |]). constructor. }
  split.
  { rewrite heap_simulateProgress. cbn [heap broadcastToClients emit]. apply heap_write. }
  split_and!.
  - by statuses_norm.
  - by statics_norm.
  - by outputs_norm.
  - by job_status_norm.
Qed.

(** After the agent has failed: the stage is marked as failed. *)
Lemma failStage_spec i job s :
  exists job' s' snaps,
    failStage r i (job, s) = (job', s')
    /\ Eff s s' snaps [] []
    /\ Forall (fun j => statuses j = <[i := failed]> (statuses job)) snaps
    /\ heap s' !! r = Some job'
    /\ statuses job' = <[i := failed]> (statuses job)
    /\ statics job' = statics job
    /\ job_status job' = job_status job.
Proof.
  unfold failStage. pairs.
  eexists _, _, _. split; [reflexivity |].
  split.
  { match goal with
    | |- Eff ?x ?y _ _ _ =>
        let H := fresh in
        eassert (Eff x y _ _ _) as H by eff;
        simpl app in H; exact H
    end. }
  split.
  { repeat (apply Forall_cons; split; [by statuses_norm |]). constructor. }
  split; [apply heap_write |].
  split_and!.
  - by statuses_norm.
  - by statics_norm.
  - by job_status_norm.
Qed.

Lemma Eff_trans s s1 s2 a b c a' b' c' :
  Eff s s1 a b c -> Eff s1 s2 a' b' c' -> Eff s s2 (a ++ a') (b ++ b') (c ++ c').
Proof.
  intros (d1 & Ht1 & Ha & Hb & Hc & Hk1) (d2 & Ht2 & Ha' & Hb' & Hc' & Hk2).
  exists (d1 ++ d2). rewrite Ht2, Ht1, <- app_assoc.
  unfold snapshots, invocations, stageEvents in *.
  rewrite !omap_app, Ha, Hb, Hc, Ha', Hb', Hc'.
  split_and!; try reflexivity.
  intros jid. eapply Kept_trans; [apply Hk1 | apply Hk2].
Qed.

(** What one turn of the loop does when the agent answers. *)
Lemma runStage_ok i task agent context job s output :
  Agents.result (execute (calls s) agent (task_description task) (Some context))
  = inl output ->
  exists job' s' snaps,
    runStage execute request r i task agent context (job, s)
    = (inl (context ++ contextEntry (Agents.role agent) output)%string, (job', s'))
    /\ Eff s s' snaps
         [mkInvocation agent (task_description task) context
            (execute (calls s) agent (task_description task) (Some context))]
         (stageBlock (jobId request) (Agents.role agent, output))
    /\ Forall (fun j => statuses j = <[i := in_progress]> (statuses job)
                        \/ statuses j = <[i := completed]> (statuses job)) snaps
    /\ heap s' !! r = Some job'
    /\ statuses job' = <[i := completed]> (statuses job)
    /\ statics job' = statics job
    /\ outputs job' = <[i := Some output]> (outputs job)
    /\ job_status job' = job_status job.
Proof.
  intros Hres.
  destruct (startStage_spec i task agent job s)
    as (j1 & s1 & sn1 & E1 & Heff1 & Hsn1 & Hheap1 & Hcalls1 & Hst1 & Hsc1 & Ho1 & Hjs1).
  destruct (awaitExecute_spec task agent context
              (execute (calls s) agent (task_description task) (Some context)) j1 s1)
    as (s2 & E2 & Heff2 & Hheap2).
  destruct (completeStage_spec i agent output j1 s2)
    as (j3 & s3 & sn3 & E3 & Heff3 & Hsn3 & Hheap3 & Hst3 & Hsc3 & Ho3 & Hjs3).
  exists j3, s3, (sn1 ++ [] ++ sn3).
  split.
  { unfold runStage. cbv zeta. rewrite E1. cbn [snd]. rewrite Hcalls1, E2, Hres.
    by rewrite E3. }
  split.
  { pose proof (Eff_trans _ _ _ _ _ _ _ _ _ Heff1
                  (Eff_trans _ _ _ _ _ _ _ _ _ Heff2 Heff3)) as H.
    exact H. }
  split.
  { simpl. apply Forall_app. split.
    - eapply Forall_impl; [exact Hsn1 |]. simpl. auto.
    - eapply Forall_impl; [exact Hsn3 |]. simpl. intros j [H | H]; rewrite H, Hst1.
      + by left.
      + right. by rewrite list_insert_insert_eq. }
  split; [assumption |].
  split_and!.
  - by rewrite Hst3, Hst1, list_insert_insert_eq.
  - by rewrite Hsc3.
  - by rewrite Ho3, Ho1.
  - by rewrite Hjs3.
Qed.

(** What one turn of the loop does when the agent fails. *)
Lemma runStage_fail i task agent context job s error :
  Agents.result (execute (calls s) agent (task_description task) (Some context))
  = inr error ->
  exists job' s' snaps,
    runStage execute request r i task agent context (job, s) = (inr error, (job', s'))
    /\ Eff s s' snaps
         [mkInvocation agent (task_description task) context
            (execute (calls s) agent (task_description task) (Some context))]
         [Started (jobId request) (Agents.role agent)]
    /\ Forall (fun j => statuses j = <[i := in_progress]> (statuses job)
                        \/ statuses j = <[i := failed]> (statuses job)) snaps
    /\ heap s' !! r = Some job'
    /\ statuses job' = <[i := failed]> (statuses job)
    /\ statics job' = statics job
    /\ job_status job' = job_status job.
Proof.
  intros Hres.
  destruct (startStage_spec i task agent job s)
    as (j1 & s1 & sn1 & E1 & Heff1 & Hsn1 & Hheap1 & Hcalls1 & Hst1 & Hsc1 & Ho1 & Hjs1).
  destruct (awaitExecute_spec task agent context
              (execute (calls s) agent (task_description task) (Some context)) j1 s1)
    as (s2 & E2 & Heff2 & Hheap2).
  destruct (failStage_spec i j1 s2)
    as (j3 & s3 & sn3 & E3 & Heff3 & Hsn3 & Hheap3 & Hst3 & Hsc3 & Hjs3).
  exists j3, s3, (sn1 ++ [] ++ sn3).
  split.
  { unfold runStage. cbv zeta. rewrite E1. cbn [snd]. rewrite Hcalls1, E2, Hres.
    by rewrite E3. }
  split.
  { pose proof (Eff_trans _ _ _ _ _ _ _ _ _ Heff1
                  (Eff_trans _ _ _ _ _ _ _ _ _ Heff2 Heff3)) as H.
    exact H. }
  split.
  { simpl. apply Forall_app. split.
    - eapply Forall_impl; [exact Hsn1 |]. simpl. auto.
    - eapply Forall_impl; [exact Hsn3 |]. simpl. intros j H. rewrite H, Hst1.
      right. by rewrite list_insert_insert_eq. }
  split; [assumption |].
  split_and!.
  - by rewrite Hst3, Hst1, list_insert_insert_eq.
  - by rewrite Hsc3.
  - by rewrite Hjs3.
Qed.

End CrewStage.

Section CrewLoop.

Local Open Scope nat_scope.
Local Open Scope list_scope.

Import Crew.

Variable execute : nat -> Agents.AIAgent -> string -> option string -> Agents.Outcome.
Variable request : GenerationRequest.
Variable r : nat.
Variable s0 : Service.
Variable ts0 : list Task.

(** Looking an agent up by its id finds the agent of the task. *)
Hypothesis agents_found :
  Forall (fun t => List.find (fun a => String.eqb (Agents.id a) (Agents.id (task_agent t)))
                     agents = Some (task_agent t)) ts0.

Lemma contextOf_snoc invs inv :
  contextOf (invs ++ [inv]) = (contextOf invs ++ entryOf inv)%string.
Proof.
  unfold contextOf. induction invs as [|a invs IH]; cbn [fold_right app].
  - by rewrite append_nil_r.
  - by rewrite IH, append_assoc.
Qed.

Lemma insert_at_length {A} (l l' : list A) (x y : A) (i : nat) :
  List.length l = i -> <[i := y]> (l ++ x :: l') = l ++ y :: l'.
Proof.
  intros <-. induction l as [|a l IH]; simpl; [reflexivity | by rewrite IH].
Qed.

Lemma static_lookup job i task :
  statics job = map static ts0 -> job_tasks job !! i = Some task ->
  exists t0, ts0 !! i = Some t0 /\ static task = static t0.
Proof.
  intros Hs Ht. unfold statics in Hs.
  assert (map static (job_tasks job) !! i = Some (static task)) as H
    by (by rewrite list_lookup_fmap, Ht).
  rewrite Hs, list_lookup_fmap in H.
  destruct (ts0 !! i) as [t0|]; [| discriminate].
  exists t0. split; [reflexivity |]. simpl in H. congruence.
Qed.

Lemma statuses_length job : List.length (statuses job) = List.length (job_tasks job).
Proof. unfold statuses. apply length_map. Qed.

Lemma statics_length job :
  statics job = map static ts0 -> List.length (job_tasks job) = List.length ts0.
Proof.
  intros H. apply (f_equal (@List.length _)) in H. unfold statics in H.
  by rewrite !length_map in H.
Qed.

(** The first [i] calls, once [i] stages are done. *)
Lemma invocations_length i new :
  i <= List.length ts0 -> Orderly (jobId request) r ts0 i new ->
  List.length (invocations r new) = i.
Proof.
  intros Hi H. pose proof (pr_agents _ _ _ _ _ H) as Ha.
  apply (f_equal (@List.length _)) in Ha.
  rewrite length_map, length_take, length_map in Ha. lia.
Qed.

(** The trace of one more call keeps the order. *)
Lemma Orderly_snoc i new snaps task inv evs delta m :
  List.length ts0 = i + S m ->
  Orderly (jobId request) r ts0 i new ->
  ts0 !! i = Some task ->
  inv_agent inv = task_agent task ->
  inv_prompt inv = task_description task ->
  inv_context inv = contextOf (invocations r new) ->
  snapshots r delta = snaps ->
  invocations r delta = [inv] ->
  stageEvents delta = evs ->
  evs = eventsOf (jobId request) inv ->
  Forall (fun j => exists x, statuses j
                             = replicate i completed ++ x :: replicate m pending) snaps ->
  Orderly (jobId request) r ts0 (S i) (new ++ delta).
Proof.
  intros Hlen H Htask Hag Hpr Hcx Hsn Hinv Hev Hevs Hsnaps.
  assert (List.length (invocations r new) = i) as Hn
    by (apply invocations_length; [lia | assumption]).
  destruct H as [Hs Ha Hp Hc He].
  unfold snapshots, invocations, stageEvents in *.
  split; unfold snapshots, invocations, stageEvents; rewrite ?omap_app, ?Hsn, ?Hinv, ?Hev.
  - apply Forall_app. split.
    + eapply Forall_impl; [exact Hs |]. simpl. intros j (H1 & H2 & H3).
      split_and!; [assumption | | assumption].
      eapply pendingFrom_weaken; [| exact H2]. lia.
    + eapply Forall_impl; [exact Hsnaps |]. simpl. intros j [x ->]. split_and!.
      * destruct x.
        -- exists i, [], (S m). by split; [| left].
        -- apply sequential_running.
        -- rewrite replicate_snoc. apply sequential_idle.
        -- apply sequential_failed.
      * apply pendingFrom_mid.
      * rewrite length_app, length_replicate. simpl. rewrite length_replicate. lia.
  - rewrite map_app, Ha. simpl. rewrite Hag.
    symmetry. apply take_S_r. by rewrite list_lookup_fmap, Htask.
  - rewrite map_app, Hp. simpl. rewrite Hpr.
    symmetry. apply take_S_r. by rewrite list_lookup_fmap, Htask.
  - intros k inv' Hk.
    destruct (decide (k < i)) as [Hlt | Hge].
    + rewrite lookup_app_l in Hk by lia.
      rewrite take_app_le by lia. by apply Hc.
    + rewrite lookup_app_r in Hk by lia.
      destruct (k - List.length (omap (invocationAt r) new)) as [|d] eqn:Ed;
        [| by destruct d].
      simpl in Hk. injection Hk as <-.
      assert (k = List.length (omap (invocationAt r) new)) as -> by lia.
      by rewrite take_app_length.
  - rewrite flat_map_app, He, Hevs. simpl. by rewrite app_nil_r.
Qed.

(** A turn of the loop in which the agent answers keeps the invariant. *)
Lemma turn_ok i m task context job s output :
  List.length ts0 = i + S m ->
  LoopInv (jobId request) r s0 ts0 i context (job, s) ->
  job_tasks job !! i = Some task ->
  Agents.result (execute (calls s) (task_agent task) (task_description task)
                   (Some context)) = inl output ->
  exists context' st',
    runStage execute request r i task (task_agent task) context (job, s)
    = (inl context', st')
    /\ LoopInv (jobId request) r s0 ts0 (S i) context' st'.
Proof.
  intros Hlen (new & Htrace & Hord & Hsucc & Hctx & Hheap & Hst & Hstatic & Hout & Hjs
               & Hkept) Htask Hres.
  cbn [fst snd] in *.
  destruct (runStage_ok execute request r i task (task_agent task) context job s output Hres)
    as (job' & s' & snaps & E & Heff & Hsnaps & Hheap' & Hst' & Hstatic' & Hout' & Hjs').
  destruct Heff as (delta & Ht & Hsn & Hinv & Hev & Hk).
  destruct (static_lookup job i task Hstatic Htask) as (t0 & Ht0 & Hsame).
  assert (task_agent task = task_agent t0 /\ task_description task = task_description t0)
    as [Hag Hde] by (unfold static in Hsame; split; congruence).
  assert (List.length (invocations r new) = i) as Hn
    by (apply invocations_length; [lia | assumption]).
  assert (List.length ts0 - i = S m) as Hm by lia.
  rewrite Hm in Hst, Hout. cbn [replicate] in Hst, Hout.
  eexists _, (job', s'). split; [exact E |].
  exists (new ++ delta). cbn [fst snd].
  unfold invocations in *. rewrite omap_app. fold (invocations r new) in *.
  fold (invocations r delta) in *. rewrite Hinv.
  split_and!.
  - by rewrite Ht, Htrace, app_assoc.
  - apply (Orderly_snoc i new snaps t0
             (mkInvocation (task_agent task) (task_description task) context
                (execute (calls s) (task_agent task) (task_description task)
                   (Some context)))
             (stageBlock (jobId request) (Agents.role (task_agent task), output))
             delta m); try assumption.
    + unfold eventsOf. cbn [inv_outcome inv_agent]. by rewrite Hres.
    + eapply Forall_impl; [exact Hsnaps |]. simpl. intros j [-> | ->]; rewrite Hst.
      * exists in_progress. apply insert_boundary.
      * exists completed. apply insert_boundary.
  - apply Forall_app. split; [assumption |]. constructor; [| constructor].
    by exists output.
  - rewrite contextOf_snoc. unfold entryOf. cbn [inv_outcome inv_agent].
    by rewrite Hres, Hctx.
  - assumption.
  - rewrite Hst', Hst, insert_boundary, replicate_snoc.
    by replace (List.length ts0 - S i) with m by lia.
  - by rewrite Hstatic'.
  - assert (outputOf
              (mkInvocation (task_agent task) (task_description task) context
                 (execute (calls s) (task_agent task) (task_description task)
                    (Some context))) = Some output) as Ho
      by (unfold outputOf; cbn [inv_outcome]; by rewrite Hres).
    rewrite Hout', Hout, map_app. cbn [map]. rewrite Ho.
    rewrite (insert_at_length _ _ _ _ i) by (by rewrite length_map).
    rewrite <- app_assoc. cbn [app].
    by replace (List.length ts0 - S i) with m by lia.
  - by rewrite Hjs'.
  - eapply Kept_trans; [exact Hkept | apply Hk].
Qed.

(** A turn of the loop in which the agent fails ends the loop. *)
Lemma turn_fail i m task context job s error :
  List.length ts0 = i + S m ->
  LoopInv (jobId request) r s0 ts0 i context (job, s) ->
  job_tasks job !! i = Some task ->
  Agents.result (execute (calls s) (task_agent task) (task_description task)
                   (Some context)) = inr error ->
  exists st',
    runStage execute request r i task (task_agent task) context (job, s)
    = (inr error, st')
    /\ FailPost (jobId request) r s0 ts0 i error st'.
Proof.
  intros Hlen (new & Htrace & Hord & Hsucc & Hctx & Hheap & Hst & Hstatic & Hout & Hjs
               & Hkept) Htask Hres.
  cbn [fst snd] in *.
  destruct (runStage_fail execute request r i task (task_agent task) context job s error Hres)
    as (job' & s' & snaps & E & Heff & Hsnaps & Hheap' & Hst' & Hstatic' & Hjs').
  destruct Heff as (delta & Ht & Hsn & Hinv & Hev & Hk).
  destruct (static_lookup job i task Hstatic Htask) as (t0 & Ht0 & Hsame).
  assert (task_agent task = task_agent t0 /\ task_description task = task_description t0)
    as [Hag Hde] by (unfold static in Hsame; split; congruence).
  assert (List.length (invocations r new) = i) as Hn
    by (apply invocations_length; [lia | assumption]).
  assert (List.length ts0 - i = S m) as Hm by lia.
  rewrite Hm in Hst. cbn [replicate] in Hst.
  exists (job', s'). split; [exact E |].
  exists (new ++ delta), (invocations r new),
    (mkInvocation (task_agent task) (task_description task) context
       (execute (calls s) (task_agent task) (task_description task) (Some context))).
  cbn [fst snd].
  split_and!.
  - by rewrite Ht, Htrace, app_assoc.
  - apply (Orderly_snoc i new snaps t0
             (mkInvocation (task_agent task) (task_description task) context
                (execute (calls s) (task_agent task) (task_description task)
                   (Some context)))
             [Started (jobId request) (Agents.role (task_agent task))]
             delta m); try assumption.
    + unfold eventsOf. cbn [inv_outcome inv_agent]. by rewrite Hres.
    + eapply Forall_impl; [exact Hsnaps |]. simpl. intros j [-> | ->]; rewrite Hst.
      * exists in_progress. apply insert_boundary.
      * exists failed. apply insert_boundary.
  - unfold invocations in *. by rewrite omap_app, Hinv.
  - assumption.
  - assumption.
  - exact Hres.
  - assumption.
  - rewrite Hst', Hst, insert_boundary.
    by replace (List.length ts0 - S i) with m by lia.
  - by rewrite Hstatic'.
  - by rewrite Hjs'.
  - eapply Kept_trans; [exact Hkept | apply Hk].
Qed.

(** The loop: either every remaining stage completes, or the first
    failure ends it. *)
Lemma executeTasksFrom_spec m : forall i context job s,
  List.length ts0 = i + m ->
  LoopInv (jobId request) r s0 ts0 i context (job, s) ->
  exists res st',
    executeTasksFrom execute request r (seq i m) context (job, s) = (res, st')
    /\ match res with
       | None => exists context', LoopInv (jobId request) r s0 ts0 (List.length ts0) context' st'
       | Some error =>
           exists k, i <= k < List.length ts0
                     /\ FailPost (jobId request) r s0 ts0 k error st'
       end.
Proof.
  induction m as [|m IH]; intros i context job s Hlen Hinv.
  - exists None, (job, s). split; [reflexivity |].
    exists context. by replace (List.length ts0) with i by lia.
  - cbn [seq executeTasksFrom fst].
    pose proof Hinv as (new & _ & _ & _ & _ & _ & _ & Hstatic & _).
    cbn [fst] in Hstatic.
    destruct (lookup_lt_is_Some_2 (job_tasks job) i) as [task Htask].
    { rewrite (statics_length job Hstatic). lia. }
    rewrite Htask.
    destruct (static_lookup job i task Hstatic Htask) as (t0 & Ht0 & Hsame).
    assert (task_agent task = task_agent t0) as Hag
      by (unfold static in Hsame; congruence).
    rewrite Forall_forall in agents_found.
    rewrite Hag, (agents_found t0) by (by eapply list_elem_of_lookup_2).
    rewrite <- Hag.
    destruct (Agents.result
                (execute (calls s) (task_agent task) (task_description task)
                   (Some context))) as [output | error] eqn:Hres.
    + destruct (turn_ok i m task context job s output Hlen Hinv Htask Hres)
        as (context' & [job' s'] & E & Hinv').
      rewrite E.
      destruct (IH (S i) context' job' s') as (res & st'' & E' & Hpost);
        [lia | assumption |].
      exists res, st''. split; [exact E' |].
      destruct res as [error |]; [| assumption].
      destruct Hpost as (k & Hk & Hfail). exists k. split; [lia | assumption].
    + destruct (turn_fail i m task context job s error Hlen Hinv Htask Hres)
        as (st' & E & Hfail).
      rewrite E. exists (Some error), st'. split; [reflexivity |].
      exists i. split; [lia | assumption].
Qed.

End CrewLoop.

Section CrewRun.

Local Open Scope nat_scope.
Local Open Scope list_scope.

Import Crew.

Variable execute : nat -> Agents.AIAgent -> string -> option string -> Agents.Outcome.
Variable request : GenerationRequest.

Lemma createTasks_found :
  Forall (fun t => List.find (fun a => String.eqb (Agents.id a) (Agents.id (task_agent t)))
                     agents = Some (task_agent t)) (createTasks request).
Proof. repeat constructor. Qed.

Lemma createTasks_statuses :
  map task_status (createTasks request) = replicate 4 pending.
Proof. reflexivity. Qed.

Lemma createTasks_roles :
  map (fun t => Agents.role (task_agent t)) (createTasks request) = roleOrder.
Proof. reflexivity. Qed.

Lemma createTasks_agents : map task_agent (createTasks request) = agents.
Proof. reflexivity. Qed.

Lemma createTasks_outputs : map task_output (createTasks request) = replicate 4 None.
Proof. reflexivity. Qed.

Lemma createTasks_length : List.length (createTasks request) = 4.
Proof. reflexivity. Qed.

(** The job is registered under a fresh reference and announced. *)
Lemma registerJob_spec s :
  exists s3,
    registerJob request s = (nextRef s, s3)
    /\ trace s3
       = trace s ++ [Mutated (nextRef s) (newJobStatus request (now s));
                     Sent {| data := generation_started (jobId request) request;
                             ev_timestamp := now s |}]
    /\ heap s3 !! nextRef s = Some (newJobStatus request (now s))
    /\ activeJobs s3 !! jobId request = Some (nextRef s)
    /\ timers s3 = timers s
    /\ now s3 = now s.
Proof.
  eexists. split; [reflexivity |]. cbn. split_and!; try reflexivity.
  - by rewrite <- app_assoc.
  - apply lookup_insert_eq.
  - apply lookup_insert_eq.
Qed.

Lemma since_app s s' new : trace s' = trace s ++ new -> since s s' = new.
Proof. unfold since. intros ->. apply drop_app_length. Qed.

Lemma initial_LoopInv s s3 :
  trace s3 = trace s ++ [Mutated (nextRef s) (newJobStatus request (now s));
                         Sent {| data := generation_started (jobId request) request;
                                 ev_timestamp := now s |}] ->
  heap s3 !! nextRef s = Some (newJobStatus request (now s)) ->
  LoopInv (jobId request) (nextRef s) s3 (createTasks request) 0 ""
    (newJobStatus request (now s), s3).
Proof.
  intros Ht Hh. exists []. cbn [fst snd]. split_and!; try reflexivity.
  - by rewrite app_nil_r.
  - constructor; try reflexivity.
    + constructor.
    + intros k inv H. discriminate H.
  - constructor.
  - assumption.
  - apply Kept_refl.
Qed.

(** The run splits into the registration, the loop and the ending. *)
Lemma startGeneration_cases s :
  exists s3,
    trace s3
    = trace s ++ [Mutated (nextRef s) (newJobStatus request (now s));
                  Sent {| data := generation_started (jobId request) request;
                          ev_timestamp := now s |}]
    /\ activeJobs s3 !! jobId request = Some (nextRef s)
    /\ timers s3 = timers s
    /\ exists res job' s',
        startGeneration execute request s
        = match res with
          | None => completeGeneration (jobId request) s'
          | Some error => failGeneration (jobId request) error s'
          end
        /\ match res with
           | None =>
               exists context,
                 LoopInv (jobId request) (nextRef s) s3 (createTasks request) 4
                   context (job', s')
           | Some error =>
               exists k, k < 4
                 /\ FailPost (jobId request) (nextRef s) s3 (createTasks request) k
                      error (job', s')
           end.
Proof.
  destruct (registerJob_spec s) as (s3 & E & Ht & Hh & Ha & Htm & Hn).
  exists s3. split_and!; try assumption.
  destruct (executeTasksFrom_spec execute request (nextRef s) s3 (createTasks request)
              createTasks_found 4 0 "" (newJobStatus request (now s)) s3 eq_refl
              (initial_LoopInv s s3 Ht Hh)) as (res & [job' s'] & Ex & Post).
  exists res, job', s'. split.
  - unfold startGeneration. rewrite E. unfold executeTasks.
    change (seq 0 (List.length (job_tasks (fst (newJobStatus request (now s), s3)))))
      with (seq 0 4).
    rewrite Ex. by destruct res.
  - destruct res as [error|].
    + destruct Post as (k & Hk & Post). exists k. split; [apply Hk | exact Post].
    + exact Post.
Qed.

End CrewRun.

Section CrewEnding.

Local Open Scope nat_scope.
Local Open Scope list_scope.

Import Crew.

Local Opaque setTask setTaskStatus setTaskOutput setTaskStartTime setTaskEndTime
  setCurrentAgent setJobProgress setJobStatus.

Lemma getActive_Some jid s r job :
  activeJobs s !! jid = Some r -> heap s !! r = Some job ->
  getActive jid s = Some (r, job).
Proof. intros Ha Hh. unfold getActive. by rewrite Ha, Hh. Qed.

Lemma getActive_inv jid s r job :
  getActive jid s = Some (r, job) ->
  activeJobs s !! jid = Some r /\ heap s !! r = Some job.
Proof.
  unfold getActive. destruct (activeJobs s !! jid) as [r'|]; [| discriminate].
  destruct (heap s !! r') as [job'|] eqn:E; [| discriminate].
  intros [= <- <-]. by split.
Qed.

Lemma completeGeneration_spec jid s r job :
  getActive jid s = Some (r, job) ->
  let done := setJobProgress 100 (setJobStatus completed job) in
  let s' := completeGeneration jid s in
  trace s'
  = trace s ++ [Mutated r (setJobStatus completed job); Mutated r done;
                Sent {| data := generation_completed (resultOf jid done (now s));
                        ev_timestamp := now s |}]
  /\ heap s' !! r = Some done
  /\ activeJobs s' = activeJobs s
  /\ timers s' = timers s ++ [((now s + 300000)%N, jid)]
  /\ now s' = now s
  /\ forall r', r' <> r -> heap s' !! r' = heap s !! r'.
Proof.
  intros H. unfold completeGeneration. rewrite H. cbn. split_and!; try reflexivity.
  - by rewrite <- !app_assoc.
  - apply lookup_insert_eq.
  - intros r' Hne. by rewrite !lookup_insert_ne.
Qed.

Lemma failGeneration_spec jid error s r job :
  getActive jid s = Some (r, job) ->
  let s' := failGeneration jid error s in
  trace s'
  = trace s ++ [Mutated r (setJobStatus failed job);
                Sent {| data := generation_failed jid
                                  (if JS.truthy error then error else "Generation failed");
                        ev_timestamp := now s |}]
  /\ heap s' !! r = Some (setJobStatus failed job)
  /\ activeJobs s' = activeJobs s
  /\ timers s' = timers s
  /\ now s' = now s
  /\ forall r', r' <> r -> heap s' !! r' = heap s !! r'.
Proof.
  intros H. unfold failGeneration. rewrite H. cbn. split_and!; try reflexivity.
  - by rewrite <- !app_assoc.
  - apply lookup_insert_eq.
  - intros r' Hne. by rewrite lookup_insert_ne.
Qed.

Lemma snapshots_same r r' job (l : list JobStatus) :
  (r' = r -> Forall (fun j => statuses j = statuses job) l) ->
  Forall (fun j => statuses j = statuses job)
    (snapshots r (map (Mutated r') l)).
Proof.
  intros H. unfold snapshots. induction l as [|j l IH]; cbn; [constructor |].
  destruct (Nat.eqb_spec r' r) as [E|E].
  - specialize (H E). inversion H; subst. constructor; [assumption |].
    apply IH. intros _. assumption.
  - apply IH. intros E'. contradiction.
Qed.

Lemma completeGeneration_quiet jid s : Quiet s (completeGeneration jid s).
Proof.
  destruct (getActive jid s) as [[r job]|] eqn:E.
  - destruct (completeGeneration_spec jid s r job E) as (Ht & Hh' & _ & _ & _ & Hother).
    eexists. split; [exact Ht |]. apply getActive_inv in E as [_ Hh].
    split_and!; try reflexivity.
    + intros r0 job0 H0.
      unfold snapshots. cbn. destruct (Nat.eqb_spec r r0) as [->|_]; [| constructor].
      assert (job0 = job) as -> by congruence.
      repeat constructor; by rewrite ?statuses_setJobProgress, ?statuses_setJobStatus.
    + intros r0 job0 H0. destruct (decide (r0 = r)) as [->|Hne].
      * assert (job0 = job) as -> by congruence.
        eexists. split; [exact Hh' |].
        by rewrite statuses_setJobProgress, statuses_setJobStatus.
      * exists job0. by rewrite Hother.
  - unfold completeGeneration. rewrite E. exists []. rewrite app_nil_r.
    split_and!; try reflexivity.
    + intros; constructor.
    + intros r0 job0 H0. by exists job0.
Qed.

Lemma failGeneration_quiet jid error s : Quiet s (failGeneration jid error s).
Proof.
  destruct (getActive jid s) as [[r job]|] eqn:E.
  - destruct (failGeneration_spec jid error s r job E) as (Ht & Hh' & _ & _ & _ & Hother).
    eexists. split; [exact Ht |]. apply getActive_inv in E as [_ Hh].
    split_and!; try reflexivity.
    + intros r0 job0 H0.
      unfold snapshots. cbn. destruct (Nat.eqb_spec r r0) as [->|_]; [| constructor].
      assert (job0 = job) as -> by congruence.
      repeat constructor; by rewrite ?statuses_setJobStatus.
    + intros r0 job0 H0. destruct (decide (r0 = r)) as [->|Hne].
      * assert (job0 = job) as -> by congruence.
        eexists. split; [exact Hh' |]. by rewrite statuses_setJobStatus.
      * exists job0. by rewrite Hother.
  - unfold failGeneration. rewrite E. exists []. rewrite app_nil_r.
    split_and!; try reflexivity.
    + intros; constructor.
    + intros r0 job0 H0. by exists job0.
Qed.

(** The calls, events and snapshots of the loop are those of the whole
    run when what comes before and after is quiet. *)
Lemma Orderly_frame jid r ts0 c pre new post :
  Orderly jid r ts0 c new ->
  invocations r pre = [] -> invocations r post = [] ->
  stageEvents pre = [] -> stageEvents post = [] ->
  Forall (fun j => sequential (statuses j) /\ pendingFrom c (statuses j)
                   /\ List.length (statuses j) = List.length ts0) (snapshots r pre) ->
  Forall (fun j => sequential (statuses j) /\ pendingFrom c (statuses j)
                   /\ List.length (statuses j) = List.length ts0) (snapshots r post) ->
  Orderly jid r ts0 c (pre ++ new ++ post).
Proof.
  intros [H1 H2 H3 H4 H5] Hi1 Hi2 He1 He2 Hs1 Hs2.
  assert (invocations r (pre ++ new ++ post) = invocations r new) as Hinv.
  { unfold invocations in *. by rewrite !omap_app, Hi1, Hi2, app_nil_r. }
  constructor; rewrite ?Hinv; try assumption.
  - unfold snapshots in *. rewrite !omap_app. by rewrite !Forall_app.
  - unfold stageEvents in *. by rewrite !omap_app, He1, He2, app_nil_r.
Qed.

Lemma startedRoles_eventsOf jid (invs : list Invocation) :
  omap startedRole (flat_map (eventsOf jid) invs)
  = map (fun inv => Agents.role (inv_agent inv)) invs.
Proof.
  induction invs as [|inv invs IH]; [reflexivity |].
  cbn [flat_map map]. rewrite omap_app, IH. unfold eventsOf.
  by destruct (Agents.result (inv_outcome inv)).
Qed.

End CrewEnding.

Section CrewRunFacts.

Local Open Scope nat_scope.
Local Open Scope list_scope.

Import Crew.

Variable execute : nat -> Agents.AIAgent -> string -> option string -> Agents.Outcome.
Variable request : GenerationRequest.

Local Opaque setTask setTaskStatus setTaskOutput setTaskStartTime setTaskEndTime
  setCurrentAgent setJobProgress setJobStatus createTasks.

Lemma last_sent pre new e :
  last (sent (pre ++ new ++ [Sent e])) = Some e.
Proof.
  unfold sent. rewrite !omap_app. cbn. by rewrite app_assoc, last_snoc.
Qed.

(** A whole run of [startGeneration]: [c] calls are made; either all
    four succeed and the job ends completed, or the last one fails and
    the job ends failed. *)
Lemma startGeneration_run s :
  let jid := jobId request in
  let r := nextRef s in
  let s' := startGeneration execute request s in
  let new := since s s' in
  exists c,
    c <= 4
    /\ trace s' = trace s ++ new
    /\ (exists rest, new = Mutated r (newJobStatus request (now s)) :: rest)
    /\ Orderly jid r (createTasks request) c new
    /\ List.length (invocations r new) = c
    /\ ((Forall succeeded (invocations r new) /\ c = 4
         /\ (noTimer jid s -> EndsCompleted jid r (createTasks request) new s'))
        \/ exists invs inv error,
             invocations r new = invs ++ [inv]
             /\ Forall succeeded invs
             /\ Agents.result (inv_outcome inv) = inr error
             /\ (exists job,
                   heap s' !! r = Some job
                   /\ statuses job
                      = replicate (List.length invs) completed
                        ++ failed :: replicate (3 - List.length invs) pending)
             /\ (noTimer jid s -> EndsFailed jid r (List.length invs) error new s')).
Proof.
  intros jid r s' new.
  destruct (startGeneration_cases execute request s)
    as (s3 & Ht3 & Ha3 & Htm3 & res & job' & s1 & Hs' & Post).
  fold jid r in Ht3, Ha3, Hs', Post. fold s' in Hs'.
  set (pre := [Mutated r (newJobStatus request (now s));
               Sent {| data := generation_started jid request; ev_timestamp := now s |}])
    in Ht3.
  assert (invocations r pre = []) as Hpi by reflexivity.
  assert (stageEvents pre = []) as Hpe by reflexivity.
  assert (sent pre = sent pre) as _ by reflexivity.
  assert (forall c,
             Forall (fun j => sequential (statuses j) /\ pendingFrom c (statuses j)
                              /\ List.length (statuses j)
                                 = List.length (createTasks request))
               (snapshots r pre)) as Hps.
  { intros c. unfold snapshots, pre. cbn [omap list_omap snapshotAt].
    rewrite Nat.eqb_refl. repeat constructor.
    - apply (sequential_idle 0 4).
    - apply (pendingFrom_weaken 0); [lia | apply (pendingFrom_idle 0 4)]. }
  destruct res as [error|].
  - (* a call has failed *)
    destruct Post as (k & Hk & loop & invs & inv & Ht1 & Hord & Hinv & Hlen & Hok & Herr
                      & Hheap & Hst & Hsc & Hjs & Hkept).
    cbn [fst snd] in *.
    destruct (failGeneration_quiet jid error s1)
      as (delta & Htd & Hde & Hdi & Hds & Hdh).
    rewrite <- Hs' in Htd.
    assert (trace s' = trace s ++ (pre ++ loop ++ delta)) as Ht
        by (by rewrite Htd, Ht1, Ht3, <- !app_assoc).
    assert (new = pre ++ loop ++ delta) as Hnew by (by apply since_app).
    assert (invocations r new = invs ++ [inv]) as Hinv'.
    { rewrite Hnew. unfold invocations in *. by rewrite !omap_app, Hpi, Hdi, app_nil_r. }
    exists (S k). split_and!.
    + lia.
    + by rewrite Hnew.
    + rewrite Hnew. by eexists.
    + rewrite Hnew. apply Orderly_frame; auto.
      eapply Forall_impl; [apply (Hds r job' Hheap) |].
      intros j Hj. cbn beta in Hj. rewrite Hj, Hst. split_and!.
      * apply sequential_failed.
      * apply pendingFrom_mid.
      * rewrite length_app, length_replicate. cbn [List.length].
        rewrite length_replicate. change (List.length (createTasks request)) with 4. lia.
    + rewrite Hinv', length_app, Hlen. cbn. lia.
    + right. exists invs, inv, error. split_and!; try assumption.
      { destruct (Hdh r job' Hheap) as (job & Hj & Hjst). rewrite <- Hs' in Hj.
        exists job. split; [exact Hj |]. rewrite Hjst, Hst, Hlen.
        by change (List.length (createTasks request) - S k) with (3 - k). }
      intros Hno.
      assert (noTimer jid s3) as Hno3 by (unfold noTimer; by rewrite Htm3).
      destruct (Hkept Hno3) as [Hno1 Ha1]. rewrite Ha3 in Ha1.
      pose proof (getActive_Some jid s1 r job' Ha1 Hheap) as Hget.
      destruct (failGeneration_spec jid error s1 r job' Hget)
        as (Htf & Hhf & Haf & Htmf & Hnf & _).
      rewrite <- Hs' in Htf, Hhf, Haf, Htmf, Hnf.
      assert (delta = [Mutated r (setJobStatus failed job');
                       Sent {| data := generation_failed jid
                                         (if JS.truthy error then error
                                          else "Generation failed");
                               ev_timestamp := now s1 |}]) as Hdelta.
      { rewrite Htd in Htf. by apply app_inv_head in Htf. }
      exists (setJobStatus failed job'). split_and!.
      * apply getActive_Some; [by rewrite Haf | assumption].
      * apply job_status_setJobStatus.
      * rewrite statuses_setJobStatus, Hst, Hlen.
        by change (List.length (createTasks request) - S k) with (3 - k).
      * rewrite Hnew, Hdelta, Hnf.
        change [Mutated r (setJobStatus failed job');
                Sent {| data := generation_failed jid
                                  (if JS.truthy error then error else "Generation failed");
                        ev_timestamp := now s1 |}]
          with ([Mutated r (setJobStatus failed job')]
                ++ [Sent {| data := generation_failed jid
                                      (if JS.truthy error then error
                                       else "Generation failed");
                            ev_timestamp := now s1 |}]).
        rewrite (app_assoc loop). apply last_sent.
      * unfold noTimer. by rewrite Htmf.
  - (* all calls have succeeded *)
    destruct Post as (context & loop & Ht1 & Hord & Hok & Hctx & Hheap & Hst & Hsc & Hout
                      & Hjs & Hkept).
    cbn [fst snd] in *.
    change (List.length (createTasks request) - 4) with 0 in Hst, Hout.
    cbn [replicate] in Hst, Hout. rewrite app_nil_r in Hst, Hout.
    destruct (completeGeneration_quiet jid s1)
      as (delta & Htd & Hde & Hdi & Hds & Hdh).
    rewrite <- Hs' in Htd.
    assert (trace s' = trace s ++ (pre ++ loop ++ delta)) as Ht
        by (by rewrite Htd, Ht1, Ht3, <- !app_assoc).
    assert (new = pre ++ loop ++ delta) as Hnew by (by apply since_app).
    assert (invocations r new = invocations r loop) as Hinv'.
    { rewrite Hnew. unfold invocations in *. by rewrite !omap_app, Hpi, Hdi, app_nil_r. }
    assert (List.length (invocations r loop) = 4) as Hlen.
    { pose proof (f_equal (@List.length _) (pr_agents _ _ _ _ _ Hord)) as H.
      by rewrite length_map in H. }
    exists 4. split_and!.
    + lia.
    + by rewrite Hnew.
    + rewrite Hnew. by eexists.
    + rewrite Hnew. apply Orderly_frame; auto.
      eapply Forall_impl; [apply (Hds r job' Hheap) |].
      intros j Hj. cbn beta in Hj. rewrite Hj, Hst. split_and!.
      * apply (sequential_idle 4 0).
      * apply (pendingFrom_idle 4 0).
      * reflexivity.
    + by rewrite Hinv'.
    + left. rewrite Hinv'. split_and!; try done.
      intros Hno.
      assert (noTimer jid s3) as Hno3 by (unfold noTimer; by rewrite Htm3).
      destruct (Hkept Hno3) as [Hno1 Ha1]. rewrite Ha3 in Ha1.
      pose proof (getActive_Some jid s1 r job' Ha1 Hheap) as Hget.
      destruct (completeGeneration_spec jid s1 r job' Hget)
        as (Htf & Hhf & Haf & Htmf & Hnf & _).
      rewrite <- Hs' in Htf, Hhf, Haf, Htmf, Hnf.
      set (done := setJobProgress 100 (setJobStatus completed job')) in *.
      assert (delta = [Mutated r (setJobStatus completed job'); Mutated r done;
                       Sent {| data := generation_completed (resultOf jid done (now s1));
                               ev_timestamp := now s1 |}]) as Hdelta.
      { rewrite Htd in Htf. by apply app_inv_head in Htf. }
      exists done, (timers s1). split_and!.
      * apply getActive_Some; [by rewrite Haf | assumption].
      * unfold done. by rewrite job_status_setJobProgress, job_status_setJobStatus.
      * unfold done. by rewrite statuses_setJobProgress, statuses_setJobStatus.
      * unfold done. by rewrite outputs_setJobProgress, outputs_setJobStatus, Hinv'.
      * unfold done. by rewrite statics_setJobProgress, statics_setJobStatus.
      * rewrite Hnew, Hdelta, Hnf.
        change [Mutated r (setJobStatus completed job'); Mutated r done;
                Sent {| data := generation_completed (resultOf jid done (now s1));
                        ev_timestamp := now s1 |}]
          with ([Mutated r (setJobStatus completed job'); Mutated r done]
                ++ [Sent {| data := generation_completed (resultOf jid done (now s1));
                            ev_timestamp := now s1 |}]).
        rewrite (app_assoc loop). apply last_sent.
      * by rewrite Htmf, Hnf.
      * exact Hno1.
Qed.

End CrewRunFacts.

(** ** The claims about the job runner *)

Section CrewClaims.

Local Open Scope nat_scope.
Local Open Scope list_scope.

Import Crew.

Variable execute : nat -> Agents.AIAgent -> string -> option string -> Agents.Outcome.
Variable request : GenerationRequest.

Lemma not_succeeded inv error :
  Agents.result (inv_outcome inv) = inr error -> ~ succeeded inv.
Proof. intros H [output Ho]. congruence. Qed.

Lemma roles_of_calls r c new :
  Orderly (jobId request) r (createTasks request) c new ->
  map (fun inv => Agents.role (inv_agent inv)) (invocations r new) = take c roleOrder.
Proof.
  intros H.
  change roleOrder with (map Agents.role (map task_agent (createTasks request))).
  rewrite <- fmap_take, <- (pr_agents _ _ _ _ _ H).
  by rewrite <- list_fmap_compose.
Qed.

(** C1. Four stages are created, in the order Product Manager, Solution
    Architect, Senior Developer, QA Engineer, all pending.  In every
    state the job object goes through, the stage statuses are some
    completed stages, then at most one stage in progress or failed,
    then pending stages, so at most one stage is in progress.  The
    agents are called in role order, and the stage events come in one
    block per call: the started event of a role, then (when the call
    succeeds) its completed and progress events, before the started
    event of the next role. *)
Theorem C1_stages_run_one_after_another s :
  let s' := startGeneration execute request s in
  let new := since s s' in
  let r := nextRef s in
  let calls := invocations r new in
  map (fun t => Agents.role (task_agent t)) (createTasks request) = roleOrder
  /\ trace s' = trace s ++ new
  /\ (exists rest, snapshots r new = newJobStatus request (now s) :: rest)
  /\ statuses (newJobStatus request (now s)) = replicate 4 pending
  /\ Forall (fun j => List.length (statuses j) = 4
                      /\ sequential (statuses j)
                      /\ inProgressCount j <= 1) (snapshots r new)
  /\ map (fun inv => Agents.role (inv_agent inv)) calls
     = take (List.length calls) roleOrder
  /\ stageEvents new = flat_map (eventsOf (jobId request)) calls
  /\ startedRoles new = take (List.length calls) roleOrder
  /\ (Forall succeeded calls -> List.length calls = 4).
Proof.
  intros s' new r calls.
  destruct (startGeneration_run execute request s)
    as (c & Hc & Ht & [rest Hrest] & Hord & Hlen & Hend).
  fold s' new r in Ht, Hrest, Hord, Hlen, Hend. fold calls in Hlen, Hend.
  pose proof (roles_of_calls r c new Hord) as Hroles. fold calls in Hroles.
  split_and!.
  - reflexivity.
  - exact Ht.
  - rewrite Hrest. unfold snapshots. cbn [omap list_omap snapshotAt].
    rewrite Nat.eqb_refl. by eexists.
  - reflexivity.
  - eapply Forall_impl; [apply (pr_snapshots _ _ _ _ _ Hord) |].
    intros j (Hseq & _ & Hl). split_and!.
    + exact Hl.
    + exact Hseq.
    + by apply sequential_inProgress.
  - by rewrite Hlen.
  - apply (pr_events _ _ _ _ _ Hord).
  - unfold startedRoles. rewrite (pr_events _ _ _ _ _ Hord), startedRoles_eventsOf.
    by rewrite Hlen.
  - intros Hall. destruct Hend as [(_ & -> & _) | (invs & inv & error & Hi & _ & He & _)].
    + exact Hlen.
    + exfalso. fold calls in Hi. rewrite Hi in Hall.
      apply Forall_app in Hall as [_ Hall]. inversion Hall; subst.
      by eapply not_succeeded.
Qed.






(** When a call fails it is the last one. *)
Lemma failing_call_is_last s k inv error :
  let jid := jobId request in
  let s' := startGeneration execute request s in
  let new := since s s' in
  let r := nextRef s in
  invocations r new !! k = Some inv ->
  Agents.result (inv_outcome inv) = inr error ->
  List.length (invocations r new) = S k
  /\ Orderly jid r (createTasks request) (S k) new
  /\ (exists job,
        heap s' !! r = Some job
        /\ statuses job = replicate k completed ++ failed :: replicate (3 - k) pending)
  /\ (noTimer jid s -> EndsFailed jid r k error new s').
Proof.
  intros jid s' new r Hk Herr.
  destruct (startGeneration_run execute request s)
    as (c & Hc & Ht & _ & Hord & Hlen & Hend).
  fold jid s' new r in Ht, Hord, Hlen, Hend.
  destruct Hend as [(Hall & _) | (invs & inv' & error' & Hi & Hall & He & Hobj & Hfin)].
  - exfalso. apply (not_succeeded inv error Herr).
    by apply (Forall_lookup_1 _ _ _ _ Hall Hk).
  - rewrite Hi in Hk. pose proof (lookup_lt_Some _ _ _ Hk) as Hlt.
    rewrite length_app in Hlt. cbn in Hlt.
    destruct (decide (k < List.length invs)) as [Hin|Hout].
    + exfalso. rewrite lookup_app_l in Hk by assumption.
      apply (not_succeeded inv error Herr).
      by apply (Forall_lookup_1 _ _ _ _ Hall Hk).
    + assert (k = List.length invs) as -> by lia.
      rewrite list_lookup_middle in Hk by reflexivity. injection Hk as <-.
      assert (error' = error) as -> by congruence.
      assert (c = S (List.length invs)) as ->
          by (rewrite <- Hlen, Hi, length_app; cbn; lia).
      split_and!; [by rewrite Hlen | assumption | assumption | assumption].
Qed.

(** C3. When the call of stage [k] (counted from 0) raises an error: no
    further call is made and no further stage is announced as started
    (the started events are those of the first [k+1] roles); in every
    state the job object goes through the stages after [k] are
    pending, so none of them is ever in progress; in the job object
    the stage is marked failed, the stages before it are completed and
    those after it are still pending.  When moreover no eviction is
    pending under the job's id from an earlier run, the object is the
    one registered under the id, its status is failed, and the last
    event sent is [generation_failed]. *)
Theorem C3_failed_stage_ends_the_job s k inv error :
  let jid := jobId request in
  let s' := startGeneration execute request s in
  let new := since s s' in
  let r := nextRef s in
  invocations r new !! k = Some inv ->
  Agents.result (inv_outcome inv) = inr error ->
  List.length (invocations r new) = S k
  /\ startedRoles new = take (S k) roleOrder
  /\ Forall (fun j => pendingFrom (S k) (statuses j)) (snapshots r new)
  /\ (exists job,
        heap s' !! r = Some job
        /\ statuses job = replicate k completed ++ failed :: replicate (3 - k) pending)
  /\ (noTimer jid s ->
      exists job,
        getJobStatus jid s' = Some job
        /\ heap s' !! r = Some job
        /\ job_status job = failed
        /\ last (sent new)
           = Some {| data := generation_failed jid
                               (if JS.truthy error then error else "Generation failed");
                     ev_timestamp := now s' |}).
Proof.
  intros jid s' new r Hk Herr.
  destruct (failing_call_is_last s k inv error Hk Herr) as (Hlen & Hord & Hobj & Hfin).
  fold jid s' new r in Hlen, Hord, Hobj, Hfin.
  split_and!.
  - exact Hlen.
  - unfold startedRoles. rewrite (pr_events _ _ _ _ _ Hord), startedRoles_eventsOf.
    apply (roles_of_calls _ _ _ Hord).
  - eapply Forall_impl; [apply (pr_snapshots _ _ _ _ _ Hord) |].
    by intros j (_ & H & _).
  - exact Hobj.
  - intros Hno. destruct (Hfin Hno) as (job & Hget & Hjs & Hst & Hlast & _).
    exists job. split_and!; try assumption.
    + unfold getJobStatus. by rewrite Hget.
    + by apply getActive_inv in Hget as [_ Hh].
Qed.

(** A job that has failed stays registered however much time passes:
    [failGeneration] schedules no eviction. *)
Lemma failed_job_stays s k inv error dt :
  let jid := jobId request in
  let s' := startGeneration execute request s in
  noTimer jid s ->
  invocations (nextRef s) (since s s') !! k = Some inv ->
  Agents.result (inv_outcome inv) = inr error ->
  exists job,
    getJobStatus jid (sleep dt s') = Some job /\ job_status job = failed.
Proof.
  intros jid s' Hno Hk Herr.
  destruct (failing_call_is_last s k inv error Hk Herr) as (_ & _ & _ & Hfin).
  destruct (Hfin Hno) as (job & Hget & Hjs & _ & _ & Hno').
  fold jid s' in Hget, Hno'.
  apply getActive_inv in Hget as [Ha Hh].
  destruct (Kept_sleep jid dt s' Hno') as [_ Ha'].
  exists job. split; [| exact Hjs].
  unfold getJobStatus.
  rewrite (getActive_Some jid (sleep dt s') (nextRef s) job); [reflexivity | | exact Hh].
  by rewrite Ha'.
Qed.

(** A job that has completed is registered until 300000 ms have passed
    and not from then on. *)
Lemma completed_job_evicted s dt :
  let jid := jobId request in
  let s' := startGeneration execute request s in
  noTimer jid s ->
  Forall succeeded (invocations (nextRef s) (since s s')) ->
  if (dt <? 300000)%N
  then exists job, getJobStatus jid (sleep dt s') = Some job /\ job_status job = completed
  else getJobStatus jid (sleep dt s') = None.
Proof.
  intros jid s' Hno Hall.
  destruct (startGeneration_run execute request s)
    as (c & Hc & Ht & _ & Hord & Hlen & Hend).
  fold jid s' in Ht, Hord, Hlen, Hend.
  destruct Hend as [(_ & _ & Hfin) | (invs & inv & error & Hi & _ & He & _)].
  2:{ exfalso. rewrite Hi in Hall. apply Forall_app in Hall as [_ Hall].
      inversion Hall; subst. by eapply not_succeeded. }
  destruct (Hfin Hno) as (job & tms & Hget & Hjs & _ & _ & _ & _ & Htm & Htms).
  apply getActive_inv in Hget as [Ha Hh].
  unfold getJobStatus, getActive. cbn [sleep activeJobs heap]. unfold expire.
  rewrite Htm, List.filter_app. cbn [List.filter].
  change (due (now s' + dt) ((now s' + 300000)%N, jid))
    with (now s' + 300000 <=? now s' + dt)%N.
  destruct (N.ltb_spec dt 300000) as [Hlt|Hge].
  - replace (now s' + 300000 <=? now s' + dt)%N with false
      by (symmetry; apply N.leb_gt; lia).
    cbv match. rewrite app_nil_r, expire_lookup_other by (by apply Forall_list_filter).
    rewrite Ha, Hh. by exists job.
  - replace (now s' + 300000 <=? now s' + dt)%N with true
      by (symmetry; apply N.leb_le; lia).
    cbv match. rewrite fold_left_app. cbn [fold_left]. cbn beta. cbn [snd].
    by rewrite lookup_delete_eq.
Qed.

End CrewClaims.

(** ** The artifacts of the enhanced service *)

Section EnhancedArtifacts.

Import Utils.

Local Open Scope list_scope.






End EnhancedArtifacts.

Section EnhancedRun.

Import Utils.

Local Open Scope list_scope.

Variable runCrew : bool -> GenerationRequest -> Enhanced.CrewRun.

Lemma enhanced_sleep_kept jid dt s :
  Enhanced.noTimer jid s ->
  Enhanced.noTimer jid (Enhanced.sleep dt s)
  /\ Enhanced.activeJobs (Enhanced.sleep dt s) !! jid = Enhanced.activeJobs s !! jid.
Proof.
  intros H. split.
  - unfold Enhanced.noTimer. cbn. by apply Forall_list_filter.
  - cbn. unfold Enhanced.expire. by apply expire_lookup_other, Forall_list_filter.
Qed.

Lemma onTaskOutput_kept jid jid' tos : forall s,
  Enhanced.noTimer jid s ->
  Enhanced.noTimer jid (fold_left (Enhanced.onTaskOutput jid') tos s)
  /\ Enhanced.activeJobs (fold_left (Enhanced.onTaskOutput jid') tos s) !! jid
     = Enhanced.activeJobs s !! jid.
Proof.
  induction tos as [|[pause [[taskId agentRole] out]] tos IH]; intros s H; cbn [fold_left].
  - by split.
  - destruct (enhanced_sleep_kept jid pause s H) as [H1 H2].
    destruct (IH (Enhanced.onTaskOutput jid' s (pause, (taskId, agentRole, out))))
      as [H3 H4]; [exact H1 |].
    split; [exact H3 |]. rewrite H4. exact H2.
Qed.


End EnhancedRun.

(** ** Artifacts and retention *)

Section Outcomes.

Local Open Scope nat_scope.
Local Open Scope list_scope.

Import Crew.





(** C7. What the job runner does with the claim's retention window, for
    a job whose id has no eviction pending from an earlier run.  A job
    that completes can be retrieved until 300000 ms have passed since
    and not from then on.  A job that fails can be retrieved, as
    failed, after any lapse of time: no eviction is ever scheduled for
    it. *)
Theorem C7_failed_job_is_never_evicted execute request s dt :
  let jid := jobId request in
  let s' := startGeneration execute request s in
  let calls := invocations (nextRef s) (since s s') in
  noTimer jid s ->
  (Forall succeeded calls ->
   if (dt <? 300000)%N
   then exists job,
          getJobStatus jid (sleep dt s') = Some job /\ job_status job = completed
   else getJobStatus jid (sleep dt s') = None)
  /\ (forall k inv error,
        calls !! k = Some inv ->
        Agents.result (inv_outcome inv) = inr error ->
        exists job,
          getJobStatus jid (sleep dt s') = Some job /\ job_status job = failed).
Proof.
  intros jid s' calls Hno. split.
  - intros Hall. by apply completed_job_evicted.
  - intros k inv error Hk Herr. by eapply failed_job_stays.
Qed.

End Outcomes.

(** ** The theorems at work on examples *)

Section Examples.

Local Open Scope list_scope.

Import Crew.


(** C3 at a run whose third call fails. *)
Lemma C3_third_call_fails :
  exists inv,
    invocations 0 (since (newService 0%N) Example.failedRun) !! 2 = Some inv
    /\ Agents.result (inv_outcome inv) = inr "Cerebras AI error for agent Senior Developer"
    /\ (statuses <$> heap Example.failedRun !! 0)
       = Some [completed; completed; failed; pending]
    /\ (job_status <$> getJobStatus "job_1" Example.failedRun) = Some failed
    /\ startedRoles (since (newService 0%N) Example.failedRun)
       = ["Product Manager"; "Solution Architect"; "Senior Developer"].
Proof.
  eexists. split; [vm_compute; reflexivity |]. split; [reflexivity |].
  destruct (C3_failed_stage_ends_the_job
              (Agents.executeWithModel Example.thirdCallFails) Example.request
              (newService 0%N) 2 _ "Cerebras AI error for agent Senior Developer"
              ltac:(vm_compute; reflexivity) eq_refl)
    as (_ & Hroles & _ & (job & Hobj & Hst) & Hreg).
  destruct (Hreg ltac:(constructor)) as (job' & Hjob & _ & Hjs & _).
  change Example.failedRun
    with (startGeneration (Agents.executeWithModel Example.thirdCallFails)
            Example.request (newService 0%N)).
  change "job_1" with (jobId Example.request).
  change (nextRef (newService 0%N)) with 0 in Hobj.
  split_and!.
  - rewrite Hobj. change (statuses <$> Some job) with (Some (statuses job)).
    by rewrite Hst.
  - rewrite Hjob. change (job_status <$> Some job') with (Some (job_status job')).
    by rewrite Hjs.
  - exact Hroles.
Defined.

(** C4 at a submission whose three fields are empty or missing. *)
Lemma C4_empty_fields_rejected :
  Routes.falsy (Some "") = true
  /\ Routes.falsy None = true
  /\ Utils.validateGenerationRequest (Utils.mkPartial (Some "") None (Some ""))
     = [ "Requirements are required and cannot be empty";
         "Framework is required and cannot be empty";
         "Language is required and cannot be empty" ]
  /\ Routes.postGenerate (Agents.execute Example.noKey) Example.nanoid
       (Routes.mkBody (Some "") None (Some ""))
       (Routes.mkServer (newService 0%N) 0)
     = (Routes.BadRequest "Missing required fields: requirements, framework, language",
        Routes.mkServer (newService 0%N) 0).
Proof.
  split; [reflexivity |]. split; [reflexivity |].
  destruct (C4_empty_submission_rejected (Agents.execute Example.noKey) Example.nanoid
              Example.crew (Some "") None (Some "")
              (Routes.mkServer (newService 0%N) 0)
              (Enhanced.mkServer (Enhanced.newService None 0%N) 0)
              "job_1" (Enhanced.newService None 0%N) eq_refl eq_refl eq_refl)
    as (Hv & Hr & _).
  by split.
Defined.



(** C6 at a job cancelled once and then again, ten milliseconds
    later: the second call succeeds and moves the end time. *)
Lemma C6_cancelled_twice :
  Enhanced.activeJobs Example.cancelledOnce !! "job_1" = Some Example.cancelledJob
  /\ Enhanced.status Example.cancelledJob = Enhanced.cancelled
  /\ fst (Enhanced.cancelJob "job_1" Example.cancelledOnce)
     = Enhanced.SuccessResponse (Enhanced.CancelData "job_1" Enhanced.cancelled) 10%N
  /\ Enhanced.endTime
       <$> (Enhanced.activeJobs (snd (Enhanced.cancelJob "job_1" Example.cancelledOnce))
              !! "job_1")
     = Some (Some 10%N)
  /\ Enhanced.emitted (snd (Enhanced.cancelJob "job_1" Example.cancelledOnce))
     = Enhanced.emitted Example.cancelledOnce
       ++ [Enhanced.generation_failed "job_1" "Job cancelled by user" (Some 10%N)].
Proof.
  assert (Enhanced.activeJobs Example.cancelledOnce !! "job_1" = Some Example.cancelledJob)
    as Hjob by (vm_compute; reflexivity).
  split; [exact Hjob |]. split; [reflexivity |].
  destruct (C6_cancel_of_an_ended_job "job_1" Example.cancelledOnce Example.cancelledJob Hjob)
    as [_ H].
  rewrite (H eq_refl). split_and!.
  - reflexivity.
  - cbn [snd Enhanced.emit Enhanced.setJobs Enhanced.activeJobs].
    by rewrite lookup_insert_eq.
  - reflexivity.
Defined.

(** C7 at the run whose third call fails: the job is still there after
    a day; and at the completed run: there until the 300000th
    millisecond, gone from then on. *)
Lemma C7_failed_run_after_a_day :
  (job_status <$> getJobStatus "job_1" (sleep 86400000%N Example.failedRun)) = Some failed
  /\ (job_status <$> getJobStatus "job_1" (sleep 299999%N Example.completedRun))
     = Some completed
  /\ getJobStatus "job_1" (sleep 300000%N Example.completedRun) = None.
Proof.
  split_and!.
  - destruct (C7_failed_job_is_never_evicted
                (Agents.executeWithModel Example.thirdCallFails) Example.request
                (newService 0%N) 86400000%N ltac:(constructor)) as [_ H].
    destruct (H 2 _ _ ltac:(vm_compute; reflexivity) eq_refl) as (job & Hjob & Hst).
    change (getJobStatus "job_1" (sleep 86400000%N Example.failedRun)) with
      (getJobStatus (jobId Example.request)
         (sleep 86400000%N
            (startGeneration (Agents.executeWithModel Example.thirdCallFails)
               Example.request (newService 0%N)))).
    rewrite Hjob. cbn [fmap option_fmap option_map]. by rewrite Hst.
  - vm_compute. reflexivity.
  - vm_compute. reflexivity.
Defined.

(** C8 at two environments without a usable credential. *)
Lemma C8_two_environments :
  Agents.noCredential Example.noKey = true
  /\ Agents.noCredential Example.emptyKey = true
  /\ Agents.result (Agents.executeWithModel Example.emptyKey 7 Example.productManager
                      "prompt" (Some "context"))
     = Agents.result (Agents.executeWithModel Example.noKey 0 Example.productManager
                        "prompt" (Some "context"))
  /\ Agents.result (Agents.executeWithModel Example.noKey 0 Example.productManager
                      "prompt" (Some "context"))
     = inl (JS.VStr Agents.productManagerResponse).
Proof.
  split; [reflexivity |]. split; [reflexivity |].
  destruct (C8_canned_fallback_deterministic Example.noKey Example.emptyKey 0 7
              Example.productManager "prompt" (Some "context") eq_refl eq_refl)
    as (H1 & H2 & _).
  split; [exact H2 |]. rewrite H1. reflexivity.
Defined.

(** C9 at the outputs of a developer and a QA engineer. *)
Lemma C9_two_outputs :
  let outs := [Utils.mkOutput "Senior Developer" "print(1)";
               Utils.mkOutput "QA Engineer" "assert True"] in
  Text.isQaOutput (Utils.mkOutput "QA Engineer" "assert True") = true
  /\ Utils.compileCodeFiles outs (Enhanced.sanitizeRequest Example.enhancedRequest)
       !! "TEST_PLAN.md"
     = Some "assert True"
  /\ Utils.compileCodeFiles outs (Enhanced.sanitizeRequest Example.enhancedRequest)
       !! "tests.py"
     = Some "assert True".
Proof.
  cbv zeta. split; [reflexivity |].
  destruct (C9_test_plan_same_as_tests
              [Utils.mkOutput "Senior Developer" "print(1)";
               Utils.mkOutput "QA Engineer" "assert True"]
              (Enhanced.sanitizeRequest Example.enhancedRequest))
    as (qa & Hqa & H1 & H2 & _).
  - exists (Utils.mkOutput "QA Engineer" "assert True"). split; [| reflexivity].
    right. by left.
  - injection Hqa as <-. split; [exact H1 | exact H2].
Defined.

(** C10 at a request with markup, padding and an upper-case letter. *)
Lemma C10_markup_removed :
  Utils.validateGenerationRequest (Utils.partial Example.enhancedRequest) = []
  /\ fst (Enhanced.beginGeneration Example.enhancedRequest (Enhanced.newService None 0%N))
     = Some (Utils.mkRequest "job_1" "bBuild/b a todo app" "react" "Python").
Proof.
  split; [reflexivity |].
  destruct (C10_request_is_sanitized Example.crew Example.enhancedRequest
              (Enhanced.newService None 0%N) eq_refl) as (H & _).
  rewrite H. reflexivity.
Defined.

(** A language that names an inherited member gets neither a table
    entry nor [txt]. *)
Lemma getFileExtension_constructor :
  JS.toString (Utils.getFileExtension "Constructor")
  = "function Object() { [native code] }".
Proof. reflexivity. Qed.

End Examples.

(** ** Further properties *)

Section Further.

Local Open Scope list_scope.

Import Crew.

(** A job of the job runner whose four calls succeed (and whose id has
    no eviction pending from an earlier run) can be retrieved until
    300000 ms have passed since its completion, and is not found from
    then on. *)
Theorem completed_job_is_evicted_on_time execute request s dt :
  let jid := jobId request in
  let s' := startGeneration execute request s in
  noTimer jid s ->
  Forall succeeded (invocations (nextRef s) (since s s')) ->
  if (dt <? 300000)%N
  then exists job, getJobStatus jid (sleep dt s') = Some job /\ job_status job = completed
  else getJobStatus jid (sleep dt s') = None.
Proof. intros jid s' Hno Hall. by apply completed_job_evicted. Qed.

Lemma completed_run_is_evicted_on_time :
  (job_status <$> getJobStatus "job_1" (sleep 299999%N Example.completedRun))
  = Some completed
  /\ getJobStatus "job_1" (sleep 300000%N Example.completedRun) = None.
Proof.
  assert (noTimer (jobId Example.request) (newService 0%N)) as Hno by constructor.
  assert (Forall succeeded
            (invocations (nextRef (newService 0%N))
               (since (newService 0%N)
                  (startGeneration (Agents.execute Example.noKey) Example.request
                     (newService 0%N))))) as Hall.
  { vm_compute. repeat constructor; by eexists. }
  change Example.completedRun
    with (startGeneration (Agents.execute Example.noKey) Example.request
            (newService 0%N)).
  change "job_1" with (jobId Example.request).
  split.
  - destruct (completed_job_is_evicted_on_time (Agents.execute Example.noKey)
                Example.request (newService 0%N) 299999%N Hno Hall)
      as (job & Hjob & Hst).
    rewrite Hjob. change (job_status <$> Some job) with (Some (job_status job)).
    by rewrite Hst.
  - exact (completed_job_is_evicted_on_time (Agents.execute Example.noKey)
             Example.request (newService 0%N) 300000%N Hno Hall).
Defined.

(** A submission in which one of the three fields is missing or empty
    is answered with status 400 by both endpoints; no id is drawn and
    no job is started. *)
Theorem submission_with_missing_field_rejected execute runCrew nanoid body sv sv' :
  Routes.falsy (Routes.b_requirements body) = true
  \/ Routes.falsy (Routes.b_framework body) = true
  \/ Routes.falsy (Routes.b_language body) = true ->
  Routes.postGenerate execute nanoid body sv
  = (Routes.BadRequest "Missing required fields: requirements, framework, language", sv)
  /\ Enhanced.postGenerate runCrew nanoid body sv'
     = (Enhanced.BadRequest "Missing required fields: requirements, framework, language",
        sv').
Proof.
  intros H. unfold Routes.postGenerate, Enhanced.postGenerate.
  assert (Routes.falsy (Routes.b_requirements body)
          || Routes.falsy (Routes.b_framework body)
          || Routes.falsy (Routes.b_language body) = true) as ->.
  { destruct H as [-> | [-> | ->]]; rewrite ?orb_true_r; reflexivity. }
  by split.
Qed.

Lemma submission_without_requirements_rejected :
  Routes.falsy (Some "") = true
  /\ Routes.postGenerate (Agents.execute Example.noKey) Example.nanoid
       (Routes.mkBody (Some "") (Some "react") (Some "python"))
       (Routes.mkServer (newService 0%N) 0)
     = (Routes.BadRequest "Missing required fields: requirements, framework, language",
        Routes.mkServer (newService 0%N) 0).
Proof.
  split; [reflexivity |].
  apply (submission_with_missing_field_rejected (Agents.execute Example.noKey)
           Example.crew Example.nanoid
           (Routes.mkBody (Some "") (Some "react") (Some "python"))
           (Routes.mkServer (newService 0%N) 0)
           (Enhanced.mkServer (Enhanced.newService None 0%N) 0)).
  by left.
Defined.

(** Cancelling a job that is running marks it cancelled, records the
    end time, emits one failure event with the reason "Job cancelled by
    user" and answers with success. *)
Theorem cancel_of_running_job jobId s job :
  Enhanced.activeJobs s !! jobId = Some job ->
  Enhanced.status job = Enhanced.running ->
  let s' := snd (Enhanced.cancelJob jobId s) in
  fst (Enhanced.cancelJob jobId s)
  = Enhanced.SuccessResponse (Enhanced.CancelData jobId Enhanced.cancelled) (Enhanced.now s)
  /\ Enhanced.activeJobs s' !! jobId
     = Some (Enhanced.mkJobInfo (Enhanced.request job) (Enhanced.startTime job)
               Enhanced.cancelled (Some (Enhanced.now s)) (Enhanced.duration job)
               (Enhanced.error job))
  /\ Enhanced.emitted s'
     = Enhanced.emitted s
       ++ [Enhanced.generation_failed jobId "Job cancelled by user"
             (Some (Enhanced.now s))]
  /\ Enhanced.timers s' = Enhanced.timers s.
Proof.
  intros Hjob Hst. unfold Enhanced.cancelJob. rewrite Hjob, Hst. cbn.
  split_and!; try reflexivity. by rewrite lookup_insert_eq.
Qed.

Lemma cancel_of_example_job :
  Enhanced.status
    <$> (Enhanced.activeJobs (snd (Enhanced.cancelJob "job_1" Example.running)) !! "job_1")
  = Some Enhanced.cancelled.
Proof.
  destruct (cancel_of_running_job "job_1" Example.running
              (Enhanced.mkJobInfo (Enhanced.sanitizeRequest Example.enhancedRequest)
                 0%N Enhanced.running None None None)
              ltac:(vm_compute; reflexivity) eq_refl) as (_ & H & _).
  by rewrite H.
Defined.

End Further.

(** * Further properties *)

(** ** Validation (utils/index.ts) *)

Section Validation.

Local Open Scope nat_scope.

Lemma missingOrBlank_false x :
  Utils.missingOrBlank x = false <-> exists s, x = Some s /\ JS.trim s <> "".
Proof.
  unfold Utils.missingOrBlank. split.
  - destruct x as [s|]; [| discriminate]. intros H. exists s. split; [reflexivity |].
    apply orb_false_iff in H as [_ H]. apply Nat.eqb_neq in H.
    intros E. by rewrite E in H.
  - intros (s & -> & H). apply orb_false_iff. split.
    + destruct s; [| reflexivity]. by destruct H.
    + apply Nat.eqb_neq. by destruct (JS.trim s).
Qed.

(** A request passes validation exactly when its three fields are
    present and not blank and the requirements are at most 10,000
    characters long. *)
Theorem validation_accepts_exactly (request : Utils.PartialRequest) :
  Utils.validateGenerationRequest request = []
  <-> exists r f l,
        request = Utils.mkPartial (Some r) (Some f) (Some l)
        /\ JS.trim r <> "" /\ JS.trim f <> "" /\ JS.trim l <> ""
        /\ String.length r <= tenThousand.
Proof.
  destruct request as [r f l]. unfold Utils.validateGenerationRequest.
  cbn [Utils.p_requirements Utils.p_framework Utils.p_language]. split.
  - destruct (Utils.missingOrBlank r) eqn:Hr;
      [destruct (Utils.missingOrBlank f), (Utils.missingOrBlank l), r as [s|];
       try destruct (JS.truthy s && (tenThousand <? String.length s)); discriminate |].
    destruct (Utils.missingOrBlank f) eqn:Hf;
      [destruct (Utils.missingOrBlank l), r as [s|];
       try destruct (JS.truthy s && (tenThousand <? String.length s)); discriminate |].
    destruct (Utils.missingOrBlank l) eqn:Hl;
      [destruct r as [s|];
       try destruct (JS.truthy s && (tenThousand <? String.length s)); discriminate |].
    apply missingOrBlank_false in Hr as (r' & -> & Hr).
    apply missingOrBlank_false in Hf as (f' & -> & Hf).
    apply missingOrBlank_false in Hl as (l' & -> & Hl).
    destruct (JS.truthy r' && (tenThousand <? String.length r')) eqn:Hlong;
      [discriminate |].
    intros _. exists r', f', l'. split_and!; try done.
    apply andb_false_iff in Hlong as [Ht | Hlen].
    + destruct r'; [by destruct Hr | discriminate].
    + by apply Nat.ltb_ge in Hlen.
  - intros (r' & f' & l' & [= -> -> ->] & Hr & Hf & Hl & Hlen).
    rewrite (proj2 (missingOrBlank_false (Some r'))) by eauto.
    rewrite (proj2 (missingOrBlank_false (Some f'))) by eauto.
    rewrite (proj2 (missingOrBlank_false (Some l'))) by eauto.
    apply Nat.ltb_ge in Hlen. by rewrite Hlen, andb_false_r.
Qed.

End Validation.

(** ** Sanitizing (utils/index.ts) *)

Section SanitizeMore.

Local Open Scope nat_scope.
Local Arguments String.append !_ _ / : simpl nomatch.

Lemma trimStart_id s :
  (forall c, Text.firstChar s = Some c -> JS.isWhiteSpace c = false) ->
  JS.trimStart s = s.
Proof. destruct s as [|c s]; [reflexivity |]. intros H. simpl. by rewrite (H c). Qed.

Lemma trimEnd_id s :
  (forall c, Text.lastChar s = Some c -> JS.isWhiteSpace c = false) ->
  JS.trimEnd s = s.
Proof.
  induction s as [|c s IH]; [reflexivity |]. intros H. simpl.
  destruct s as [|d s].
  - simpl. by rewrite (H c).
  - rewrite IH by (intros e He; by apply H). reflexivity.
Qed.

Lemma trim_id s : Text.trimmed s -> JS.trim s = s.
Proof.
  intros [H1 H2]. unfold JS.trim. rewrite (trimStart_id s H1). by apply trimEnd_id.
Qed.

Lemma runsBelow_mono c k cur cur' s :
  cur' <= cur -> Text.runsBelow c k cur s = true -> Text.runsBelow c k cur' s = true.
Proof.
  revert cur cur'. induction s as [|d s IH]; intros cur cur' Hle; simpl; [done |].
  destruct (Ascii.eqb d c); [| done].
  intros [H1 H2]%andb_true_iff. apply andb_true_iff. split.
  - apply Nat.ltb_lt in H1. apply Nat.ltb_lt. lia.
  - apply (IH (S cur)); [lia | assumption].
Qed.

Lemma runsBelow_suffix c k cur a b :
  Text.runsBelow c k cur (a ++ b)%string = true -> Text.runsBelow c k 0 b = true.
Proof.
  revert cur. induction a as [|d a IH]; intros cur; simpl.
  - apply runsBelow_mono. lia.
  - destruct (Ascii.eqb d c).
    + intros [_ H]%andb_true_iff. by apply IH in H.
    + apply IH.
Qed.

Lemma runsBelow_prefix c k cur a b :
  Text.runsBelow c k cur (a ++ b)%string = true -> Text.runsBelow c k cur a = true.
Proof.
  revert cur. induction a as [|d a IH]; intros cur; simpl; [done |].
  destruct (Ascii.eqb d c).
  - intros [H1 H2]%andb_true_iff. apply andb_true_iff. split; [done |]. by apply IH in H2.
  - apply IH.
Qed.

Lemma trim_noTripleNewline s :
  Text.noTripleNewline s = true -> Text.noTripleNewline (JS.trim s) = true.
Proof.
  unfold Text.noTripleNewline. destruct (trim_split s) as (pre & post & E & _).
  intros H. rewrite E in H. apply runsBelow_suffix in H. by apply runsBelow_prefix in H.
Qed.

Lemma trim_noAngle s : Text.noAngle s = true -> Text.noAngle (JS.trim s) = true.
Proof.
  unfold Text.noAngle. destruct (trim_split s) as (pre & post & E & _).
  intros H. rewrite E, !allChars_append in H.
  by apply andb_true_iff in H as [_ [H _]%andb_true_iff].
Qed.

Lemma length_trim s : String.length (JS.trim s) <= String.length s.
Proof.
  destruct (trim_split s) as (pre & post & E & _).
  rewrite E at 2. rewrite !length_append. lia.
Qed.

(** Runs of fewer than three line feeds are left alone. *)
Lemma replaceRuns_id rep s : forall p,
  p < 3 -> Text.runsBelow LF 3 p s = true ->
  JS.replaceRuns LF 3 rep p s = (JS.repeat_char LF p ++ s)%string.
Proof.
  induction s as [|d s IH]; intros p Hp; simpl.
  - intros _. unfold JS.flushRun. destruct (Nat.leb_spec 3 p); [lia |].
    by rewrite append_nil_r.
  - destruct (Ascii.eqb_spec d LF) as [->|Hd].
    + intros [H1 H2]%andb_true_iff. apply Nat.ltb_lt in H1.
      rewrite (IH (S p)) by (lia || assumption). by rewrite repeat_char_snoc.
    + intros H. rewrite (IH 0) by (lia || assumption).
      unfold JS.flushRun. destruct (Nat.leb_spec 3 p); [lia |]. reflexivity.
Qed.

(** A field that is already clean is left as it is. *)
Lemma sanitizeInput_clean s :
  Text.trimmed s -> Text.noAngle s = true -> Text.noTripleNewline s = true ->
  String.length s <= tenThousand ->
  Utils.sanitizeInput s = s.
Proof.
  intros Ht Ha Hn Hl. unfold Utils.sanitizeInput.
  rewrite (trim_id s Ht), (removeAll_id Utils.isAngle s Ha).
  rewrite (replaceRuns_id _ s 0) by (lia || assumption).
  by apply substring0_short.
Qed.

(** [sanitizeInput] is not idempotent: removing angle brackets can
    uncover white space at the ends (and truncation can cut before
    white space), which only a second pass trims.  A second pass does
    nothing but that, and a third pass nothing at all. *)
Theorem sanitizeInput_twice (x : string) :
  Utils.sanitizeInput (Utils.sanitizeInput x) = JS.trim (Utils.sanitizeInput x)
  /\ Utils.sanitizeInput (Utils.sanitizeInput (Utils.sanitizeInput x))
     = Utils.sanitizeInput (Utils.sanitizeInput x)
  /\ (Text.trimmed (Utils.sanitizeInput x) ->
      Utils.sanitizeInput (Utils.sanitizeInput x) = Utils.sanitizeInput x)
  /\ Utils.sanitizeInput (Utils.sanitizeInput "< a") <> Utils.sanitizeInput "< a".
Proof.
  set (y := Utils.sanitizeInput x).
  assert (Utils.sanitizeInput y = JS.trim y) as Htwice.
  { unfold Utils.sanitizeInput at 1.
    rewrite (removeAll_id Utils.isAngle (JS.trim y))
      by (apply trim_noAngle, sanitizeInput_noAngle).
    rewrite (replaceRuns_id _ (JS.trim y) 0);
      [| lia | apply trim_noTripleNewline, sanitizeInput_noTripleNewline].
    apply substring0_short. etransitivity; [apply length_trim |].
    apply sanitizeInput_length. }
  split_and!.
  - exact Htwice.
  - rewrite Htwice. apply sanitizeInput_clean.
    + apply trim_trimmed.
    + apply trim_noAngle, sanitizeInput_noAngle.
    + apply trim_noTripleNewline, sanitizeInput_noTripleNewline.
    + etransitivity; [apply length_trim | apply sanitizeInput_length].
  - intros Ht. rewrite Htwice. by apply trim_id.
  - vm_compute. discriminate.
Qed.

Lemma removeAll_empty cls s :
  JS.removeAll cls s = "" <-> Text.allChars cls s = true.
Proof.
  induction s as [|c s IH]; simpl; [done |].
  destruct (cls c); simpl; [exact IH |]. split; discriminate.
Qed.

Lemma append_empty (a b : string) : (a ++ b)%string = "" -> a = "" /\ b = "".
Proof. destruct a; simpl; [done | discriminate]. Qed.

Lemma replaceRuns_empty rep s : forall p,
  rep <> "" -> JS.replaceRuns LF 3 rep p s = "" -> p = 0 /\ s = "".
Proof.
  induction s as [|d s IH]; intros p Hrep; simpl.
  - unfold JS.flushRun. destruct (3 <=? p); [done |].
    destruct p; [done | discriminate].
  - destruct (Ascii.eqb d LF).
    + intros H. apply IH in H as [H _]; [discriminate | assumption].
    + intros H. apply append_empty in H as [_ H]. discriminate.
Qed.

Lemma substring0_empty n s : 0 < n -> JS.substring0 n s = "" -> s = "".
Proof.
  unfold JS.substring0. destruct n; [lia |]. destruct s; [done |]. simpl. discriminate.
Qed.

Lemma sanitizeInput_empty x :
  Utils.sanitizeInput x = "" <-> Text.allChars Utils.isAngle (JS.trim x) = true.
Proof.
  unfold Utils.sanitizeInput. split.
  - intros H. apply substring0_empty in H; [| unfold tenThousand; lia].
    apply replaceRuns_empty in H as [_ H]; [| discriminate]. by apply removeAll_empty.
  - intros H. apply removeAll_empty in H. by rewrite H.
Qed.

End SanitizeMore.

(** ** The enhanced service: what validation lets through *)

Section AcceptedRequests.

(** A request the enhanced service accepts is registered with its
    fields sanitized, and sanitizing empties a field exactly when the
    field, trimmed, consists of angle brackets only: validation comes
    first and does not see that. *)
Theorem accepted_field_can_be_emptied (request : Utils.GenerationRequest)
    (s : Enhanced.Service) :
  Utils.validateGenerationRequest (Utils.partial request) = [] ->
  let sr := Enhanced.sanitizeRequest request in
  let s1 := snd (Enhanced.beginGeneration request s) in
  Enhanced.request <$> (Enhanced.activeJobs s1 !! Utils.jobId request) = Some sr
  /\ (Utils.requirements sr = ""
      <-> Text.allChars Utils.isAngle (JS.trim (Utils.requirements request)) = true)
  /\ (Utils.framework sr = ""
      <-> Text.allChars Utils.isAngle (JS.trim (Utils.framework request)) = true)
  /\ (Utils.language sr = ""
      <-> Text.allChars Utils.isAngle (JS.trim (Utils.language request)) = true).
Proof.
  intros Hv sr s1. split_and!.
  - unfold s1. rewrite (beginGeneration_accepts request s Hv). cbn.
    by rewrite lookup_insert_eq.
  - apply sanitizeInput_empty.
  - apply sanitizeInput_empty.
  - apply sanitizeInput_empty.
Qed.

Lemma angle_brackets_accepted_and_emptied :
  Utils.validateGenerationRequest
    (Utils.partial (Utils.mkRequest "job_2" "<>" "react" "python")) = []
  /\ (Utils.requirements <$>
        (Enhanced.request <$>
           (Enhanced.activeJobs
              (snd (Enhanced.beginGeneration
                      (Utils.mkRequest "job_2" "<>" "react" "python")
                      (Enhanced.newService None 0%N))) !! "job_2")))
     = Some "".
Proof.
  split; [reflexivity |].
  destruct (accepted_field_can_be_emptied
              (Utils.mkRequest "job_2" "<>" "react" "python")
              (Enhanced.newService None 0%N) eq_refl) as (Hreg & Hreq & _).
  cbn [Utils.jobId] in Hreg. rewrite Hreg.
  apply (f_equal (@Some string)). by apply Hreq.
Defined.

End AcceptedRequests.

(** ** The time estimate (utils/index.ts) *)

Section Estimate.

Local Open Scope nat_scope.

(** The estimate lies between 30 and 100 seconds, so the cap of 120 is
    never reached; requirements of more than 500 words give at least
    80, requirements of at most 100 words at most 50. *)
Theorem estimateGenerationTime_bounds (requirements framework language : string) :
  let t := Enhanced.estimateGenerationTime requirements framework language in
  30 <= t <= 100
  /\ (500 < Enhanced.wordCount requirements -> 80 <= t)
  /\ (Enhanced.wordCount requirements <= 100 -> t <= 50).
Proof.
  unfold Enhanced.estimateGenerationTime. cbv zeta.
  generalize (Enhanced.wordCount requirements). intros wc.
  destruct (Nat.ltb_spec 100 wc), (Nat.ltb_spec 300 wc), (Nat.ltb_spec 500 wc);
    repeat match goal with
      | |- context [if ?b then _ else _] => destruct b
      end; lia.
Qed.

End Estimate.

(** ** Frameworks and languages (utils/index.ts) *)

Section Parse.

Local Open Scope nat_scope.
Local Arguments String.append !_ _ / : simpl nomatch.

Lemma allChars_impl (P Q : ascii -> bool) s :
  (forall c, P c = true -> Q c = true) ->
  Text.allChars P s = true -> Text.allChars Q s = true.
Proof.
  intros H. induction s as [|c s IH]; simpl; [done |].
  intros [Hc Hs]%andb_true_iff. by rewrite (H c Hc), IH.
Qed.

Lemma lowerChar_alnum c : UtilsMore.isLowerAlnum c = true -> JS.lowerChar c = c.
Proof. destruct c as [[] [] [] [] [] [] [] []]; (reflexivity || discriminate). Qed.

Lemma toLowerCase_alnum s :
  Text.allChars UtilsMore.isLowerAlnum s = true -> JS.toLowerCase s = s.
Proof.
  induction s as [|c s IH]; simpl; [done |].
  intros [Hc Hs]%andb_true_iff. by rewrite (lowerChar_alnum c Hc), IH.
Qed.

Lemma normalize_alnum s : Text.allChars UtilsMore.isLowerAlnum (UtilsMore.normalize s) = true.
Proof.
  unfold UtilsMore.normalize.
  eapply allChars_impl; [| apply removeAll_allChars].
  intros c. cbn beta. by rewrite negb_involutive.
Qed.

Lemma normalize_idem s : UtilsMore.normalize (UtilsMore.normalize s) = UtilsMore.normalize s.
Proof.
  unfold UtilsMore.normalize at 1. rewrite (toLowerCase_alnum _ (normalize_alnum s)).
  apply removeAll_id. eapply allChars_impl; [| apply normalize_alnum].
  intros c. cbn beta. by rewrite negb_involutive.
Qed.

(** The normalized names consist of lower-case letters and digits, and
    parsing them again changes nothing: same names, same verdict. *)
Theorem parseFrameworkLanguage_normal_form (framework language : string) :
  let p := UtilsMore.parseFrameworkLanguage framework language in
  Text.allChars UtilsMore.isLowerAlnum (UtilsMore.normalizedFramework p) = true
  /\ Text.allChars UtilsMore.isLowerAlnum (UtilsMore.normalizedLanguage p) = true
  /\ UtilsMore.parseFrameworkLanguage (UtilsMore.normalizedFramework p)
       (UtilsMore.normalizedLanguage p) = p
  /\ UtilsMore.parseFrameworkLanguage (JS.toLowerCase framework) (JS.toLowerCase language)
     = p.
Proof.
  cbv zeta. unfold UtilsMore.parseFrameworkLanguage.
  cbn [UtilsMore.normalizedFramework UtilsMore.normalizedLanguage]. split_and!.
  - apply normalize_alnum.
  - apply normalize_alnum.
  - by rewrite !normalize_idem.
  - unfold UtilsMore.normalize. by rewrite !toLowerCase_idem.
Qed.

Lemma includes_empty s : Enhanced.includes "" s = true.
Proof. by destruct s. Qed.

(** Edge cases of the verdict.  A name without any letter or digit
    normalizes to the empty string, which every supported name
    includes, so it is recognised.  The supported framework [asp.net]
    is not: its normalized form [aspnet] has lost the dot.  Every
    other supported name is recognised, in any letter case. *)
Theorem parseFrameworkLanguage_edges :
  (forall framework language,
      UtilsMore.normalize framework = "" ->
      UtilsMore.isValid (UtilsMore.parseFrameworkLanguage framework language)
      = UtilsMore.recognised UtilsMore.supportedLanguages (UtilsMore.normalize language))
  /\ (forall framework language,
        UtilsMore.normalize framework = "" -> UtilsMore.normalize language = "" ->
        UtilsMore.isValid (UtilsMore.parseFrameworkLanguage framework language) = true)
  /\ (forall framework language,
        JS.toLowerCase framework = "asp.net" ->
        UtilsMore.isValid (UtilsMore.parseFrameworkLanguage framework language) = false)
  /\ (forall framework language,
        In (JS.toLowerCase framework) UtilsMore.supportedFrameworks ->
        JS.toLowerCase framework <> "asp.net" ->
        In (JS.toLowerCase language) UtilsMore.supportedLanguages ->
        UtilsMore.isValid (UtilsMore.parseFrameworkLanguage framework language) = true).
Proof.
  split_and!.
  - intros f l Hf. unfold UtilsMore.parseFrameworkLanguage. cbn [UtilsMore.isValid].
    rewrite Hf. reflexivity.
  - intros f l Hf Hl. unfold UtilsMore.parseFrameworkLanguage. cbn [UtilsMore.isValid].
    rewrite Hf, Hl. reflexivity.
  - intros f l Hf. unfold UtilsMore.parseFrameworkLanguage, UtilsMore.normalize.
    cbn [UtilsMore.isValid]. rewrite Hf. reflexivity.
  - intros f l Hf Hne Hl.
    unfold UtilsMore.parseFrameworkLanguage, UtilsMore.normalize. cbn [UtilsMore.isValid].
    apply andb_true_iff. split.
    + revert Hf Hne. generalize (JS.toLowerCase f). intros n Hf Hne.
      cbn in Hf.
      repeat (destruct Hf as [<- | Hf]; [first [reflexivity | by destruct Hne] |]).
      destruct Hf.
    + revert Hl. generalize (JS.toLowerCase l). intros n Hl. cbn in Hl.
      repeat (destruct Hl as [<- | Hl]; [reflexivity |]). destruct Hl.
Qed.

Lemma parseFrameworkLanguage_examples :
  UtilsMore.isValid (UtilsMore.parseFrameworkLanguage "!!!" "???") = true
  /\ UtilsMore.isValid (UtilsMore.parseFrameworkLanguage "ASP.NET" "csharp") = false
  /\ UtilsMore.isValid (UtilsMore.parseFrameworkLanguage "React" "TypeScript") = true.
Proof.
  destruct parseFrameworkLanguage_edges as (_ & H1 & H2 & H3). split_and!.
  - by apply H1.
  - by apply H2.
  - apply H3; [cbn; tauto | discriminate | cbn; tauto].
Defined.

End Parse.

(** ** The package description and the files (utils/index.ts) *)

Section Package.

Local Open Scope nat_scope.
Local Arguments String.append !_ _ / : simpl nomatch.

Lemma replaceSpaceRuns_chars (P : ascii -> bool) rep b s :
  Text.allChars P rep = true ->
  Text.allChars (fun c => JS.isWhiteSpace c || P c) s = true ->
  Text.allChars P (JS.replaceSpaceRuns rep b s) = true.
Proof.
  intros Hrep. revert b. induction s as [|c s IH]; intros b; simpl; [reflexivity |].
  intros [Hc Hs]%andb_true_iff.
  destruct (JS.isWhiteSpace c).
  - destruct b; [by apply IH |]. rewrite allChars_append, Hrep. by apply IH.
  - simpl in *. rewrite Hc. by apply IH.
Qed.

Lemma packageName_chars request :
  Text.allChars UtilsMore.isNameChar (UtilsMore.packageName request) = true.
Proof.
  unfold UtilsMore.packageName. apply allChars_substring.
  apply replaceSpaceRuns_chars; [reflexivity |].
  eapply allChars_impl; [| apply removeAll_allChars].
  intros c. cbn beta. rewrite negb_involutive.
  unfold Utils.isPackageNameChar, UtilsMore.isNameChar, UtilsMore.isLowerAlnum.
  intros H. apply orb_true_iff in H as [H | H]; rewrite H; [| reflexivity].
  by rewrite !orb_true_r.
Qed.

Lemma jsonEscapeChar_name c :
  UtilsMore.isNameChar c = true -> Utils.jsonEscapeChar c = String c "".
Proof. destruct c as [[] [] [] [] [] [] [] []]; (reflexivity || discriminate). Qed.

Lemma jsonEscape_name s :
  Text.allChars UtilsMore.isNameChar s = true -> Utils.jsonEscape s = s.
Proof.
  induction s as [|c s IH]; simpl; [done |].
  intros [Hc Hs]%andb_true_iff. by rewrite (jsonEscapeChar_name c Hc), IH.
Qed.

(** The name written to package.json is never empty, is at most 50
    characters long and consists of lower-case letters, digits and
    hyphens, so it appears in the text as it is, unescaped. *)
Theorem package_name_is_well_formed (request : Utils.GenerationRequest) :
  let name := UtilsMore.writtenName request in
  name <> ""
  /\ String.length name <= 50
  /\ Text.allChars UtilsMore.isNameChar name = true
  /\ exists rest,
       Utils.generatePackageJson request
       = ("{" ++ nl ++ "  " ++ dquote ++ "name" ++ dquote ++ ": "
          ++ dquote ++ name ++ dquote ++ rest)%string.
Proof.
  cbv zeta. unfold UtilsMore.writtenName.
  assert (Text.allChars UtilsMore.isNameChar
            (if JS.truthy (UtilsMore.packageName request)
             then UtilsMore.packageName request else "generated-app") = true) as Hchars.
  { destruct (JS.truthy (UtilsMore.packageName request));
      [apply packageName_chars | reflexivity]. }
  split_and!.
  - destruct (UtilsMore.packageName request) eqn:E; cbn; discriminate.
  - destruct (JS.truthy (UtilsMore.packageName request)).
    + apply length_substring0.
    + cbn. lia.
  - exact Hchars.
  - unfold Utils.generatePackageJson. cbv zeta. fold (UtilsMore.packageName request).
    unfold Utils.jsonString at 1 2. rewrite (jsonEscape_name _ Hchars).
    change (Utils.jsonEscape "name") with "name".
    rewrite !append_assoc. by eexists.
Qed.

End Package.

Section Files.

Local Open Scope list_scope.

Lemma compileStep_lookup request ext files o (k : string) :
  is_Some (Utils.compileStep request ext files o !! k)
  <-> is_Some (files !! k) \/ In k (UtilsMore.filesOf ext o).
Proof.
  unfold Utils.compileStep, UtilsMore.filesOf.
  repeat match goal with |- context [if ?b then _ else _] => destruct b end;
    rewrite ?lookup_insert_is_Some'; cbn [In]; intuition.
Qed.

Lemma fold_compileStep_lookup request ext (k : string) outs : forall files,
  is_Some (fold_left (Utils.compileStep request ext) outs files !! k)
  <-> is_Some (files !! k) \/ exists o, In o outs /\ In k (UtilsMore.filesOf ext o).
Proof.
  induction outs as [|o outs IH]; intros files; cbn [fold_left].
  - split; [by left |]. intros [H | (o & [] & _)]. exact H.
  - rewrite IH, compileStep_lookup. split.
    + intros [[H | H] | (o' & Hin & Hk)].
      * by left.
      * right. exists o. split; [by left | exact H].
      * right. exists o'. split; [by right | exact Hk].
    + intros [H | (o' & [<- | Hin] & Hk)].
      * left. by left.
      * left. by right.
      * right. by exists o'.
Qed.

(** The compiled map holds a file name exactly when some output
    writes it: one name for the product manager and the architect,
    three for the developer, two for the QA engineer, [<role>.md] for
    any other role.  No output, no file. *)
Theorem compiled_files_are_those_written (agentOutputs : list Utils.AgentOutput)
    (request : Utils.GenerationRequest) (name : string) :
  let ext := JS.toString (Utils.getFileExtension (Utils.language request)) in
  (is_Some (Utils.compileCodeFiles agentOutputs request !! name)
   <-> exists o, In o agentOutputs /\ In name (UtilsMore.filesOf ext o))
  /\ Utils.compileCodeFiles [] request = ∅.
Proof.
  cbv zeta. split; [| reflexivity].
  unfold Utils.compileCodeFiles. rewrite fold_compileStep_lookup.
  rewrite lookup_empty. split.
  - intros [[x H] | H]; [discriminate | exact H].
  - intros H. by right.
Qed.

End Files.

(** ** The enhanced service: how a job ends *)

Section EnhancedEndings.

Import Utils.

Local Open Scope list_scope.

Variable runCrew : bool -> GenerationRequest -> Enhanced.CrewRun.

Lemma onTaskOutput_emitted jid tos : forall s,
  exists mid,
    Enhanced.emitted (fold_left (Enhanced.onTaskOutput jid) tos s)
    = Enhanced.emitted s ++ mid
    /\ Forall (fun e => EnhancedMore.isAgentCompleted e = true) mid
    /\ List.length mid = List.length tos.
Proof.
  induction tos as [|[pause [[taskId agentRole] out]] tos IH]; intros s; cbn [fold_left].
  - exists []. by rewrite app_nil_r.
  - destruct (IH (Enhanced.onTaskOutput jid s (pause, (taskId, agentRole, out))))
      as (mid & E & Hmid & Hlen).
    eexists (_ :: mid). split; [| split].
    + rewrite E. cbn. by rewrite <- app_assoc.
    + by constructor.
    + cbn. by rewrite Hlen.
Qed.

Lemma onError_spec jid message s j :
  Enhanced.activeJobs s !! jid = Some j ->
  let s' := Enhanced.onError jid message s in
  Enhanced.emitted s'
  = Enhanced.emitted s ++ [Enhanced.generation_failed jid message (Some (Enhanced.now s))]
  /\ Enhanced.activeJobs s' !! jid
     = Some (Enhanced.mkJobInfo (Enhanced.request j) (Enhanced.startTime j)
               Enhanced.failed (Some (Enhanced.now s)) (Enhanced.duration j)
               (Some message))
  /\ Enhanced.timers s' = Enhanced.timers s
  /\ Enhanced.now s' = Enhanced.now s.
Proof.
  intros Hj. unfold Enhanced.onError. rewrite Hj. cbn. split_and!; try reflexivity.
  by rewrite lookup_insert_eq.
Qed.

Lemma onSuccess_spec jid sr run s j e :
  Enhanced.kickoff run = Enhanced.Returned true e ->
  Enhanced.activeJobs
    (Enhanced.sleep (Enhanced.elapsed run)
       (fold_left (Enhanced.onTaskOutput jid) (Enhanced.taskOutputs run) s)) !! jid
  = Some j ->
  let s2 := Enhanced.sleep (Enhanced.elapsed run)
              (fold_left (Enhanced.onTaskOutput jid) (Enhanced.taskOutputs run) s) in
  let s' := Enhanced.finishGeneration jid sr run s in
  (exists files outs d,
      Enhanced.emitted s'
      = Enhanced.emitted s2
        ++ [Enhanced.generation_completed jid files outs d (Enhanced.now s2)])
  /\ Enhanced.activeJobs s' !! jid
     = Some (Enhanced.mkJobInfo (Enhanced.request j) (Enhanced.startTime j)
               Enhanced.completed (Some (Enhanced.now s2))
               (Some (Enhanced.now s2 - Enhanced.startTime j)%N) (Enhanced.error j))
  /\ Enhanced.timers s' = Enhanced.timers s2
  /\ Enhanced.now s' = Enhanced.now s2.
Proof.
  intros Hk Hj s2 s'. unfold s', Enhanced.finishGeneration. rewrite Hk. cbv zeta.
  fold s2. fold s2 in Hj. clearbody s2. clear s'. rewrite Hj. cbn.
  split_and!; try reflexivity.
  - by eexists _, _, _.
  - by rewrite lookup_insert_eq.
Qed.

Lemma finishGeneration_failure jid sr run s message :
  EnhancedMore.failureMessage (Enhanced.kickoff run) = Some message ->
  Enhanced.finishGeneration jid sr run s
  = Enhanced.onError jid message
      (Enhanced.sleep (Enhanced.elapsed run)
         (fold_left (Enhanced.onTaskOutput jid) (Enhanced.taskOutputs run) s)).
Proof.
  unfold Enhanced.finishGeneration.
  destruct (Enhanced.kickoff run) as [[|] [e|] | m |]; cbn; try discriminate;
    by intros [= <-].
Qed.

(** From the settled crew run on, for a job that is registered, in any
    status, with no eviction pending. *)
Lemma finishGeneration_settles jid sr run s j :
  Enhanced.activeJobs s !! jid = Some j ->
  Enhanced.noTimer jid s ->
  let s' := Enhanced.finishGeneration jid sr run s in
  Enhanced.noTimer jid s'
  /\ (exists mid final,
        Enhanced.emitted s' = Enhanced.emitted s ++ mid ++ [final]
        /\ Forall (fun e => EnhancedMore.isAgentCompleted e = true) mid
        /\ List.length mid = List.length (Enhanced.taskOutputs run)
        /\ match EnhancedMore.failureMessage (Enhanced.kickoff run) with
           | None =>
               exists files outs d,
                 final = Enhanced.generation_completed jid files outs d (Enhanced.now s')
           | Some message =>
               final = Enhanced.generation_failed jid message (Some (Enhanced.now s'))
           end)
  /\ Enhanced.activeJobs s' !! jid
     = Some match EnhancedMore.failureMessage (Enhanced.kickoff run) with
            | None =>
                Enhanced.mkJobInfo (Enhanced.request j) (Enhanced.startTime j)
                  Enhanced.completed (Some (Enhanced.now s'))
                  (Some (Enhanced.now s' - Enhanced.startTime j)%N) (Enhanced.error j)
            | Some message =>
                Enhanced.mkJobInfo (Enhanced.request j) (Enhanced.startTime j)
                  Enhanced.failed (Some (Enhanced.now s')) (Enhanced.duration j)
                  (Some message)
            end.
Proof.
  intros Hj Hno s'.
  destruct (onTaskOutput_kept jid jid (Enhanced.taskOutputs run) s Hno) as [Hno1 Ha1].
  destruct (onTaskOutput_emitted jid (Enhanced.taskOutputs run) s)
    as (mid & He1 & Hmid & Hlen).
  destruct (enhanced_sleep_kept jid (Enhanced.elapsed run) _ Hno1) as [Hno2 Ha2].
  rewrite Ha1, Hj in Ha2.
  destruct (EnhancedMore.failureMessage (Enhanced.kickoff run)) as [message|] eqn:Hf.
  - unfold s'. rewrite (finishGeneration_failure jid sr run s message Hf).
    destruct (onError_spec jid message _ j Ha2) as (He & Ha & Ht & Hn).
    split_and!.
    + unfold Enhanced.noTimer. rewrite Ht. exact Hno2.
    + exists mid, (Enhanced.generation_failed jid message
                     (Some (Enhanced.now
                              (Enhanced.sleep (Enhanced.elapsed run)
                                 (fold_left (Enhanced.onTaskOutput jid)
                                    (Enhanced.taskOutputs run) s))))).
      split_and!; try done.
      * rewrite He. cbn [Enhanced.sleep Enhanced.emitted]. by rewrite He1, <- app_assoc.
      * by rewrite Hn.
    + by rewrite Ha, Hn.
  - assert (exists e, Enhanced.kickoff run = Enhanced.Returned true e) as [e Hk].
    { destruct (Enhanced.kickoff run) as [[|] [e|] | m |]; try discriminate; by eexists. }
    destruct (onSuccess_spec jid sr run s j e Hk Ha2) as ((files & outs & d & He) & Ha & Ht & Hn).
    fold s' in He, Ha, Ht, Hn. split_and!.
    + unfold Enhanced.noTimer. rewrite Ht. exact Hno2.
    + eexists mid, _. split_and!; try done.
      * rewrite He. cbn [Enhanced.sleep Enhanced.emitted]. by rewrite He1, <- app_assoc.
      * rewrite Hn. by eexists _, _, _.
    + by rewrite Ha, Hn.
Qed.

End EnhancedEndings.

Section CancelRunning.

Lemma cancelJob_running_spec jobId s job :
  Enhanced.activeJobs s !! jobId = Some job ->
  Enhanced.status job = Enhanced.running ->
  fst (Enhanced.cancelJob jobId s)
  = Enhanced.SuccessResponse (Enhanced.CancelData jobId Enhanced.cancelled) (Enhanced.now s)
  /\ Enhanced.activeJobs (snd (Enhanced.cancelJob jobId s)) !! jobId
     = Some (Enhanced.mkJobInfo (Enhanced.request job) (Enhanced.startTime job)
               Enhanced.cancelled (Some (Enhanced.now s)) (Enhanced.duration job)
               (Enhanced.error job))
  /\ Enhanced.emitted (snd (Enhanced.cancelJob jobId s))
     = (Enhanced.emitted s
        ++ [Enhanced.generation_failed jobId "Job cancelled by user"
              (Some (Enhanced.now s))])%list
  /\ Enhanced.timers (snd (Enhanced.cancelJob jobId s)) = Enhanced.timers s.
Proof.
  intros Hjob Hst. unfold Enhanced.cancelJob. rewrite Hjob, Hst. cbn.
  split_and!; try reflexivity. by rewrite lookup_insert_eq.
Qed.

End CancelRunning.

Section EnhancedJobs.

Import Utils.

Local Open Scope list_scope.

Variable runCrew : bool -> GenerationRequest -> Enhanced.CrewRun.

(** The state in which an accepted request awaits its crew run. *)
Lemma beginGeneration_registers request s :
  validateGenerationRequest (partial request) = [] ->
  let sr := Enhanced.sanitizeRequest request in
  let s1 := snd (Enhanced.beginGeneration request s) in
  fst (Enhanced.beginGeneration request s) = Some sr
  /\ Enhanced.activeJobs s1 !! jobId request
     = Some (Enhanced.mkJobInfo sr (Enhanced.now s) Enhanced.running None None None)
  /\ (exists t, Enhanced.emitted s1
                = Enhanced.emitted s ++ [Enhanced.generation_started (jobId request) t 4 sr])
  /\ Enhanced.timers s1 = Enhanced.timers s
  /\ Enhanced.now s1 = Enhanced.now s
  /\ Enhanced.cerebras s1 = Enhanced.cerebras s.
Proof.
  intros Hv sr s1. unfold s1. rewrite (beginGeneration_accepts request s Hv). cbn.
  split_and!; try reflexivity.
  - by rewrite lookup_insert_eq.
  - by eexists.
Qed.

Lemma startGeneration_accepted request s :
  validateGenerationRequest (partial request) = [] ->
  Enhanced.startGeneration runCrew request s
  = Enhanced.cleanUpLater (jobId request)
      (Enhanced.finishGeneration (jobId request) (Enhanced.sanitizeRequest request)
         (runCrew (Enhanced.cerebras s) (Enhanced.sanitizeRequest request))
         (snd (Enhanced.beginGeneration request s))).
Proof.
  intros Hv. unfold Enhanced.startGeneration.
  by rewrite (beginGeneration_accepts request s Hv).
Qed.

(** A crew run that reports failure or throws: the job is marked
    failed with the error's message and its end time, and the failure
    is the last event, after the events of the tasks that finished. *)
Theorem failed_crew_run_is_recorded request s message :
  let sr := Enhanced.sanitizeRequest request in
  let s' := Enhanced.startGeneration runCrew request s in
  validateGenerationRequest (partial request) = [] ->
  Enhanced.noTimer (jobId request) s ->
  EnhancedMore.failureMessage (Enhanced.kickoff (runCrew (Enhanced.cerebras s) sr))
  = Some message ->
  Enhanced.activeJobs s' !! jobId request
  = Some (Enhanced.mkJobInfo sr (Enhanced.now s) Enhanced.failed
            (Some (Enhanced.now s')) None (Some message))
  /\ exists t mid,
       Enhanced.emitted s'
       = Enhanced.emitted s
         ++ Enhanced.generation_started (jobId request) t 4 sr
            :: mid
            ++ [Enhanced.generation_failed (jobId request) message
                  (Some (Enhanced.now s'))]
       /\ Forall (fun e => EnhancedMore.isAgentCompleted e = true) mid.
Proof.
  intros sr s' Hv Hno Hf. unfold s'. rewrite (startGeneration_accepted request s Hv).
  destruct (beginGeneration_registers request s Hv) as (_ & Ha & (t & He) & Ht & Hn & _).
  fold sr in Ha, He |- *.
  destruct (finishGeneration_settles (jobId request) sr
              (runCrew (Enhanced.cerebras s) sr) _ _ Ha) as (_ & Hem & Hjob).
  { unfold Enhanced.noTimer. by rewrite Ht. }
  rewrite Hf in Hem, Hjob. cbn [Enhanced.request Enhanced.startTime Enhanced.duration] in Hjob.
  destruct Hem as (mid & final & Hem & Hmid & _ & ->).
  split.
  - exact Hjob.
  - exists t, mid. split; [| exact Hmid].
    cbn [Enhanced.cleanUpLater Enhanced.setTimeout Enhanced.emitted Enhanced.now].
    by rewrite Hem, He, <- app_assoc.
Qed.

(** The [finally] block schedules the eviction whatever happened: from
    300000 ms after [startGeneration] has settled the job is not
    found; until then an accepted job (with no eviction pending from
    an earlier run under its id) is found, completed or failed. *)
Theorem enhanced_job_is_evicted request s dt :
  let s' := Enhanced.startGeneration runCrew request s in
  ((300000 <= dt)%N ->
   Enhanced.getJobStatus (jobId request) (Enhanced.sleep dt s')
   = Enhanced.ErrorResponse "Job not found" (Enhanced.now s' + dt)%N)
  /\ ((dt < 300000)%N ->
      validateGenerationRequest (partial request) = [] ->
      Enhanced.noTimer (jobId request) s ->
      exists job,
        Enhanced.activeJobs (Enhanced.sleep dt s') !! jobId request = Some job
        /\ (Enhanced.status job = Enhanced.completed
            \/ Enhanced.status job = Enhanced.failed)).
Proof.
  intros s'. split.
  - intros Hdt.
    assert (exists s2, s' = Enhanced.cleanUpLater (jobId request) s2) as [s2 ->].
    { unfold s', Enhanced.startGeneration.
      destruct (Enhanced.beginGeneration request s) as [[sr|] s1]; by eexists. }
    unfold Enhanced.getJobStatus.
    assert (Enhanced.activeJobs
              (Enhanced.sleep dt (Enhanced.cleanUpLater (jobId request) s2))
            !! jobId request = None) as ->; [| reflexivity].
    cbn [Enhanced.sleep Enhanced.cleanUpLater Enhanced.setTimeout Enhanced.activeJobs
         Enhanced.timers Enhanced.now].
    unfold Enhanced.expire. apply expire_lookup_due.
    rewrite List.filter_app. apply Exists_app. right. cbn [List.filter].
    change (Enhanced.due (Enhanced.now s2 + dt)
              ((Enhanced.now s2 + 300000)%N, jobId request))
      with (Enhanced.now s2 + 300000 <=? Enhanced.now s2 + dt)%N.
    replace (Enhanced.now s2 + 300000 <=? Enhanced.now s2 + dt)%N with true
      by (symmetry; apply N.leb_le; lia).
    by constructor.
  - intros Hdt Hv Hno. unfold s'. rewrite (startGeneration_accepted request s Hv).
    destruct (beginGeneration_registers request s Hv) as (_ & Ha & _ & Ht & _).
    destruct (finishGeneration_settles (jobId request) (Enhanced.sanitizeRequest request)
                (runCrew (Enhanced.cerebras s) (Enhanced.sanitizeRequest request)) _ _ Ha)
      as (Hno2 & _ & Hjob).
    { unfold Enhanced.noTimer. by rewrite Ht. }
    set (s2 := Enhanced.finishGeneration _ _ _ _) in *.
    eexists. split.
    + cbn [Enhanced.sleep Enhanced.cleanUpLater Enhanced.setTimeout Enhanced.activeJobs
           Enhanced.timers Enhanced.now].
      unfold Enhanced.expire. rewrite expire_lookup_other; [exact Hjob |].
      rewrite List.filter_app. apply Forall_app. split.
      * by apply Forall_list_filter.
      * cbn [List.filter].
        change (Enhanced.due (Enhanced.now s2 + dt)
                  ((Enhanced.now s2 + 300000)%N, jobId request))
          with (Enhanced.now s2 + 300000 <=? Enhanced.now s2 + dt)%N.
        replace (Enhanced.now s2 + 300000 <=? Enhanced.now s2 + dt)%N with false
          by (symmetry; apply N.leb_gt; lia).
        constructor.
    + destruct (EnhancedMore.failureMessage _); [by right | by left].
Qed.

(** Cancelling does not stop the crew: when the run of a cancelled job
    then succeeds, the job is marked completed and the completion is
    announced after the cancellation. *)
Theorem cancelled_job_still_completes request s run :
  let sr := Enhanced.sanitizeRequest request in
  let s1 := snd (Enhanced.beginGeneration request s) in
  let s2 := snd (Enhanced.cancelJob (jobId request) s1) in
  let s3 := Enhanced.finishGeneration (jobId request) sr run s2 in
  validateGenerationRequest (partial request) = [] ->
  Enhanced.noTimer (jobId request) s ->
  EnhancedMore.failureMessage (Enhanced.kickoff run) = None ->
  fst (Enhanced.cancelJob (jobId request) s1)
  = Enhanced.SuccessResponse (Enhanced.CancelData (jobId request) Enhanced.cancelled)
      (Enhanced.now s)
  /\ Enhanced.status <$> Enhanced.activeJobs s2 !! jobId request = Some Enhanced.cancelled
  /\ Enhanced.status <$> Enhanced.activeJobs s3 !! jobId request = Some Enhanced.completed
  /\ exists mid files outs d,
       Enhanced.emitted s3
       = Enhanced.emitted s1
         ++ Enhanced.generation_failed (jobId request) "Job cancelled by user"
              (Some (Enhanced.now s))
            :: mid
            ++ [Enhanced.generation_completed (jobId request) files outs d
                  (Enhanced.now s3)]
       /\ Forall (fun e => EnhancedMore.isAgentCompleted e = true) mid.
Proof.
  intros sr s1 s2 s3 Hv Hno Hf.
  destruct (beginGeneration_registers request s Hv) as (_ & Ha & _ & Ht & Hn & _).
  fold s1 sr in Ha, Ht, Hn.
  destruct (cancelJob_running_spec (jobId request) s1 _ Ha eq_refl)
    as (Hresp & Ha2 & He2 & Ht2).
  fold s2 in Ha2, He2, Ht2. cbn [Enhanced.request Enhanced.startTime Enhanced.duration
                                 Enhanced.error] in Ha2.
  destruct (finishGeneration_settles (jobId request) sr run s2 _ Ha2) as (_ & Hem & Hjob).
  { unfold Enhanced.noTimer. by rewrite Ht2, Ht. }
  fold s3 in Hem, Hjob. rewrite Hf in Hem, Hjob.
  destruct Hem as (mid & final & Hem & Hmid & _ & (files & outs & d & ->)).
  split_and!.
  - by rewrite Hresp, Hn.
  - by rewrite Ha2.
  - by rewrite Hjob.
  - exists mid, files, outs, d. split; [| exact Hmid].
    by rewrite Hem, He2, Hn, <- app_assoc.
Qed.

End EnhancedJobs.

(** ** The enhanced service: statistics and blank submissions *)

Section EnhancedStatistics.

Import Utils.

Local Open Scope nat_scope.
Local Open Scope list_scope.

Lemma count_by_status (l : list Enhanced.JobInfo) :
  List.length l
  = List.length (List.filter (fun job => EnhancedMore.JobState_eqb (Enhanced.status job)
                                           Enhanced.running) l)
    + List.length (List.filter (fun job => EnhancedMore.JobState_eqb (Enhanced.status job)
                                             Enhanced.completed) l)
    + List.length (List.filter (fun job => EnhancedMore.JobState_eqb (Enhanced.status job)
                                             Enhanced.failed) l)
    + List.length (List.filter (fun job => EnhancedMore.JobState_eqb (Enhanced.status job)
                                             Enhanced.cancelled) l).
Proof.
  induction l as [|job l IH]; [reflexivity |].
  cbn [List.filter List.length]. destruct (Enhanced.status job); cbn; lia.
Qed.

(** The statistics count every registered job once: the total is the
    sum of the running, completed and failed jobs and of the cancelled
    ones, which are in the total but in none of the three counts
    reported. *)
Theorem statistics_add_up (up : N) (s : Enhanced.Service) :
  let stats := fst (EnhancedMore.getStatistics up s) in
  EnhancedMore.totalJobs stats
  = EnhancedMore.runningJobs stats + EnhancedMore.completedJobs stats
    + EnhancedMore.failedJobs stats + EnhancedMore.countOf Enhanced.cancelled s
  /\ (EnhancedMore.totalJobs stats = 0 <-> Enhanced.activeJobs s = ∅).
Proof.
  cbn. split.
  - rewrite <- length_map_to_list.
    rewrite <- (length_map snd (map_to_list (Enhanced.activeJobs s))).
    apply count_by_status.
  - apply map_size_empty_iff.
Qed.

End EnhancedStatistics.

Section BlankSubmission.

Import Utils.

Local Open Scope list_scope.

Variable runCrew : bool -> GenerationRequest -> Enhanced.CrewRun.
Variable nanoid : nat -> string.

Lemma blank_not_accepted jobId r f l :
  JS.trim r = "" \/ JS.trim f = "" \/ JS.trim l = "" ->
  validateGenerationRequest
    (partial (mkRequest jobId (JS.trim r) (JS.trim f) (JS.trim l))) <> [].
Proof.
  intros H Hv. apply validation_accepts_exactly in Hv
    as (r' & f' & l' & [= <- <- <-] & Hr & Hf & Hl & _).
  destruct H as [H | [H | H]]; rewrite H in *; by cbn in *.
Qed.

(** The endpoint of the enhanced server checks the fields before it
    trims them: a submission with a field of white space only is
    answered with success and a job id, yet the service rejects the
    trimmed request, registers no job under the id and only emits a
    failure event. *)
Theorem blank_submission_is_answered_with_success r f l sv :
  r <> "" -> f <> "" -> l <> "" ->
  JS.trim r = "" \/ JS.trim f = "" \/ JS.trim l = "" ->
  let jobId := nanoid (Enhanced.drawn sv) in
  let out := Enhanced.postGenerate runCrew nanoid (Routes.mkBody (Some r) (Some f) (Some l)) sv in
  fst out = Enhanced.Started jobId "Code generation started" "30-60 seconds"
  /\ Enhanced.activeJobs (Enhanced.service (snd out)) = Enhanced.activeJobs (Enhanced.service sv)
  /\ exists errors,
       errors <> []
       /\ Enhanced.emitted (Enhanced.service (snd out))
          = Enhanced.emitted (Enhanced.service sv)
            ++ [Enhanced.generation_failed jobId
                  ("Validation failed: " ++ JS.join ", " errors) None].
Proof.
  intros Hr Hf Hl Hblank jobId out. unfold out, Enhanced.postGenerate.
  cbn [Routes.b_requirements Routes.b_framework Routes.b_language Routes.falsy].
  destruct r as [|c r]; [done |]. destruct f as [|d f]; [done |].
  destruct l as [|e l]; [done |].
  cbn [JS.truthy negb orb default fst snd Enhanced.service].
  fold jobId. unfold Enhanced.startGeneration, Enhanced.beginGeneration.
  pose proof (blank_not_accepted jobId _ _ _ Hblank) as Hv.
  destruct (validateGenerationRequest _) as [|m errors] eqn:E; [done |].
  cbn [List.length Nat.ltb Nat.leb fst snd jobId]. split_and!.
  - reflexivity.
  - reflexivity.
  - exists (m :: errors). split; [done | reflexivity].
Qed.

End BlankSubmission.

Lemma blank_requirements_answered_with_success :
  fst (Enhanced.postGenerate Example.crew Example.nanoid
         (Routes.mkBody (Some "   ") (Some "react") (Some "python"))
         (Enhanced.mkServer (Enhanced.newService None 0%N) 0))
  = Enhanced.Started "id0" "Code generation started" "30-60 seconds"
  /\ Enhanced.activeJobs
       (Enhanced.service
          (snd (Enhanced.postGenerate Example.crew Example.nanoid
                  (Routes.mkBody (Some "   ") (Some "react") (Some "python"))
                  (Enhanced.mkServer (Enhanced.newService None 0%N) 0))))
     = ∅.
Proof.
  destruct (blank_submission_is_answered_with_success Example.crew Example.nanoid
              "   " "react" "python"
              (Enhanced.mkServer (Enhanced.newService None 0%N) 0))
    as (H1 & H2 & _); try discriminate.
  - by left.
  - split; [exact H1 | exact H2].
Defined.

(** ** The job runner: what the agents return is what the job reports *)

Section CrewCalls.

Local Open Scope nat_scope.
Local Open Scope list_scope.

Import Crew.

Variable execute : nat -> Agents.AIAgent -> string -> option string -> Agents.Outcome.
Variable request : GenerationRequest.

Lemma executeTasksFrom_genuine r indices : forall context job s,
  exists delta,
    trace (snd (snd (executeTasksFrom execute request r indices context (job, s))))
    = trace s ++ delta
    /\ Forall (CrewMore.genuine execute) (invocations r delta).
Proof.
  induction indices as [|i rest IH]; intros context job s; cbn [executeTasksFrom fst snd].
  - exists []. split; [by rewrite app_nil_r | constructor].
  - destruct (job_tasks job !! i) as [task|]; cbn [snd];
      [| exists []; split; [by rewrite app_nil_r | constructor]].
    destruct (List.find _ agents) as [agent|]; [| apply IH].
    destruct (Agents.result (execute (calls s) agent (task_description task)
                               (Some context))) as [output|error] eqn:E.
    + destruct (runStage_ok execute request r i task agent context job s output E)
        as (job' & s' & snaps & Hrun & (delta & Ht & _ & Hinv & _) & _).
      rewrite Hrun.
      destruct (IH (context ++ contextEntry (Agents.role agent) output)%string job' s')
        as (delta' & Ht' & Hg').
      exists (delta ++ delta'). split.
      * by rewrite Ht', Ht, <- app_assoc.
      * unfold invocations in *. rewrite omap_app, Hinv.
        constructor; [by exists (calls s) | exact Hg'].
    + destruct (runStage_fail execute request r i task agent context job s error E)
        as (job' & s' & snaps & Hrun & (delta & Ht & _ & Hinv & _) & _).
      rewrite Hrun. cbn [snd]. exists delta. split; [exact Ht |].
      rewrite Hinv. constructor; [by exists (calls s) | constructor].
Qed.

(** What a run adds to the trace begins with the new job and the
    announcement of the request; every call recorded is a call of
    [execute]. *)
Lemma startGeneration_events s :
  let s' := startGeneration execute request s in
  (exists rest,
      since s s'
      = Mutated (nextRef s) (newJobStatus request (now s))
        :: Sent {| data := generation_started (jobId request) request;
                   ev_timestamp := now s |}
        :: rest)
  /\ Forall (CrewMore.genuine execute) (invocations (nextRef s) (since s s')).
Proof.
  intros s'. destruct (registerJob_spec request s) as (s3 & E & Ht3 & _).
  destruct (executeTasksFrom_genuine (nextRef s)
              (seq 0 (List.length (job_tasks (newJobStatus request (now s))))) ""
              (newJobStatus request (now s)) s3) as (delta & Htd & Hg).
  assert (exists s1 ending,
             s' = ending s1
             /\ trace s1 = trace s3 ++ delta
             /\ Quiet s1 (ending s1)) as (s1 & ending & Hs' & Ht1 & Hq).
  { unfold s', startGeneration. rewrite E. unfold executeTasks. cbn [fst].
    destruct (executeTasksFrom execute request (nextRef s) _ "" _)
      as [[error|] [job' s1]]; cbn [snd] in Htd.
    - exists s1, (failGeneration (jobId request) error).
      split_and!; [reflexivity | exact Htd | apply failGeneration_quiet].
    - exists s1, (completeGeneration (jobId request)).
      split_and!; [reflexivity | exact Htd | apply completeGeneration_quiet]. }
  destruct Hq as (deltaE & Hte & _ & Hie & _). rewrite <- Hs' in Hte.
  assert (since s s'
          = [Mutated (nextRef s) (newJobStatus request (now s));
             Sent {| data := generation_started (jobId request) request;
                     ev_timestamp := now s |}] ++ delta ++ deltaE) as Hsince.
  { apply since_app. by rewrite Hte, Ht1, Ht3, <- !app_assoc. }
  split.
  - rewrite Hsince. by eexists.
  - rewrite Hsince. unfold invocations in *. rewrite !omap_app, Hie, app_nil_r.
    exact Hg.
Qed.

End CrewCalls.

Section CrewResults.

Local Open Scope nat_scope.
Local Open Scope list_scope.

Import Crew.

Lemma succeeded_outputs (l : list Invocation) :
  Forall succeeded l ->
  exists outs,
    map (fun inv => Agents.result (inv_outcome inv)) l = map inl outs
    /\ map outputOf l = map Some outs
    /\ List.length outs = List.length l.
Proof.
  induction 1 as [|inv l [output Ho] _ (outs & H1 & H2 & H3)].
  - by exists [].
  - exists (output :: outs). cbn [map List.length]. unfold outputOf at 1.
    by rewrite Ho, H1, H2, H3.
Qed.

Lemma map_zip_with {A B C D} (h : B -> C -> D) (f : A -> B) (g : A -> C) (l : list A) :
  map (fun x => h (f x) (g x)) l = zip_with h (map f l) (map g l).
Proof. induction l as [|x l IH]; cbn; [reflexivity | by rewrite IH]. Qed.

Lemma outputOrEmpty_Some (outs : list JS.value) :
  map outputOrEmpty (map Some outs) = outs.
Proof.
  induction outs as [|[s|n] outs IH]; cbn; [reflexivity | by rewrite IH | by rewrite IH].
Qed.

Lemma map_inl_inj {A B} (l l' : list A) : map (@inl A B) l = map inl l' -> l = l'.
Proof.
  revert l'. induction l as [|x l IH]; intros [|y l']; cbn; try done.
  intros [= -> H]. by rewrite (IH l' H).
Qed.

Lemma truthy_append_l (a b : string) : JS.truthy a = true -> JS.truthy (a ++ b) = true.
Proof. by destruct a. Qed.

(** The result announced for a job whose calls all succeeded. *)
Lemma crew_completed_result execute request s :
  let jid := jobId request in
  let s' := startGeneration execute request s in
  let new := since s s' in
  noTimer jid s ->
  Forall succeeded (invocations (nextRef s) new) ->
  exists outs job result,
    map (fun inv => Agents.result (inv_outcome inv)) (invocations (nextRef s) new)
    = map inl outs
    /\ List.length outs = 4
    /\ getJobStatus jid s' = Some job
    /\ job_status job = completed
    /\ map task_output (job_tasks job) = map Some outs
    /\ last (sent new)
       = Some {| data := generation_completed result; ev_timestamp := now s' |}
    /\ res_jobId result = jid
    /\ res_status result = completed
    /\ res_agents result = zip_with mkAgentContent roleOrder outs.
Proof.
  intros jid s' new Hno Hall.
  destruct (startGeneration_run execute request s)
    as (c & Hc & Ht & _ & Hord & Hlen & Hend).
  fold jid s' new in Ht, Hord, Hlen, Hend.
  destruct Hend as [(_ & -> & Hfin) | (invs & inv & error & Hi & _ & He & _)].
  2:{ exfalso. rewrite Hi in Hall. apply Forall_app in Hall as [_ Hall].
      inversion Hall; subst. by eapply not_succeeded. }
  destruct (Hfin Hno) as (job & tms & Hget & Hjs & Hst & Hout & Hsc & Hlast & _).
  destruct (succeeded_outputs _ Hall) as (outs & Hres & Hsome & Hlo).
  exists outs, job, (resultOf jid job (now s')). split_and!; try done.
  - by rewrite Hlo.
  - unfold getJobStatus. by rewrite Hget.
  - unfold outputs in Hout. by rewrite Hout.
  - cbn [resultOf res_agents].
    rewrite (map_zip_with mkAgentContent (fun task => Agents.role (task_agent task))
               (fun task => outputOrEmpty (task_output task))).
    f_equal.
    + transitivity (map (fun x : string * string * string * Agents.AIAgent =>
                           Agents.role (snd x)) (statics job)).
      * unfold statics. by rewrite <- list_fmap_compose.
      * rewrite Hsc. reflexivity.
    + transitivity (map outputOrEmpty (outputs job)).
      * unfold outputs. by rewrite <- list_fmap_compose.
      * rewrite Hout, Hsome. apply outputOrEmpty_Some.
Qed.

(** When all four calls succeed, the result announced carries, for
    each role in order, exactly what the role's agent returned, and
    the job retrieved by id holds the same outputs. *)
Theorem completed_result_carries_the_outputs execute request s :
  let jid := jobId request in
  let s' := startGeneration execute request s in
  let new := since s s' in
  noTimer jid s ->
  Forall succeeded (invocations (nextRef s) new) ->
  exists outs job result,
    map (fun inv => Agents.result (inv_outcome inv)) (invocations (nextRef s) new)
    = map inl outs
    /\ List.length outs = 4
    /\ getJobStatus jid s' = Some job
    /\ job_status job = completed
    /\ map task_output (job_tasks job) = map Some outs
    /\ last (sent new)
       = Some {| data := generation_completed result; ev_timestamp := now s' |}
    /\ res_jobId result = jid
    /\ res_status result = completed
    /\ res_agents result = zip_with mkAgentContent roleOrder outs.
Proof. apply crew_completed_result. Qed.

Lemma execute_succeeds w (inv : Invocation) :
  CrewMore.genuine (Agents.execute w) inv ->
  Agents.result (inv_outcome inv)
  = inl (JS.getPropOr Agents.responses (Agents.role (inv_agent inv))
           ("Analysis completed for " ++ Agents.role (inv_agent inv))).
Proof. intros [n ->]. reflexivity. Qed.

(** With the agents as server/services/agents.ts has them, whose
    [execute] always answers with the canned text, every job runs its
    four stages and completes; the outputs stored and announced are
    the four canned texts, whatever was asked. *)
Theorem mock_agents_always_complete w request s :
  let jid := jobId request in
  let s' := startGeneration (Agents.execute w) request s in
  let new := since s s' in
  map (fun inv => Agents.result (inv_outcome inv)) (invocations (nextRef s) new)
  = map inl CrewMore.cannedOutputs
  /\ (noTimer jid s ->
      exists job result,
        getJobStatus jid s' = Some job
        /\ job_status job = completed
        /\ map task_output (job_tasks job) = map Some CrewMore.cannedOutputs
        /\ last (sent new)
           = Some {| data := generation_completed result; ev_timestamp := now s' |}
        /\ res_agents result = zip_with mkAgentContent roleOrder CrewMore.cannedOutputs).
Proof.
  intros jid s' new.
  destruct (startGeneration_events (Agents.execute w) request s) as [_ Hg].
  fold s' new in Hg.
  assert (Forall succeeded (invocations (nextRef s) new)) as Hall.
  { eapply Forall_impl; [exact Hg |]. intros inv H. eexists. by apply (execute_succeeds w). }
  assert (map (fun inv => Agents.result (inv_outcome inv)) (invocations (nextRef s) new)
          = map inl CrewMore.cannedOutputs) as Hres.
  { destruct (startGeneration_run (Agents.execute w) request s)
      as (c & Hc & Ht & _ & Hord & Hlen & Hend).
    fold jid s' new in Ht, Hord, Hlen, Hend.
    destruct Hend as [(_ & -> & _) | (invs & inv & error & Hi & _ & He & _)].
    2:{ exfalso. rewrite Hi in Hall. apply Forall_app in Hall as [_ Hall].
        inversion Hall; subst. by eapply not_succeeded. }
    transitivity
      (map (fun a : Agents.AIAgent =>
              @inl JS.value string
                (JS.getPropOr Agents.responses (Agents.role a)
                   ("Analysis completed for " ++ Agents.role a)))
         (map inv_agent (invocations (nextRef s) new))).
    - rewrite <- list_fmap_compose. apply Forall_fmap_ext_1.
      eapply Forall_impl; [exact Hg |]. intros inv H. by apply (execute_succeeds w).
    - rewrite (pr_agents _ _ _ _ _ Hord). reflexivity. }
  split; [exact Hres |]. intros Hno.
  destruct (crew_completed_result (Agents.execute w) request s Hno Hall)
    as (outs & job & result & Hr & _ & Hjob & Hjs & Hout & Hlast & _ & _ & Hag).
  fold jid s' new in Hr, Hjob, Hlast.
  assert (outs = CrewMore.cannedOutputs) as ->.
  { rewrite Hres in Hr. symmetry. by apply (map_inl_inj (B := string)). }
  exists job, result. split_and!; assumption.
Qed.

Lemma executeWithModel_error w n a p c error :
  Agents.result (Agents.executeWithModel w n a p c) = inr error ->
  error = ("Cerebras AI error for agent " ++ Agents.role a)%string
  /\ Agents.noCredential w = false.
Proof.
  unfold Agents.executeWithModel. destruct (Agents.noCredential w); [discriminate |].
  destruct (Agents.completions w n _) as [t [content|]]; cbn; [discriminate |].
  intros [= <-]. by split.
Qed.

(** With the agents that call the model: when the call of stage [k]
    fails, the error the job is failed with names the role of that
    stage. *)
Theorem model_failure_names_the_stage w request s k inv error :
  let jid := jobId request in
  let s' := startGeneration (Agents.executeWithModel w) request s in
  let new := since s s' in
  invocations (nextRef s) new !! k = Some inv ->
  Agents.result (inv_outcome inv) = inr error ->
  exists role,
    roleOrder !! k = Some role
    /\ error = ("Cerebras AI error for agent " ++ role)%string
    /\ Agents.noCredential w = false
    /\ (noTimer jid s ->
        (job_status <$> getJobStatus jid s') = Some failed
        /\ last (sent new)
           = Some {| data := generation_failed jid error; ev_timestamp := now s' |}).
Proof.
  intros jid s' new Hk Herr.
  destruct (startGeneration_events (Agents.executeWithModel w) request s) as [_ Hg].
  fold s' new in Hg.
  pose proof (Forall_lookup_1 _ _ _ _ Hg Hk) as [n Hn].
  pose proof Herr as Herr'. rewrite Hn in Herr'.
  apply executeWithModel_error in Herr' as [-> Hcred].
  destruct (failing_call_is_last (Agents.executeWithModel w) request s k inv _ Hk Herr)
    as (Hlen & Hord & _ & Hfin).
  fold jid s' new in Hlen, Hord, Hfin.
  exists (Agents.role (inv_agent inv)). split_and!; try done.
  - pose proof (roles_of_calls request _ _ _ Hord) as Hroles.
    assert (map (fun inv => Agents.role (inv_agent inv)) (invocations (nextRef s) new) !! k
            = Some (Agents.role (inv_agent inv))) as H
        by (by rewrite list_lookup_fmap, Hk).
    rewrite Hroles in H. rewrite lookup_take_lt in H by lia. exact H.
  - intros Hno. destruct (Hfin Hno) as (job & Hget & Hjs & _ & Hlast & _).
    split.
    + unfold getJobStatus. rewrite Hget. cbn. by rewrite Hjs.
    + rewrite Hlast. by rewrite truthy_append_l.
Qed.

End CrewResults.

(** ** The submission endpoint of server/routes.ts *)

Section RoutesJobs.

Local Open Scope nat_scope.
Local Open Scope list_scope.

Import Crew.

Variable execute : nat -> Agents.AIAgent -> string -> option string -> Agents.Outcome.
Variable nanoid : nat -> string.

Lemma postGenerate_accepts r f l sv :
  r <> "" -> f <> "" -> l <> "" ->
  Routes.postGenerate execute nanoid (Routes.mkBody (Some r) (Some f) (Some l)) sv
  = (Routes.Started ("job_" ++ nanoid (Routes.drawn sv)) "Code generation started"
       "2-3 minutes",
     Routes.mkServer
       (startGeneration execute
          (mkRequest ("job_" ++ nanoid (Routes.drawn sv)) (JS.trim r) f l
             (now (Routes.crewService sv)))
          (Routes.crewService sv))
       (S (Routes.drawn sv))).
Proof.
  intros Hr Hf Hl. unfold Routes.postGenerate.
  destruct r as [|c r]; [done |]. destruct f as [|d f]; [done |].
  destruct l as [|e l]; [done |]. reflexivity.
Qed.

(** How a run ends, whichever way: the job is registered under its id,
    completed or failed, with its four tasks. *)
Lemma startGeneration_registered request s :
  noTimer (jobId request) s ->
  exists job,
    getJobStatus (jobId request) (startGeneration execute request s) = Some job
    /\ (job_status job = completed \/ job_status job = failed)
    /\ List.length (job_tasks job) = 4.
Proof.
  intros Hno.
  destruct (startGeneration_run execute request s)
    as (c & Hc & Ht & _ & Hord & Hlen & Hend).
  destruct Hend as [(_ & _ & Hfin) | (invs & inv & error & Hi & _ & He & _ & Hfin)].
  - destruct (Hfin Hno) as (job & tms & Hget & Hjs & Hst & _).
    exists job. split_and!.
    + unfold getJobStatus. by rewrite Hget.
    + by left.
    + rewrite <- (length_map task_status). fold (statuses job). by rewrite Hst.
  - destruct (Hfin Hno) as (job & Hget & Hjs & Hst & _).
    exists job. split_and!.
    + unfold getJobStatus. by rewrite Hget.
    + by right.
    + rewrite <- (length_map task_status). fold (statuses job). rewrite Hst.
      rewrite length_app, length_replicate. cbn [List.length]. rewrite length_replicate.
      assert (List.length invs < 4); [| lia].
      rewrite Hi, length_app in Hlen. cbn in Hlen. lia.
Qed.

(** A submission with three non-empty fields is answered with a new
    job id, and once the run has settled a query by that id finds the
    job, completed or failed, with its four tasks (the id being fresh:
    no eviction is pending under it). *)
Theorem submitted_job_can_be_queried r f l sv :
  r <> "" -> f <> "" -> l <> "" ->
  let jobId := ("job_" ++ nanoid (Routes.drawn sv))%string in
  let out :=
    Routes.postGenerate execute nanoid (Routes.mkBody (Some r) (Some f) (Some l)) sv in
  noTimer jobId (Routes.crewService sv) ->
  fst out = Routes.Started jobId "Code generation started" "2-3 minutes"
  /\ Routes.drawn (snd out) = S (Routes.drawn sv)
  /\ exists job,
       Routes.getJob jobId (snd out) = Routes.Job job
       /\ (job_status job = completed \/ job_status job = failed)
       /\ List.length (job_tasks job) = 4.
Proof.
  intros Hr Hf Hl jobId out Hno. unfold out.
  rewrite (postGenerate_accepts r f l sv Hr Hf Hl). fold jobId. cbn [fst snd Routes.drawn].
  split_and!; try reflexivity.
  destruct (startGeneration_registered
              (mkRequest jobId (JS.trim r) f l (now (Routes.crewService sv)))
              (Routes.crewService sv) Hno) as (job & Hjob & Hjs & Hlen).
  exists job. split_and!; try assumption.
  unfold Routes.getJob. cbn [Routes.crewService]. cbn [Crew.jobId] in Hjob.
  by rewrite Hjob.
Qed.

(** The endpoint only checks that the fields are not empty: the
    requirements are trimmed, the framework and the language are
    passed on as they are, and nothing is validated.  So requirements
    of white space only start a job, announced with empty
    requirements, whose first agent is asked to analyse them. *)
Theorem blank_requirements_start_a_job r f l sv :
  r <> "" -> f <> "" -> l <> "" ->
  let jobId := ("job_" ++ nanoid (Routes.drawn sv))%string in
  let request := mkRequest jobId (JS.trim r) f l (now (Routes.crewService sv)) in
  let out :=
    Routes.postGenerate execute nanoid (Routes.mkBody (Some r) (Some f) (Some l)) sv in
  let new := since (Routes.crewService sv) (Routes.crewService (snd out)) in
  fst out = Routes.Started jobId "Code generation started" "2-3 minutes"
  /\ (exists rest,
        sent new
        = {| data := generation_started jobId request;
             ev_timestamp := now (Routes.crewService sv) |} :: rest)
  /\ (exists inv,
        invocations (nextRef (Routes.crewService sv)) new !! 0 = Some inv
        /\ inv_prompt inv = getTaskDescription "Product Manager" request)
  /\ (JS.trim r = "" ->
      getTaskDescription "Product Manager" request
      = ("Analyze the following project requirements and create comprehensive specifications: "
         ++ dquote ++ dquote ++ ". Framework: " ++ f ++ ", Language: " ++ l)%string).
Proof.
  intros Hr Hf Hl jobId request out new. unfold new, out.
  rewrite (postGenerate_accepts r f l sv Hr Hf Hl). fold jobId request.
  cbn [fst snd Routes.crewService]. split_and!.
  - reflexivity.
  - destruct (startGeneration_events execute request (Routes.crewService sv))
      as [(rest & ->) _].
    unfold sent. cbn [omap list_omap sentOf]. by eexists.
  - destruct (startGeneration_run execute request (Routes.crewService sv))
      as (c & Hc & Ht & _ & Hord & Hlen & Hend).
    assert (0 < c) as Hpos.
    { destruct Hend as [(_ & -> & _) | (invs & inv & error & Hi & _)]; [lia |].
      rewrite Hi, length_app in Hlen. cbn in Hlen. lia. }
    destruct (invocations _ _ !! 0) as [inv|] eqn:E.
    + exists inv. split; [reflexivity |].
      pose proof (pr_prompts _ _ _ _ _ Hord) as Hp.
      assert (map inv_prompt
                (invocations (nextRef (Routes.crewService sv))
                   (since (Routes.crewService sv)
                      (startGeneration execute request (Routes.crewService sv)))) !! 0
              = Some (inv_prompt inv)) as H by (by rewrite list_lookup_fmap, E).
      rewrite Hp in H. rewrite lookup_take_lt in H by lia.
      cbn in H. by injection H as <-.
    + apply lookup_ge_None in E. lia.
  - intros Hblank. unfold request. rewrite Hblank. reflexivity.
Qed.

End RoutesJobs.

(** ** The socket service (services/websocket.ts) *)

Section Sockets.

Local Open Scope nat_scope.
Local Open Scope list_scope.

Import WebSocket.

Variable stringify : Event -> string.

Lemma broadcast_lookup event s clientId :
  clients (broadcast stringify event s) !! clientId
  = (fun client => if isOpen (readyState client)
                   then send (stringify event) client else client)
      <$> clients s !! clientId.
Proof. unfold broadcast. cbn. apply lookup_fmap. Qed.

Lemma relay_lookup es : forall s clientId,
  clients (relay stringify es s) !! clientId
  = (fun client =>
       if isOpen (readyState client)
       then mkClient (id client) (readyState client) (joinTime client)
              (sent client ++ map (fun e => stringify (relayed e)) es)
       else client)
      <$> clients s !! clientId.
Proof.
  induction es as [|e es IH]; intros s clientId; cbn [relay fold_left map].
  - destruct (clients s !! clientId) as [[i r j m]|]; cbn; [| reflexivity].
    destruct (isOpen r); by rewrite ?app_nil_r.
  - fold (relay stringify es (broadcastToClients stringify e s)). rewrite IH.
    unfold broadcastToClients. rewrite broadcast_lookup.
    destruct (clients s !! clientId) as [[i r j m]|]; cbn; [| reflexivity].
    destruct (isOpen r) eqn:E; cbn; rewrite E; [| reflexivity].
    by rewrite <- app_assoc.
Qed.

(** Every client receives the events of a job in the order in which
    the job runner broadcast them, after what it had received before:
    an open client all of them, a client whose socket is not open none;
    no client is added or removed.  The first event is the
    announcement of the request. *)
Theorem job_events_reach_open_clients execute request cs s clientId client :
  let new := Crew.since cs (Crew.startGeneration execute request cs) in
  let s' := relay stringify (Crew.sent new) s in
  clients s !! clientId = Some client ->
  (exists client',
      clients s' !! clientId = Some client'
      /\ id client' = id client /\ readyState client' = readyState client
      /\ joinTime client' = joinTime client
      /\ sent client'
         = sent client
           ++ (if isOpen (readyState client)
               then map (fun e => stringify (relayed e)) (Crew.sent new) else []))
  /\ (exists rest,
        Crew.sent new
        = Crew.mkEvent (Crew.generation_started (Crew.jobId request) request) (Crew.now cs)
          :: rest)
  /\ getConnectedClients s' = getConnectedClients s.
Proof.
  intros new s' Hc. split_and!.
  - unfold s'. rewrite relay_lookup, Hc. cbn. eexists. split; [reflexivity |].
    destruct client as [i r j m]. cbn. destruct (isOpen r); cbn; by rewrite ?app_nil_r.
  - destruct (startGeneration_events execute request cs) as [(rest & Hrest) _].
    unfold new. rewrite Hrest. unfold Crew.sent. cbn. by eexists.
  - unfold getConnectedClients, s'. clear Hc s'. generalize (Crew.sent new). intros es.
    revert s. induction es as [|e es IH]; intros s; cbn [relay fold_left]; [reflexivity |].
    fold (relay stringify es (broadcastToClients stringify e s)). rewrite IH.
    unfold broadcastToClients, broadcast. cbn. apply map_size_fmap.
Qed.

(** A ping is answered with a pong to the sender alone, and only if
    the sender is registered with an open socket; a message of any
    other type, or without a type, changes nothing. *)
Theorem ping_is_answered_to_the_sender_only clientId type s :
  let s' := handleClientMessage stringify clientId type s in
  (forall other, other <> clientId -> clients s' !! other = clients s !! other)
  /\ getConnectedClients s' = getConnectedClients s
  /\ (type <> Some "ping"%string -> s' = s)
  /\ (type = Some "ping"%string ->
      clients s' !! clientId
      = (fun client =>
           if isOpen (readyState client)
           then send (stringify (pong (now s) (now s))) client else client)
          <$> clients s !! clientId).
Proof.
  intros s'. unfold s', handleClientMessage, sendToClient, getConnectedClients.
  destruct type as [t|].
  2:{ split_and!; try done. }
  destruct (String.eqb_spec t "ping") as [->|Hne].
  2:{ split_and!; try done. intros [= ->]. by destruct Hne. }
  destruct (clients s !! clientId) as [client|] eqn:Hc.
  2:{ split_and!; done. }
  destruct (isOpen (readyState client)) eqn:Ho.
  2:{ split_and!; try done. intros _. cbn. by rewrite Ho. }
  cbn. split_and!.
  - intros other Hne. by rewrite lookup_insert_ne.
  - rewrite map_size_insert, Hc. reflexivity.
  - intros H. by destruct H.
  - intros _. rewrite lookup_insert_eq. cbn. by rewrite Ho.
Qed.

(** A new connection is registered and told how many clients are
    connected, itself included; the other clients are neither touched
    nor told.  When it closes it is removed; for an id that was not
    registered before, the registry is then as it was. *)
Theorem connection_is_registered_and_removed clientId rs s :
  let s' := onConnection stringify clientId rs s in
  clients s' !! clientId
  = Some (mkClient clientId rs (now s)
            (if isOpen rs
             then [stringify (connection_established clientId (now s)
                                (getConnectedClients s') (now s))]
             else []))
  /\ (forall other, other <> clientId -> clients s' !! other = clients s !! other)
  /\ getConnectedClients s'
     = match clients s !! clientId with
       | Some _ => getConnectedClients s
       | None => S (getConnectedClients s)
       end
  /\ clients (onClose clientId s') !! clientId = None
  /\ (clients s !! clientId = None -> clients (onClose clientId s') = clients s).
Proof.
  intros s'.
  assert (clients s'
          = <[clientId := mkClient clientId rs (now s)
                (if isOpen rs
                 then [stringify (connection_established clientId (now s)
                                    (size (<[clientId := mkClient clientId rs (now s) []]>
                                             (clients s))) (now s))]
                 else [])]> (clients s)) as Hs'.
  { unfold s', onConnection, sendToClient. cbn. rewrite lookup_insert_eq. cbn.
    destruct (isOpen rs); cbn.
    - by rewrite insert_insert_eq.
    - reflexivity. }
  assert (getConnectedClients s'
          = size (<[clientId := mkClient clientId rs (now s) []]> (clients s))) as Hsize.
  { unfold getConnectedClients. rewrite Hs', !map_size_insert. reflexivity. }
  split_and!.
  - rewrite Hsize, Hs'. by rewrite lookup_insert_eq.
  - intros other Hne. rewrite Hs'. by rewrite lookup_insert_ne.
  - rewrite Hsize, map_size_insert. unfold getConnectedClients.
    by destruct (clients s !! clientId).
  - cbn. apply lookup_delete_eq.
  - intros Hnone. cbn. rewrite Hs'. by rewrite delete_insert_id.
Qed.

End Sockets.

(** ** The further properties at concrete runs *)

Section Instances.

Local Open Scope nat_scope.
Local Open Scope list_scope.

(** A crew run that reports failure after one task. *)
Lemma failing_crew_run_is_recorded :
  Enhanced.activeJobs
    (Enhanced.startGeneration Cases.failingCrew Cases.todoRequest
       (Enhanced.newService None 0%N)) !! "job_7"
  = Some (Enhanced.mkJobInfo (Enhanced.sanitizeRequest Cases.todoRequest) 0%N
            Enhanced.failed (Some 1500%N) None (Some "model unavailable")).
Proof.
  destruct (failed_crew_run_is_recorded Cases.failingCrew Cases.todoRequest
              (Enhanced.newService None 0%N) "model unavailable"
              ltac:(vm_compute; reflexivity) ltac:(constructor) eq_refl) as [H _].
  change "job_7" with (Utils.jobId Cases.todoRequest). rewrite H.
  vm_compute. reflexivity.
Defined.

(** The example job five minutes after it has settled. *)
Lemma example_job_is_evicted :
  Enhanced.getJobStatus "job_1"
    (Enhanced.sleep 300000%N
       (Enhanced.startGeneration Example.crew Example.enhancedRequest
          (Enhanced.newService None 0%N)))
  = Enhanced.ErrorResponse "Job not found" 304010%N.
Proof.
  destruct (enhanced_job_is_evicted Example.crew Example.enhancedRequest
              (Enhanced.newService None 0%N) 300000%N) as [H _].
  change "job_1" with (Utils.jobId Example.enhancedRequest).
  rewrite (H ltac:(lia)). vm_compute. reflexivity.
Defined.

(** The example job, cancelled while its crew is at work. *)
Lemma cancelled_example_job_completes :
  Enhanced.status
    <$> Enhanced.activeJobs
          (Enhanced.finishGeneration "job_1" (Enhanced.sanitizeRequest Example.enhancedRequest)
             (Example.crew false (Enhanced.sanitizeRequest Example.enhancedRequest))
             (snd (Enhanced.cancelJob "job_1" Example.running))) !! "job_1"
  = Some Enhanced.completed.
Proof.
  destruct (cancelled_job_still_completes Example.enhancedRequest
              (Enhanced.newService None 0%N)
              (Example.crew false (Enhanced.sanitizeRequest Example.enhancedRequest))
              ltac:(vm_compute; reflexivity) ltac:(constructor) eq_refl)
    as (_ & _ & H & _).
  exact H.
Defined.

(** The run of [Example.completedRun]. *)
Lemma completed_run_carries_the_outputs :
  exists job,
    Crew.getJobStatus "job_1" Example.completedRun = Some job
    /\ Crew.job_status job = Crew.completed.
Proof.
  destruct (completed_result_carries_the_outputs (Agents.execute Example.noKey)
              Example.request (Crew.newService 0%N) ltac:(constructor))
    as (outs & job & result & _ & _ & Hjob & Hst & _).
  { vm_compute. repeat (constructor; [eexists; reflexivity |]). constructor. }
  exists job.
  change Example.completedRun
    with (Crew.startGeneration (Agents.execute Example.noKey) Example.request
            (Crew.newService 0%N)).
  change "job_1" with (Crew.jobId Example.request).
  split; [exact Hjob | exact Hst].
Defined.

(** The run of [Example.completedRun] holds the four canned texts. *)
Lemma completed_run_holds_canned_texts :
  exists job,
    Crew.getJobStatus "job_1" Example.completedRun = Some job
    /\ map Crew.task_output (Crew.job_tasks job) = map Some CrewMore.cannedOutputs.
Proof.
  destruct (mock_agents_always_complete Example.noKey Example.request
              (Crew.newService 0%N)) as [_ H].
  destruct (H ltac:(constructor)) as (job & result & Hjob & _ & Houts & _).
  exists job.
  change Example.completedRun
    with (Crew.startGeneration (Agents.execute Example.noKey) Example.request
            (Crew.newService 0%N)).
  change "job_1" with (Crew.jobId Example.request).
  split; [exact Hjob | exact Houts].
Defined.

(** The run of [Example.failedRun], whose third call fails. *)
Lemma third_stage_failure_names_the_developer :
  (Crew.job_status <$> Crew.getJobStatus "job_1" Example.failedRun) = Some Crew.failed
  /\ last (Crew.sent (Crew.since (Crew.newService 0%N) Example.failedRun))
     = Some (Crew.mkEvent
               (Crew.generation_failed "job_1"
                  "Cerebras AI error for agent Senior Developer")
               (Crew.now Example.failedRun)).
Proof.
  destruct (model_failure_names_the_stage Example.thirdCallFails Example.request
              (Crew.newService 0%N) 2 _ "Cerebras AI error for agent Senior Developer"
              ltac:(vm_compute; reflexivity) eq_refl)
    as (role & _ & _ & _ & H).
  destruct (H ltac:(constructor)) as [Hst Hlast].
  change Example.failedRun
    with (Crew.startGeneration (Agents.executeWithModel Example.thirdCallFails)
            Example.request (Crew.newService 0%N)).
  change "job_1" with (Crew.jobId Example.request).
  split; [exact Hst | exact Hlast].
Defined.

(** A first submission to a fresh server. *)
Lemma first_submission_can_be_queried :
  fst (Routes.postGenerate (Agents.execute Example.noKey) Example.nanoid
         (Routes.mkBody (Some "Build a todo app") (Some "react") (Some "python"))
         (Routes.mkServer (Crew.newService 0%N) 0))
  = Routes.Started "job_id0" "Code generation started" "2-3 minutes".
Proof.
  destruct (submitted_job_can_be_queried (Agents.execute Example.noKey) Example.nanoid
              "Build a todo app" "react" "python"
              (Routes.mkServer (Crew.newService 0%N) 0)
              ltac:(discriminate) ltac:(discriminate) ltac:(discriminate)
              ltac:(constructor)) as [H _].
  exact H.
Defined.

(** Requirements of three spaces. *)
Lemma blank_requirements_example :
  exists rest,
    Crew.sent
      (Crew.since (Crew.newService 0%N)
         (Routes.crewService
            (snd (Routes.postGenerate (Agents.execute Example.noKey) Example.nanoid
                    (Routes.mkBody (Some "   ") (Some "react") (Some "python"))
                    (Routes.mkServer (Crew.newService 0%N) 0)))))
    = Crew.mkEvent
        (Crew.generation_started "job_id0"
           (Crew.mkRequest "job_id0" "" "react" "python" 0%N)) 0%N
      :: rest.
Proof.
  destruct (blank_requirements_start_a_job (Agents.execute Example.noKey) Example.nanoid
              "   " "react" "python" (Routes.mkServer (Crew.newService 0%N) 0)
              ltac:(discriminate) ltac:(discriminate) ltac:(discriminate))
    as (_ & (rest & H) & _).
  exists rest. exact H.
Defined.

(** The events of [Example.completedRun] as the one open client of
    [SocketCases.oneClient] receives them. *)
Lemma one_client_receives_the_run :
  exists client',
    WebSocket.clients
      (WebSocket.relay SocketCases.label
         (Crew.sent (Crew.since (Crew.newService 0%N) Example.completedRun))
         SocketCases.oneClient) !! "client_1"
    = Some client'
    /\ take 2 (WebSocket.sent client') = ["connection_established"; "generation_started"]
    /\ last (WebSocket.sent client') = Some "generation_completed".
Proof.
  destruct (job_events_reach_open_clients SocketCases.label (Agents.execute Example.noKey)
              Example.request (Crew.newService 0%N) SocketCases.oneClient "client_1" _
              ltac:(vm_compute; reflexivity))
    as ((client' & Hc & _ & _ & _ & Hsent) & _ & _).
  exists client'.
  change Example.completedRun
    with (Crew.startGeneration (Agents.execute Example.noKey) Example.request
            (Crew.newService 0%N)).
  split; [exact Hc |]. rewrite Hsent. split; vm_compute; reflexivity.
Defined.

End Instances.
